(** * Ingress provisioning and webhook synchronisation of switch.fun

    A shallow embedding of

    - [resetIngresses] and [createIngress]   (src/actions/user.ts, the
      "use server" ingress module), and
    - the LiveKit webhook handler [POST]     (src/app/api/webhooks/livekit/route.ts)

    together with the properties the specification states about them.

    The TypeScript code is asynchronous but strictly sequential ([await] at
    every remote call), it mutates two stores (the remote LiveKit project and
    the Prisma [stream] table) and it throws.  It is modelled in a state
    monad with exceptions in which a thrown error keeps the state reached so
    far, as in JavaScript.  Every remote call and every storage call is also
    appended to a chronological [log], so that "is attempted", "is called
    before" and "performs no call" are statements about that log.

    [console.log] / [console.warn] / [console.error] lines have no effect on
    either store and are not modelled. *)

From Stdlib Require Import String List Bool Arith Lia.
Import ListNotations.
Open Scope string_scope.
Open Scope list_scope.

Set Implicit Arguments.

(* ===================================================================== *)
(** ** JavaScript values used by the code *)
(* ===================================================================== *)

(** An [Error] object: [message], and the [code] Prisma attaches to its
    known request errors ([undefined] for a plain [new Error(msg)]). *)
Record JsError : Type := mkError {
  message : string;
  code    : option string
}.

Definition newError (msg : string) : JsError := mkError msg None.

(** Truthiness of a string: [if (s)] holds exactly for non-empty strings. *)
Definition truthy (s : string) : bool :=
  match s with
  | EmptyString => false
  | String _ _ => true
  end.

(** Truthiness of [string | null], as returned by [Headers.get]. *)
Definition truthyOpt (o : option string) : bool :=
  match o with
  | Some s => truthy s
  | None => false
  end.

(** [haystack.includes(needle)]. *)
Definition includes (haystack needle : string) : bool :=
  match String.index 0 needle haystack with
  | Some _ => true
  | None => false
  end.

(** [a === b] on optional strings against a string. *)
Definition optEqb (o : option string) (s : string) : bool :=
  match o with
  | Some x => String.eqb x s
  | None => false
  end.

(* ===================================================================== *)
(** ** Data model *)
(* ===================================================================== *)

(** livekit-server-sdk enumerations. *)
Inductive IngressInput : Type :=
  | RTMP_INPUT
  | WHIP_INPUT
  | URL_INPUT.

Inductive TrackSource : Type :=
  | UNKNOWN
  | CAMERA
  | MICROPHONE
  | SCREEN_SHARE
  | SCREEN_SHARE_AUDIO.

Inductive IngressVideoEncodingPreset : Type :=
  | H264_720P_30FPS_3_LAYERS
  | H264_1080P_30FPS_3_LAYERS
  | H264_540P_25FPS_2_LAYERS
  | H264_720P_30FPS_1_LAYER
  | H264_1080P_30FPS_1_LAYER.

Inductive IngressAudioEncodingPreset : Type :=
  | OPUS_STEREO_96KBPS
  | OPUS_MONO_64KBS.

Definition IngressInput_eqb (a b : IngressInput) : bool :=
  match a, b with
  | RTMP_INPUT, RTMP_INPUT => true
  | WHIP_INPUT, WHIP_INPUT => true
  | URL_INPUT, URL_INPUT => true
  | _, _ => false
  end.

Record VideoOptions : Type := mkVideo {
  video_source : TrackSource;
  video_preset : IngressVideoEncodingPreset
}.

Record AudioOptions : Type := mkAudio {
  audio_source : TrackSource;
  audio_preset : IngressAudioEncodingPreset
}.

(** [CreateIngressOptions]: the four fields set unconditionally, and the
    three optional ones [createIngress] assigns in one branch or the other. *)
Record CreateIngressOptions : Type := mkOptions {
  opt_name                : string;
  opt_roomName            : string;
  opt_participantName     : string;
  opt_participantIdentity : string;
  opt_bypassTranscoding   : option bool;
  opt_video               : option VideoOptions;
  opt_audio               : option AudioOptions
}.

(** [IngressInfo], the protobuf message of the SDK: its string fields are
    plain strings, an unset one is the empty string. *)
Record IngressInfo : Type := mkIngress {
  ingressId           : string;
  roomName            : string;
  participantIdentity : string;
  participantName     : string;
  url                 : string;
  streamKey           : string
}.

(** A LiveKit room, as far as the code reads it. *)
Record Room : Type := mkRoom {
  name : string
}.

(** The authenticated user returned by [getSelf()]. *)
Record Self : Type := mkSelf {
  self_id       : string;
  self_username : string
}.

(** A row of the Prisma [stream] table: the columns the two flows read or
    write, and the chat flags the client reads next to [isLive]. *)
Record StreamRecord : Type := mkStream {
  stream_id            : string;
  userId               : string;
  stream_ingressId     : option string;
  serverUrl            : option string;
  stream_streamKey     : option string;
  isLive               : bool;
  isChatEnabled        : bool;
  isChatDelayed        : bool;
  isChatFollowersOnly  : bool
}.

(** The [where] argument of [db.stream.update]: one of the two unique
    columns the code selects by.  [event.ingressInfo?.ingressId] may be
    [undefined], hence the option. *)
Inductive StreamWhere : Type :=
  | WhereUserId (u : string)
  | WhereIngressId (i : option string).

(** The [data] argument of [db.stream.update]: a column that is absent from
    the object literal is left as it is. *)
Record StreamData : Type := mkData {
  data_ingressId : option string;
  data_serverUrl : option string;
  data_streamKey : option string;
  data_isLive    : option bool
}.

(** The webhook event produced by [WebhookReceiver.receive]. *)
Record WebhookEvent : Type := mkEvent {
  event       : string;
  ingressInfo : option IngressInfo
}.

(** An inbound HTTP request, as far as [POST] reads it. *)
Record Request : Type := mkRequest {
  body          : string;
  authorization : option string
}.

Record Response : Type := mkResponse {
  response_text : string;
  status        : nat
}.

(** One entry of the effect log. *)
Inductive Call : Type :=
  | ListIngress (roomName : string)
  | DeleteIngress (ingressId : string)
  | ListRooms (names : list string)
  | DeleteRoom (name : string)
  | CreateIngress (ingressType : IngressInput) (options : CreateIngressOptions)
  | StreamUpdate (where_ : StreamWhere) (data : StreamData)
  | RevalidatePath (path : string).

(** Which log entries are remote deletions. *)
Definition isDeletion (c : Call) : bool :=
  match c with
  | DeleteIngress _ | DeleteRoom _ => true
  | _ => false
  end.

Definition isStreamUpdate (c : Call) : bool :=
  match c with
  | StreamUpdate _ _ => true
  | _ => false
  end.

(* ===================================================================== *)
(** ** The monad: state, and exceptions that keep the state *)
(* ===================================================================== *)

Inductive Outcome (A : Type) : Type :=
  | Ok (a : A)
  | Throw (e : JsError).

Arguments Ok {A} a.
Arguments Throw {A} e.

Definition M (W A : Type) : Type := W -> Outcome A * W.

Definition ret {W A : Type} (a : A) : M W A := fun w => (Ok a, w).

Definition throw {W A : Type} (e : JsError) : M W A := fun w => (Throw e, w).

Definition bind {W A B : Type} (m : M W A) (k : A -> M W B) : M W B :=
  fun w =>
    match m w with
    | (Ok a, w') => k a w'
    | (Throw e, w') => (Throw e, w')
    end.

(** [try { m } catch (error) { h error }]. *)
Definition tryCatch {W A : Type} (m : M W A) (h : JsError -> M W A) : M W A :=
  fun w =>
    match m w with
    | (Ok a, w') => (Ok a, w')
    | (Throw e, w') => h e w'
    end.

Declare Scope js_scope.
Delimit Scope js_scope with js.
Notation "x <- m ;; k" := (bind m (fun x => k))
  (at level 61, m at next level, right associativity) : js_scope.
Notation "m ;; k" := (bind m (fun _ => k))
  (at level 61, right associativity) : js_scope.
Open Scope js_scope.

(** [for (const x of xs) { await f(x) }]: the first throw leaves the loop. *)
Fixpoint forOf {W A : Type} (xs : list A) (f : A -> M W unit) : M W unit :=
  match xs with
  | [] => ret tt
  | x :: rest => f x ;; forOf rest f
  end.

(* ===================================================================== *)
(** ** The Prisma [stream] table *)
(* ===================================================================== *)

Definition matchesWhere (wh : StreamWhere) (r : StreamRecord) : bool :=
  match wh with
  | WhereUserId u => String.eqb (userId r) u
  | WhereIngressId (Some i) => optEqb (stream_ingressId r) i
  | WhereIngressId None => false
  end.

Definition orKeep {A : Type} (new : option A) (old : A) : A :=
  match new with
  | Some v => v
  | None => old
  end.

Definition orKeepOpt {A : Type} (new : option A) (old : option A) : option A :=
  match new with
  | Some v => Some v
  | None => old
  end.

Definition applyData (d : StreamData) (r : StreamRecord) : StreamRecord :=
  {| stream_id           := stream_id r;
     userId              := userId r;
     stream_ingressId    := orKeepOpt (data_ingressId d) (stream_ingressId r);
     serverUrl           := orKeepOpt (data_serverUrl d) (serverUrl r);
     stream_streamKey    := orKeepOpt (data_streamKey d) (stream_streamKey r);
     isLive              := orKeep (data_isLive d) (isLive r);
     isChatEnabled       := isChatEnabled r;
     isChatDelayed       := isChatDelayed r;
     isChatFollowersOnly := isChatFollowersOnly r |}.

(** The row selected by a [where] on a unique column. *)
Definition findStream (wh : StreamWhere) (table : list StreamRecord)
  : option StreamRecord :=
  find (matchesWhere wh) table.

(** Rewrite the selected row in place; [None] when no row is selected. *)
Fixpoint updateRow (wh : StreamWhere) (d : StreamData)
    (table : list StreamRecord) : option (StreamRecord * list StreamRecord) :=
  match table with
  | [] => None
  | r :: rest =>
      if matchesWhere wh r then Some (applyData d r, applyData d r :: rest)
      else match updateRow wh d rest with
           | Some (r', rest') => Some (r', r :: rest')
           | None => None
           end
  end.

(** Prisma's errors for [update]: a [where] without a unique value is
    rejected by validation; a [where] that selects no row raises the known
    request error P2025, the code [createIngress] tests for in its handler.
    The table is a list and [update] rewrites the first row its [where]
    selects; [userId] and [ingressId] are unique columns, so that row is
    the only one.  Uniqueness is not enforced on writes here: a write that
    Prisma would reject for a duplicate ingress id goes through. *)
Definition prismaValidationError : JsError :=
  mkError "Invalid `prisma.stream.update()` invocation" None.

Definition prismaRecordNotFound : JsError :=
  mkError "Record to update not found." (Some "P2025").

Definition whereIsValid (wh : StreamWhere) : bool :=
  match wh with
  | WhereIngressId None => false
  | _ => true
  end.

(* ===================================================================== *)
(** ** External collaborators *)
(* ===================================================================== *)

(** The LiveKit control API behind [ingressClient] and [roomService]: remote
    calls on a provider state [P], each of which may throw.  Nothing is
    assumed about what a call answers. *)
Class Provider (P : Type) : Type := {
  ingressClient_listIngress   : string -> P -> Outcome (list IngressInfo) * P;
  ingressClient_deleteIngress : string -> P -> Outcome unit * P;
  roomService_listRooms       : list string -> P -> Outcome (list Room) * P;
  roomService_deleteRoom      : string -> P -> Outcome unit * P;
  ingressClient_createIngress :
    IngressInput -> CreateIngressOptions -> P -> Outcome (option IngressInfo) * P
}.

(** Everything the two flows can observe or change. *)
Record World (P : Type) : Type := mkWorld {
  provider : P;                     (* the remote LiveKit project        *)
  db       : list StreamRecord;     (* the Prisma [stream] table         *)
  session  : option Self;           (* the authenticated user, if any    *)
  log      : list Call              (* calls made so far, oldest first   *)
}.

Arguments mkWorld {P} _ _ _ _.
Arguments provider {P} _.
Arguments db {P} _.
Arguments session {P} _.
Arguments log {P} _.

Section Effects.

Context {P : Type} `{Provider P}.

Definition record (c : Call) (w : World P) : World P :=
  mkWorld (provider w) (db w) (session w) (log w ++ [c]).

(** Lift a remote call: log it, run it on the provider state. *)
Definition remote {A : Type} (c : Call) (op : P -> Outcome A * P)
  : M (World P) A :=
  fun w =>
    let (r, p') := op (provider w) in
    (r, mkWorld p' (db w) (session w) (log w ++ [c])).

Definition listIngress (room : string) : M (World P) (list IngressInfo) :=
  remote (ListIngress room) (ingressClient_listIngress room).

Definition deleteIngress (i : string) : M (World P) unit :=
  remote (DeleteIngress i) (ingressClient_deleteIngress i).

Definition listRooms (names : list string) : M (World P) (list Room) :=
  remote (ListRooms names) (roomService_listRooms names).

Definition deleteRoom (n : string) : M (World P) unit :=
  remote (DeleteRoom n) (roomService_deleteRoom n).

Definition providerCreateIngress (ty : IngressInput)
    (o : CreateIngressOptions) : M (World P) (option IngressInfo) :=
  remote (CreateIngress ty o) (ingressClient_createIngress ty o).

(** [getSelf()] of the auth service: the session's user, or a throw. *)
Definition getSelf : M (World P) Self :=
  fun w =>
    match session w with
    | Some u => (Ok u, w)
    | None => (Throw (newError "Unauthorized"), w)
    end.

(** [db.stream.update({ where, data })]. *)
Definition db_stream_update (wh : StreamWhere) (d : StreamData)
  : M (World P) StreamRecord :=
  fun w =>
    let w1 := record (StreamUpdate wh d) w in
    if whereIsValid wh then
      match updateRow wh d (db w) with
      | Some (r, table') =>
          (Ok r, mkWorld (provider w1) table' (session w1) (log w1))
      | None => (Throw prismaRecordNotFound, w1)
      end
    else (Throw prismaValidationError, w1).

(** [revalidatePath(path)] of next/cache. *)
Definition revalidatePath (path : string) : M (World P) unit :=
  fun w => (Ok tt, record (RevalidatePath path) w).

(* =================================================================== *)
(** ** src/actions/user.ts: [resetIngresses] *)
(* =================================================================== *)

(** The safety check of the ingress loop. *)
Definition ownsIngress (hostIdentity : string) (ingress : IngressInfo) : bool :=
  String.eqb (roomName ingress) hostIdentity
  || String.eqb (participantIdentity ingress) hostIdentity.

Definition ingressStep (hostIdentity : string) (ingress : IngressInfo)
  : M (World P) unit :=
  if truthy (ingressId ingress) then
    if ownsIngress hostIdentity ingress then
      deleteIngress (ingressId ingress)
    else ret tt
  else ret tt.

Definition roomStep (hostIdentity : string) (room : Room) : M (World P) unit :=
  if String.eqb (name room) hostIdentity then deleteRoom (name room)
  else ret tt.

Definition resetIngresses (hostIdentity : string) : M (World P) unit :=
  ingresses <- listIngress hostIdentity ;;
  rooms <- listRooms [hostIdentity] ;;
  forOf ingresses (ingressStep hostIdentity) ;;
  forOf rooms (roomStep hostIdentity).

(* =================================================================== *)
(** ** src/actions/user.ts: [createIngress] *)
(* =================================================================== *)

Definition baseOptions (self : Self) : CreateIngressOptions :=
  {| opt_name                := self_username self;
     opt_roomName            := self_id self;
     opt_participantName     := self_username self;
     opt_participantIdentity := self_id self;
     opt_bypassTranscoding   := None;
     opt_video               := None;
     opt_audio               := None |}.

Definition withBypass (o : CreateIngressOptions) : CreateIngressOptions :=
  {| opt_name                := opt_name o;
     opt_roomName            := opt_roomName o;
     opt_participantName     := opt_participantName o;
     opt_participantIdentity := opt_participantIdentity o;
     opt_bypassTranscoding   := Some true;
     opt_video               := opt_video o;
     opt_audio               := opt_audio o |}.

Definition withTracks (v : VideoOptions) (a : AudioOptions)
    (o : CreateIngressOptions) : CreateIngressOptions :=
  {| opt_name                := opt_name o;
     opt_roomName            := opt_roomName o;
     opt_participantName     := opt_participantName o;
     opt_participantIdentity := opt_participantIdentity o;
     opt_bypassTranscoding   := opt_bypassTranscoding o;
     opt_video               := Some v;
     opt_audio               := Some a |}.

(** The options object after the [if (ingressType === WHIP_INPUT)]. *)
Definition buildOptions (self : Self) (ingressType : IngressInput)
  : CreateIngressOptions :=
  if IngressInput_eqb ingressType WHIP_INPUT then
    withBypass (baseOptions self)
  else
    withTracks (mkVideo CAMERA H264_1080P_30FPS_3_LAYERS)
               (mkAudio MICROPHONE OPUS_STEREO_96KBPS)
               (baseOptions self).

Definition noResponseError : JsError :=
  newError "LiveKit failed to create ingress - no response received".

Definition missingCredentialsError : JsError :=
  newError "LiveKit created ingress but did not provide URL or stream key".

Definition streamNotFoundError : JsError :=
  newError "Stream not found in database. Please contact support.".

Definition credentialsData (ingress : IngressInfo) : StreamData :=
  {| data_ingressId := Some (ingressId ingress);
     data_serverUrl := Some (url ingress);
     data_streamKey := Some (streamKey ingress);
     data_isLive    := None |}.

Definition keysPath (self : Self) : string :=
  "/u/" ++ self_username self ++ "/keys".

(** The body of the [try] block. *)
Definition createIngressTry (ingressType : IngressInput)
  : M (World P) IngressInfo :=
  self <- getSelf ;;
  resetIngresses (self_id self) ;;
  response <- providerCreateIngress ingressType (buildOptions self ingressType) ;;
  match response with
  | None => throw noResponseError
  | Some ingress =>
      if negb (truthy (url ingress)) || negb (truthy (streamKey ingress)) then
        throw missingCredentialsError
      else
        db_stream_update (WhereUserId (self_id self)) (credentialsData ingress) ;;
        revalidatePath (keysPath self) ;;
        ret ingress
  end.

(** The [catch (error)] block. *)
Definition createIngressCatch (error : JsError) : M (World P) IngressInfo :=
  if includes (message error) "LiveKit" then throw error
  else if optEqb (code error) "P2025" then throw streamNotFoundError
  else throw (newError (if truthy (message error) then message error
                        else "Failed to create stream ingress")).

Definition createIngress (ingressType : IngressInput)
  : M (World P) IngressInfo :=
  tryCatch (createIngressTry ingressType) createIngressCatch.

(* =================================================================== *)
(** ** src/app/api/webhooks/livekit/route.ts: [POST] *)
(* =================================================================== *)

(** [receiver.receive(body, authorization)]: verifies the signature and
    parses the body, or throws. *)
Variable receive : string -> string -> Outcome WebhookEvent.

Definition receiveEvent (b a : string) : M (World P) WebhookEvent :=
  fun w => (receive b a, w).

Definition liveData (flag : bool) : StreamData :=
  {| data_ingressId := None;
     data_serverUrl := None;
     data_streamKey := None;
     data_isLive    := Some flag |}.

Definition eventIngressId (e : WebhookEvent) : option string :=
  option_map ingressId (ingressInfo e).

(** One [if (event.event === kind) { await db.stream.update(...) }]. *)
Definition onEvent (kind : string) (flag : bool) (e : WebhookEvent)
  : M (World P) unit :=
  if String.eqb (event e) kind then
    db_stream_update (WhereIngressId (eventIngressId e)) (liveData flag) ;;
    ret tt
  else ret tt.

Definition POST_try (req : Request) : M (World P) Response :=
  match authorization req with
  | Some a =>
      if truthy a then
        e <- receiveEvent (body req) a ;;
        onEvent "ingress_started" true e ;;
        onEvent "ingress_ended" false e ;;
        ret (mkResponse "OK" 200)
      else ret (mkResponse "No authorization header" 400)
  | None => ret (mkResponse "No authorization header" 400)
  end.

Definition POST (req : Request) : M (World P) Response :=
  tryCatch (POST_try req)
           (fun _ => ret (mkResponse "Internal Server Error" 500)).

End Effects.

(* ===================================================================== *)
(** ** A reference provider *)
(* ===================================================================== *)

(** An in-memory LiveKit project, used to run the code on concrete inputs
    and to state what provisioning leaves behind on a provider that does
    what its API says.

    - [faults] schedules failures: every remote call consumes the head of
      the list and throws when it is [true];
    - [scoped] tells whether listings honour their filter; when it is
      [false] a listing returns every resource of the project, which is the
      upstream listing bug the local safety check defends against;
    - [supply] holds the (ingress id, url, stream key) triples the project
      hands out on the next creations; when it is exhausted the creation
      call answers without an ingress. *)
Module LiveKitSim.

Record Project : Type := mkProject {
  ingresses : list IngressInfo;
  rooms     : list Room;
  faults    : list bool;
  scoped    : bool;
  supply    : list (string * string * string)
}.

Definition serviceError : JsError := newError "service unavailable".

(** Consume one entry of the failure schedule. *)
Definition tick (p : Project) : bool * Project :=
  match faults p with
  | [] => (false, p)
  | b :: rest =>
      (b, mkProject (ingresses p) (rooms p) rest (scoped p) (supply p))
  end.

Definition call {A : Type} (op : Project -> A * Project) (p : Project)
  : Outcome A * Project :=
  let (fails, p1) := tick p in
  if fails then (Throw serviceError, p1)
  else let (a, p2) := op p1 in (Ok a, p2).

Definition inNames (names : list string) (n : string) : bool :=
  existsb (String.eqb n) names.

Definition sim_listIngress (room : string) : Project -> Outcome (list IngressInfo) * Project :=
  call (fun p =>
    (if scoped p
     then filter (fun i => String.eqb (roomName i) room) (ingresses p)
     else ingresses p, p)).

Definition sim_deleteIngress (i : string) : Project -> Outcome unit * Project :=
  call (fun p =>
    (tt, mkProject
           (filter (fun x => negb (String.eqb (ingressId x) i)) (ingresses p))
           (rooms p) (faults p) (scoped p) (supply p))).

Definition sim_listRooms (names : list string) : Project -> Outcome (list Room) * Project :=
  call (fun p =>
    (if scoped p
     then filter (fun r => inNames names (name r)) (rooms p)
     else rooms p, p)).

Definition sim_deleteRoom (n : string) : Project -> Outcome unit * Project :=
  call (fun p =>
    (tt, mkProject
           (ingresses p)
           (filter (fun r => negb (String.eqb (name r) n)) (rooms p))
           (faults p) (scoped p) (supply p))).

Definition minted (o : CreateIngressOptions) (c : string * string * string)
  : IngressInfo :=
  let '(i, u, k) := c in
  {| ingressId           := i;
     roomName            := opt_roomName o;
     participantIdentity := opt_participantIdentity o;
     participantName     := opt_participantName o;
     url                 := u;
     streamKey           := k |}.

Definition sim_createIngress (ty : IngressInput) (o : CreateIngressOptions)
  : Project -> Outcome (option IngressInfo) * Project :=
  call (fun p =>
    match supply p with
    | [] => (None, p)
    | c :: rest =>
        (Some (minted o c),
         mkProject (ingresses p ++ [minted o c]) (rooms p) (faults p)
                   (scoped p) rest)
    end).

#[global] Instance simProvider : Provider Project := {
  ingressClient_listIngress   := sim_listIngress;
  ingressClient_deleteIngress := sim_deleteIngress;
  roomService_listRooms       := sim_listRooms;
  roomService_deleteRoom      := sim_deleteRoom;
  ingressClient_createIngress := sim_createIngress
}.

(** The ingresses scoped to an identity: those whose room is the
    identity, which is how [createIngress] names the room and how
    [resetIngresses] lists. *)
Definition ingressesOf (identity : string) (p : Project) : list IngressInfo :=
  filter (fun i => String.eqb (roomName i) identity) (ingresses p).

(** Every ingress of the project carries an id, as every ingress LiveKit
    creates does. *)
Definition identified (p : Project) : bool :=
  forallb (fun i => truthy (ingressId i)) (ingresses p).

End LiveKitSim.

(* ===================================================================== *)
(** ** Concrete scenarios *)
(* ===================================================================== *)

(** The scenario of the specification: identity [U1] owns ingress [I1] and
    room [U1]; resources of [U2], and resources whose names merely start
    with or contain [U1], sit in the same project. *)
Module Scenario.

Import LiveKitSim.

Definition alice : Self := mkSelf "U1" "alice".

Definition I1 : IngressInfo :=
  mkIngress "I1" "U1" "U1" "alice" "rtmp://ingest/live" "key-1".

Definition I1b : IngressInfo :=
  mkIngress "I1b" "U1" "U1" "alice" "rtmp://ingest/live" "key-1b".

(** Owned through the participant identity only. *)
Definition I1c : IngressInfo :=
  mkIngress "I1c" "lobby" "U1" "alice" "rtmp://ingest/live" "key-1c".

(** Another tenant's ingress. *)
Definition I9 : IngressInfo :=
  mkIngress "I9" "U2" "U2" "bob" "rtmp://ingest/live" "key-9".

(** Room and participant extend [U1]: a prefix match would take it. *)
Definition I10 : IngressInfo :=
  mkIngress "I10" "U10" "U10" "carol" "rtmp://ingest/live" "key-10".

(** Room and participant contain [U1]: a substring match would take it. *)
Definition I11 : IngressInfo :=
  mkIngress "I11" "xU1y" "xU1y" "dave" "rtmp://ingest/live" "key-11".

Definition project (fs : list bool) (sc : bool)
    (sup : list (string * string * string)) : Project :=
  {| ingresses := [I9; I1; I10; I1b; I11];
     rooms     := [mkRoom "U2"; mkRoom "U1"; mkRoom "U10"];
     faults    := fs;
     scoped    := sc;
     supply    := sup |}.

Definition streamU1 : StreamRecord :=
  mkStream "s1" "U1" (Some "I1") (Some "rtmp://ingest/live") (Some "key-1")
           true true false false.

Definition streamU2 : StreamRecord :=
  mkStream "s2" "U2" (Some "I9") (Some "rtmp://ingest/live") (Some "key-9")
           false true true false.

Definition table : list StreamRecord := [streamU2; streamU1].

Definition world (fs : list bool) (sc : bool)
    (sup : list (string * string * string)) : World Project :=
  mkWorld (project fs sc sup) table (Some alice) [].

(** A verifier that accepts the header [sig] and reads the body as
    [kind:ingressId]; anything else is rejected with a throw. *)
Definition parseBody (b : string) : option WebhookEvent :=
  match String.index 0 ":" b with
  | Some n =>
      Some (mkEvent (String.substring 0 n b)
              (Some (mkIngress (String.substring (S n) (String.length b - S n) b)
                       EmptyString EmptyString EmptyString
                       EmptyString EmptyString)))
  | None => None
  end.

Definition receive (b a : string) : Outcome WebhookEvent :=
  if String.eqb a "sig" then
    match parseBody b with
    | Some e => Ok e
    | None => Throw (newError "could not parse webhook body")
    end
  else Throw (newError "sha256 checksum of body does not match").

End Scenario.

(* ===================================================================== *)
(** ** Vocabulary of the statements *)
(* ===================================================================== *)

Section Vocabulary.

Context {P : Type} `{Provider P}.

(** The calls made between two worlds of one run. *)
Definition since (w w' : World P) : list Call :=
  skipn (length (log w)) (log w').

(** What the two listing calls of [resetIngresses] answer in world [w];
    nothing when a listing throws. *)
Definition listedIngresses (hostIdentity : string) (w : World P)
  : list IngressInfo :=
  match ingressClient_listIngress hostIdentity (provider w) with
  | (Ok l, _) => l
  | (Throw _, _) => []
  end.

Definition listedRooms (hostIdentity : string) (w : World P) : list Room :=
  match ingressClient_listIngress hostIdentity (provider w) with
  | (Ok _, p1) =>
      match roomService_listRooms [hostIdentity] p1 with
      | (Ok l, _) => l
      | (Throw _, _) => []
      end
  | (Throw _, _) => []
  end.

(** The deletion, if any, that one turn of each loop issues. *)
Definition ingressCall (hostIdentity : string) (i : IngressInfo) : option Call :=
  if truthy (ingressId i) && ownsIngress hostIdentity i
  then Some (DeleteIngress (ingressId i)) else None.

Definition roomCall (hostIdentity : string) (r : Room) : option Call :=
  if String.eqb (name r) hostIdentity then Some (DeleteRoom (name r)) else None.

Definition selected {A : Type} (sel : A -> option Call) (xs : list A)
  : list Call :=
  flat_map (fun x => match sel x with Some c => [c] | None => [] end) xs.

(** The deletions a complete sweep issues, in order. *)
Definition plan (hostIdentity : string) (ingresses : list IngressInfo)
    (rooms : list Room) : list Call :=
  selected (ingressCall hostIdentity) ingresses
  ++ selected (roomCall hostIdentity) rooms.

(** The remote effect of one deletion call. *)
Definition perform (c : Call) (p : P) : Outcome unit * P :=
  match c with
  | DeleteIngress i => ingressClient_deleteIngress i p
  | DeleteRoom n => roomService_deleteRoom n p
  | _ => (Ok tt, p)
  end.

(** The provider state after a sequence of deletion calls. *)
Definition deliver (cs : list Call) (p : P) : P :=
  fold_left (fun q c => snd (perform c q)) cs p.

(** Whether every call of a sequence of deletion calls returns, none
    throwing, when they are made in order from provider state [p]. *)
Fixpoint allReturn (cs : list Call) (p : P) : bool :=
  match cs with
  | [] => true
  | c :: rest =>
      match perform c p with
      | (Ok _, p') => allReturn rest p'
      | (Throw _, _) => false
      end
  end.

(** The calls [resetIngresses] may make. *)
Definition isResetCall (c : Call) : bool :=
  match c with
  | ListIngress _ | DeleteIngress _ | ListRooms _ | DeleteRoom _ => true
  | _ => false
  end.

(** A provider answer to create-ingress that is unusable: no ingress, or
    an ingress without URL or without stream key. *)
Definition incomplete (response : option IngressInfo) : bool :=
  match response with
  | None => true
  | Some i => negb (truthy (url i)) || negb (truthy (streamKey i))
  end.

(** The world after the provider's create-ingress call, made in the world
    [w1] that [resetIngresses] left. *)
Definition afterCreate (ty : IngressInput) (o : CreateIngressOptions)
    (w1 : World P) : World P :=
  mkWorld (snd (ingressClient_createIngress ty o (provider w1)))
          (db w1) (session w1) (log w1 ++ [CreateIngress ty o]).

End Vocabulary.

(** Log entries that are calls to the provider. *)
Definition isRemoteCall (c : Call) : bool :=
  match c with
  | StreamUpdate _ _ | RevalidatePath _ => false
  | _ => true
  end.

(** The row after the webhook's assignment of [isLive]. *)
Definition setLive (flag : bool) (r : StreamRecord) : StreamRecord :=
  {| stream_id           := stream_id r;
     userId              := userId r;
     stream_ingressId    := stream_ingressId r;
     serverUrl           := serverUrl r;
     stream_streamKey    := stream_streamKey r;
     isLive              := flag;
     isChatEnabled       := isChatEnabled r;
     isChatDelayed       := isChatDelayed r;
     isChatFollowersOnly := isChatFollowersOnly r |}.

(** The row after [createIngress] has stored an ingress's credentials. *)
Definition setCredentials (i : IngressInfo) (r : StreamRecord) : StreamRecord :=
  {| stream_id           := stream_id r;
     userId              := userId r;
     stream_ingressId    := Some (ingressId i);
     serverUrl           := Some (url i);
     stream_streamKey    := Some (streamKey i);
     isLive              := isLive r;
     isChatEnabled       := isChatEnabled r;
     isChatDelayed       := isChatDelayed r;
     isChatFollowersOnly := isChatFollowersOnly r |}.

(** The HTTP status a handler run answers with. *)
Definition statusOf {W : Type} (run : Outcome Response * W) : option nat :=
  match fst run with
  | Ok r => Some (status r)
  | Throw _ => None
  end.

(* ===================================================================== *)
(** ** Further code of the ingress and stream modules *)
(* ===================================================================== *)

Section StreamService.

Context {P : Type} `{Provider P}.

(** src/lib/stream-service.ts, [getStreamByUserId]:
    [db.stream.findUnique({ where: { userId } })], [null] when no row. *)
Definition getStreamByUserId (userId_ : string)
  : M (World P) (option StreamRecord) :=
  fun w => (Ok (findStream (WhereUserId userId_) (db w)), w).

Variable receive : string -> string -> Outcome WebhookEvent.

(** The world after the handler has served a sequence of deliveries, one
    request after the other. *)
Fixpoint deliveries (reqs : list Request) (w : World P) : World P :=
  match reqs with
  | [] => w
  | req :: rest => deliveries rest (snd (POST receive req w))
  end.

(** What a delivery asks for: the ingress id and the is-live value of a
    request that carries a header, passes verification and is an
    [ingress_started] or [ingress_ended] event; nothing otherwise. *)
Definition lifecycleOf (req : Request) : option (option string * bool) :=
  match authorization req with
  | Some a =>
      if truthy a then
        match receive (body req) a with
        | Ok e =>
            if String.eqb (event e) "ingress_started"
            then Some (eventIngressId e, true)
            else if String.eqb (event e) "ingress_ended"
                 then Some (eventIngressId e, false)
                 else None
        | Throw _ => None
        end
      else None
  | None => None
  end.

(** The is-live value that the deliveries [reqs] ask for ingress [i], the
    last one winning, starting from [init]. *)
Definition lastFlag (i : string) (reqs : list Request) (init : bool) : bool :=
  fold_left
    (fun b req =>
       match lifecycleOf req with
       | Some (Some j, f) => if String.eqb j i then f else b
       | _ => b
       end)
    reqs init.

End StreamService.

Definition isRevalidatePath (c : Call) : bool :=
  match c with
  | RevalidatePath _ => true
  | _ => false
  end.

(* ===================================================================== *)
(** ** The chat atoms: tip notifications per stream *)
(* ===================================================================== *)

From Stdlib Require Import ZArith Permutation Sorted.

(** The tip-notification atoms of the chat store (jotai).  The family
    [streamTipNotificationsFamily] holds one list per stream id; it is
    modelled as a function from stream ids to lists, the write atoms as
    functions on it.  Timestamps are [Date.now()] values, integers.
    [Array.prototype.sort] is stable, so [sort((a, b) => b.timestamp -
    a.timestamp)] is the stable sort by decreasing timestamp. *)
Module ChatAtoms.

(** [TipNotification], as far as the atoms read it. *)
Record TipNotification : Type := mkTip {
  tip_id     : string;
  timestamp  : Z;
  isLargeTip : bool;
  isMegaTip  : bool;
  giftType   : option string;
  giftName   : option string
}.

Definition TipStore : Type := string -> list TipNotification.

(** [set(streamTipNotificationsFamily(streamId), value)]. *)
Definition setStream (store : TipStore) (streamId : string)
    (value : list TipNotification) : TipStore :=
  fun k => if String.eqb k streamId then value else store k.

(** Insertion into a list sorted by decreasing timestamp, before the
    entries that are not newer. *)
Fixpoint insertNewest (n : TipNotification) (l : list TipNotification)
  : list TipNotification :=
  match l with
  | [] => [n]
  | m :: rest =>
      if (timestamp m <=? timestamp n)%Z then n :: m :: rest
      else m :: insertNewest n rest
  end.

(** [l.sort((a, b) => b.timestamp - a.timestamp)]. *)
Definition sortNewestFirst (l : list TipNotification) : list TipNotification :=
  fold_right insertNewest [] l.

(** [l.slice(0, 3)]. *)
Definition keepThree (l : list TipNotification) : list TipNotification :=
  firstn 3 l.

Definition isLarge (n : TipNotification) : bool :=
  isLargeTip n || isMegaTip n.

Definition isGift (n : TipNotification) : bool :=
  truthyOpt (giftType n) && truthyOpt (giftName n)
  && negb (isLargeTip n) && negb (isMegaTip n).

(** [n.timestamp > now - 30 * 1000]. *)
Definition isFresh (now : Z) (n : TipNotification) : bool :=
  (now - 30 * 1000 <? timestamp n)%Z.

(** [streamLargeTipsFamily(streamId)]. *)
Definition streamLargeTips (store : TipStore) (streamId : string)
  : list TipNotification :=
  filter isLarge (store streamId).

(** [streamGiftTipsFamily(streamId)]. *)
Definition streamGiftTips (store : TipStore) (streamId : string)
  : list TipNotification :=
  filter isGift (store streamId).

(** [addStreamTipNotificationFamily(streamId)], written with
    [notification]. *)
Definition addStreamTipNotification (streamId : string)
    (notification : TipNotification) (store : TipStore) : TipStore :=
  let current := store streamId in
  let updated := keepThree (sortNewestFirst (notification :: current)) in
  setStream store streamId updated.

(** [removeStreamTipNotificationFamily(streamId)], written with
    [notificationId]. *)
Definition removeStreamTipNotification (streamId : string)
    (notificationId : string) (store : TipStore) : TipStore :=
  let current := store streamId in
  let filtered :=
    filter (fun n => negb (String.eqb (tip_id n) notificationId)) current in
  setStream store streamId filtered.

(** [clearOldStreamTipNotificationsFamily(streamId)], written at time
    [now]. *)
Definition clearOldStreamTipNotifications (streamId : string) (now : Z)
    (store : TipStore) : TipStore :=
  let current := store streamId in
  let filtered := filter (isFresh now) current in
  if negb (Nat.eqb (length filtered) (length current)) then
    setStream store streamId (keepThree (sortNewestFirst filtered))
  else store.

(** Sorted by decreasing timestamp. *)
Definition newestFirst (l : list TipNotification) : Prop :=
  StronglySorted (fun a b => (timestamp b <= timestamp a)%Z) l.

End ChatAtoms.

(** Notifications to run the atoms on. *)
Module ChatScenario.

Import ChatAtoms.

Definition plain (id : string) (ts : Z) : TipNotification :=
  mkTip id ts false false None None.

Definition gift (id : string) (ts : Z) : TipNotification :=
  mkTip id ts false false (Some "rose") (Some "Rose").

Definition largeGift (id : string) (ts : Z) : TipNotification :=
  mkTip id ts true false (Some "rocket") (Some "Rocket").

Definition mega (id : string) (ts : Z) : TipNotification :=
  mkTip id ts false true None None.

(** Stream [s1] holds three notifications, newest first; every other
    stream holds none. *)
Definition store : TipStore :=
  setStream (fun _ => []) "s1"
    [largeGift "t3" 3000%Z; gift "t2" 2000%Z; plain "t1" 1000%Z].

(** Stream [s2] holds two. *)
Definition store2 : TipStore :=
  setStream store "s2" [mega "u2" 50000%Z; gift "u1" 1000%Z].

(** Stream [s3] holds five, in no order: at time 60000 the third has
    expired and the other four are fresh. *)
Definition store3 : TipStore :=
  setStream store2 "s3"
    [plain "v1" 41000%Z; gift "v2" 45000%Z; plain "v3" 1000%Z;
     mega "v4" 43000%Z; plain "v5" 44000%Z].

End ChatScenario.

(* ===================================================================== *)
(** ** src/actions/checkUser.ts *)
(* ===================================================================== *)

Module CheckUser.

(** The user [getUserById] resolves to, as far as [checkOrCreateUser]
    reads it; [username] may be absent. *)
Record DbUser : Type := mkDbUser {
  dbuser_id       : string;
  dbuser_username : option string
}.

(** [CheckUserResult]. *)
Record CheckUserResult : Type := mkResult {
  user          : option (string * option string);
  needsUsername : bool
}.

(** [checkOrCreateUser(id)], over the user service's [getUserById]. *)
Definition checkOrCreateUser (getUserById : string -> Outcome DbUser)
    (id : string) : Outcome CheckUserResult :=
  match getUserById id with
  | Ok me =>
      Ok {| user := Some (dbuser_id me, dbuser_username me);
            needsUsername := negb (truthyOpt (dbuser_username me)) |}
  | Throw err =>
      if String.eqb (message err) "User not found"
         || String.eqb (message err) "No authentication cookie found"
      then Ok {| user := None; needsUsername := true |}
      else Throw err
  end.

End CheckUser.

(* ===================================================================== *)
(** ** src/app/api/user/me/route.ts and the [useSelf] hook *)
(* ===================================================================== *)

(** The two handlers of [/api/user/me] run against the Civic session and
    the Prisma [user] table.  A row is modelled with the scalar columns of
    the client's [User] type; the relations that [GET] includes
    ([interests], [stream], [_count]) travel with the row unread and are
    left out. *)
Module UserApi.

Record CivicUser : Type := mkCivic {
  civic_id : option string;
  picture  : option string
}.

Record UserRecord : Type := mkUser {
  user_id                : string;
  username               : string;
  imageUrl               : string;
  externalUserId         : string;
  bio                    : option string;
  solanaWallet           : option string;
  platformWallet         : option string;
  isSolanaPlatformWallet : bool
}.

(** A database call, for the log. *)
Inductive UserQuery : Type :=
  | FindUnique (externalUserId_ : string)
  | UpdateWallet (externalUserId_ : string) (solanaWallet_ : string).

(** What the handlers observe or change: the table, whether the database
    rejects calls (and with what), what [getUser()] answers, and the
    database calls made so far. *)
Record Accounts : Type := mkAccounts {
  users    : list UserRecord;
  dbDown   : option JsError;
  civic    : Outcome (option CivicUser);
  queries  : list UserQuery
}.

(** The JSON bodies the handlers answer with. *)
Inductive ApiBody : Type :=
  | ErrorBody (error : string)
  | NewUserBody (externalUserId_ imageUrl_ : string)
  | UserBody (user : UserRecord) (needsPlatformWallet : bool)
  | WalletUpdatedBody (id username_ : string) (solanaWallet_ : option string).

Record ApiResponse : Type := mkApiResponse {
  api_body   : ApiBody;
  api_status : nat
}.

(** [NextResponse.json(body)] answers 200. *)
Definition json (b : ApiBody) : ApiResponse := mkApiResponse b 200.

Definition defaultImage : string := "https://i.postimg.cc/wxGCZ9Qy/Frame-12.png".

(** [a || b] on an optional string. *)
Definition orDefault (a : option string) (b : string) : string :=
  match a with
  | Some s => if truthy s then s else b
  | None => b
  end.

(** [self?.id], when it is truthy. *)
Definition civicId (self : option CivicUser) : option string :=
  match self with
  | Some u => if truthyOpt (civic_id u) then civic_id u else None
  | None => None
  end.

Definition logQuery (q : UserQuery) (w : Accounts) : Accounts :=
  mkAccounts (users w) (dbDown w) (civic w) (queries w ++ [q]).

(** [db.user.findUnique({ where: { externalUserId } })]. *)
Definition db_user_findUnique (ext : string) : M Accounts (option UserRecord) :=
  fun w =>
    let w1 := logQuery (FindUnique ext) w in
    match dbDown w with
    | Some err => (Throw err, w1)
    | None => (Ok (find (fun u => String.eqb (externalUserId u) ext) (users w)), w1)
    end.

Definition withWallet (wallet : string) (u : UserRecord) : UserRecord :=
  {| user_id                := user_id u;
     username               := username u;
     imageUrl               := imageUrl u;
     externalUserId         := externalUserId u;
     bio                    := bio u;
     solanaWallet           := Some wallet;
     platformWallet         := platformWallet u;
     isSolanaPlatformWallet := isSolanaPlatformWallet u |}.

Fixpoint updateWallet (ext wallet : string) (table : list UserRecord)
  : option (UserRecord * list UserRecord) :=
  match table with
  | [] => None
  | u :: rest =>
      if String.eqb (externalUserId u) ext
      then Some (withWallet wallet u, withWallet wallet u :: rest)
      else match updateWallet ext wallet rest with
           | Some (u', rest') => Some (u', u :: rest')
           | None => None
           end
  end.

(** [db.user.update({ where: { externalUserId }, data: { solanaWallet } })]. *)
Definition db_user_update (ext wallet : string) : M Accounts UserRecord :=
  fun w =>
    let w1 := logQuery (UpdateWallet ext wallet) w in
    match dbDown w with
    | Some err => (Throw err, w1)
    | None =>
        match updateWallet ext wallet (users w) with
        | Some (u, table') =>
            (Ok u, mkAccounts table' (dbDown w1) (civic w1) (queries w1))
        | None => (Throw prismaRecordNotFound, w1)
        end
    end.

(** [GET]. *)
Definition GET_try : M Accounts ApiResponse :=
  fun w =>
    match civic w with
    | Throw _ =>
        (Ok (mkApiResponse (ErrorBody "Authentication failed") 401), w)
    | Ok self =>
        match civicId self with
        | None => (Ok (mkApiResponse (ErrorBody "Unauthorized") 401), w)
        | Some id =>
            (found <- db_user_findUnique id ;;
             match found with
             | None =>
                 ret (mkApiResponse
                        (NewUserBody id
                           (orDefault (match self with
                                       | Some u => picture u
                                       | None => None
                                       end) defaultImage))
                        202)
             | Some u =>
                 if negb (isSolanaPlatformWallet u)
                 then ret (json (UserBody u true))
                 else ret (json (UserBody u false))
             end) w
        end
    end.

Definition GET : M Accounts ApiResponse :=
  tryCatch GET_try
           (fun _ => ret (mkApiResponse (ErrorBody "Failed to fetch user") 500)).

(** JSON values, as far as the schema looks into them.  A value that is
    not an object: its type, and its text when it is a string. *)
Inductive JsonAtom : Type :=
  | ANull
  | ABool (b : bool)
  | ANum (n : Z)
  | AStr (s : string)
  | AArr.

(** The value of a field: not an object, or some object. *)
Inductive JsonValue : Type :=
  | VAtom (a : JsonAtom)
  | VObj.

(** The parsed request body: an object with its fields, or not an
    object. *)
Inductive Json : Type :=
  | JObj (fields : list (string * JsonValue))
  | JAtom (a : JsonAtom).

(** The type name zod reports for a value. *)
Definition atomTypeName (a : JsonAtom) : string :=
  match a with
  | ANull => "null"
  | ABool _ => "boolean"
  | ANum _ => "number"
  | AStr _ => "string"
  | AArr => "array"
  end.

Definition typeName (v : JsonValue) : string :=
  match v with
  | VAtom a => atomTypeName a
  | VObj => "object"
  end.

Fixpoint field (key : string) (fields : list (string * JsonValue))
  : option JsonValue :=
  match fields with
  | [] => None
  | (k, v) :: rest => if String.eqb k key then Some v else field key rest
  end.

(** [updateWalletSchema.parse(body)]: the validated wallet, or the message
    of the first issue of the [ZodError]. *)
Definition parseWallet (j : Json) : string + string :=
  match j with
  | JObj fields =>
      match field "solanaWallet" fields with
      | None => inl "Required"
      | Some (VAtom (AStr s)) =>
          if Nat.leb 1 (String.length s) then inr s
          else inl "Solana wallet address is required"
      | Some v => inl (String.append "Expected string, received " (typeName v))
      end
  | JAtom a => inl (String.append "Expected object, received " (atomTypeName a))
  end.

(** [PATCH], on the outcome of [request.json()]. *)
Definition PATCH_try (body_ : Outcome Json) : M Accounts ApiResponse :=
  fun w =>
    match civic w with
    | Throw _ =>
        (Ok (mkApiResponse (ErrorBody "Authentication failed") 401), w)
    | Ok self =>
        match civicId self with
        | None => (Ok (mkApiResponse (ErrorBody "Unauthorized") 401), w)
        | Some id =>
            match body_ with
            | Throw err => (Throw err, w)
            | Ok j =>
                match parseWallet j with
                | inl msg =>
                    (Ok (mkApiResponse
                           (ErrorBody (if truthy msg then msg
                                       else "Invalid input data")) 400), w)
                | inr wallet =>
                    (updated <- db_user_update id wallet ;;
                     ret (json (WalletUpdatedBody (user_id updated)
                                  (username updated) (solanaWallet updated)))) w
                end
            end
        end
    end.

Definition PATCH (body_ : Outcome Json) : M Accounts ApiResponse :=
  tryCatch (PATCH_try body_)
           (fun _ => ret (mkApiResponse (ErrorBody "Failed to update user") 500)).

(** [response.ok]. *)
Definition ok (r : ApiResponse) : bool :=
  Nat.leb 200 (api_status r) && Nat.leb (api_status r) 299.

(** The [queryFn] of [useSelf], on the response [fetch] resolved to. *)
Definition useSelfQuery (response : ApiResponse) : Outcome ApiBody :=
  if Nat.eqb (api_status response) 202 then Ok (api_body response)
  else if negb (ok response) then Throw (newError "Failed to fetch user")
  else Ok (api_body response).

(** A table and sessions to run the handlers on. *)
Definition alice : UserRecord :=
  mkUser "u-1" "alice" "https://img/alice.png" "civic-1" None None None false.

Definition bob : UserRecord :=
  mkUser "u-2" "bob" "https://img/bob.png" "civic-2" (Some "hi")
         (Some "So1anaBob") (Some "P1atform") true.

Definition accounts (session_ : Outcome (option CivicUser))
    (down : option JsError) : Accounts :=
  mkAccounts [alice; bob] down session_ [].

End UserApi.

(* ===================================================================== *)
(** ** src/actions/user.ts: the username rule of the user schemas *)
(* ===================================================================== *)

From Stdlib Require Import Ascii.

(** [createUserSchema] and [updateUserSchema] accept a username by the
    same rule: [min(3)], [max(20)] and the pattern [/^[a-zA-Z0-9_]+$/].
    [createUser] stores [validatedData.username.toLowerCase()].  Strings
    are sequences of bytes here; the rule
    accepts ASCII strings only, and on those [toLowerCase] is the
    function below. *)
Module UserSchemas.

Definition inRange (lo hi : nat) (c : ascii) : bool :=
  Nat.leb lo (nat_of_ascii c) && Nat.leb (nat_of_ascii c) hi.

(** The character class [[a-zA-Z0-9_]]. *)
Definition isWordChar (c : ascii) : bool :=
  inRange 97 122 c || inRange 65 90 c || inRange 48 57 c
  || Nat.eqb (nat_of_ascii c) 95.

(** [/^[a-zA-Z0-9_]+$/.test(s)]. *)
Definition matchesPattern (s : string) : bool :=
  truthy s && forallb isWordChar (list_ascii_of_string s).

(** The username rule: the three checks of the schema all pass. *)
Definition usernameRule (s : string) : bool :=
  Nat.leb 3 (String.length s) && Nat.leb (String.length s) 20
  && matchesPattern s.

Definition lowerChar (c : ascii) : ascii :=
  if inRange 65 90 c then ascii_of_nat (nat_of_ascii c + 32) else c.

(** [s.toLowerCase()], on ASCII. *)
Fixpoint toLowerCase (s : string) : string :=
  match s with
  | EmptyString => EmptyString
  | String c rest => String (lowerChar c) (toLowerCase rest)
  end.

(** The username [createUser] stores. *)
Definition storedUsername (validated : string) : string :=
  toLowerCase validated.

End UserSchemas.

Unset Implicit Arguments.

(* ===================================================================== *)
(** * Properties *)
(* ===================================================================== *)

(** ** The scenario, executed *)

(** Reconciling [U1] on a project whose listings leak every tenant's
    resources: exactly the two ingresses and the room of [U1] are deleted. *)
Example scenario_reset :
  let w := Scenario.world [] false [] in
  let run := resetIngresses "U1" w in
  fst run = Ok tt /\
  since w (snd run)
    = [ListIngress "U1"; ListRooms ["U1"];
       DeleteIngress "I1"; DeleteIngress "I1b"; DeleteRoom "U1"] /\
  LiveKitSim.ingresses (provider (snd run))
    = [Scenario.I9; Scenario.I10; Scenario.I11] /\
  LiveKitSim.rooms (provider (snd run)) = [mkRoom "U2"; mkRoom "U10"].
Proof. vm_compute. auto. Qed.

(** Provisioning a push-encoder ingress for [U1]: the old ingresses and
    room go, ingress [I2] is created in room [U1], the row of [U1] takes
    its credentials and keeps its is-live flag, the row of [U2] is as it
    was. *)
Example scenario_provision :
  let w := Scenario.world [] false [("I2", "rtmp://ingest/live", "key-2")] in
  let I2 := mkIngress "I2" "U1" "U1" "alice" "rtmp://ingest/live" "key-2" in
  let run := createIngress RTMP_INPUT w in
  fst run = Ok I2 /\
  LiveKitSim.ingresses (provider (snd run))
    = [Scenario.I9; Scenario.I10; Scenario.I11; I2] /\
  db (snd run) = [Scenario.streamU2; setCredentials I2 Scenario.streamU1] /\
  last (log (snd run)) (ListIngress EmptyString) = RevalidatePath "/u/alice/keys".
Proof. vm_compute. auto. Qed.

(** A caller without a row in the [stream] table: the ingress is created
    remotely, and the caller is told that the stream was not found. *)
Example scenario_no_row :
  let w := mkWorld (Scenario.project [] true [("I3", "rtmp://ingest/live", "key-3")])
                   Scenario.table (Some (mkSelf "U3" "erin")) [] in
  let run := createIngress WHIP_INPUT w in
  fst run = Throw streamNotFoundError /\
  db (snd run) = db w /\
  LiveKitSim.ingressesOf "U3" (provider (snd run))
    = [mkIngress "I3" "U3" "U3" "erin" "rtmp://ingest/live" "key-3"].
Proof. vm_compute. auto. Qed.

(** The webhook on the scenario's table. *)
Example scenario_webhook :
  let w := Scenario.world [] true [] in
  let post b a := POST Scenario.receive (mkRequest b a) w in
  statusOf (post "ingress_started:I9" (Some "sig")) = Some 200 /\
  db (snd (post "ingress_started:I9" (Some "sig")))
    = [setLive true Scenario.streamU2; Scenario.streamU1] /\
  statusOf (post "ingress_ended:I1" (Some "sig")) = Some 200 /\
  db (snd (post "ingress_ended:I1" (Some "sig")))
    = [Scenario.streamU2; setLive false Scenario.streamU1] /\
  statusOf (post "room_started:I1" (Some "sig")) = Some 200 /\
  db (snd (post "room_started:I1" (Some "sig"))) = db w /\
  statusOf (post "ingress_started:I1" None) = Some 400 /\
  statusOf (post "ingress_started:I1" (Some EmptyString)) = Some 400 /\
  statusOf (post "ingress_started:I1" (Some "forged")) = Some 500.
Proof. vm_compute. repeat split. Qed.

(** ** The stream table *)

Lemma updateRow_split wh d table r' table' :
  updateRow wh d table = Some (r', table') ->
  exists before r after,
    table = before ++ r :: after /\
    table' = before ++ applyData d r :: after /\
    r' = applyData d r /\
    matchesWhere wh r = true /\
    forallb (fun x => negb (matchesWhere wh x)) before = true.
Proof.
  revert r' table'.
  induction table as [|x rest IH]; intros r' table' Hu; simpl in Hu.
  - discriminate.
  - destruct (matchesWhere wh x) eqn:Hx.
    + inversion Hu; subst.
      exists [], x, rest. simpl. auto.
    + destruct (updateRow wh d rest) as [[r1 rest1]|] eqn:Hr; [|discriminate].
      inversion Hu; subst.
      destruct (IH _ _ eq_refl) as (b & r & a & -> & -> & -> & Hm & Hb).
      exists (x :: b), r, a. simpl. rewrite Hx. simpl. auto.
Qed.

Lemma updateRow_find wh d table :
  updateRow wh d table =
  match findStream wh table with
  | Some r => match updateRow wh d table with
              | Some (_, t) => Some (applyData d r, t)
              | None => None
              end
  | None => None
  end.
Proof.
  unfold findStream.
  induction table as [|x rest IH]; simpl; [reflexivity|].
  destruct (matchesWhere wh x); [reflexivity|].
  rewrite IH at 1.
  destruct (find (matchesWhere wh) rest); [|reflexivity].
  destruct (updateRow wh d rest) as [[? ?]|]; reflexivity.
Qed.

Lemma updateRow_none wh d table :
  findStream wh table = None -> updateRow wh d table = None.
Proof.
  intros Hf. rewrite updateRow_find, Hf. reflexivity.
Qed.

Lemma updateRow_some wh d table r :
  findStream wh table = Some r ->
  exists table', updateRow wh d table = Some (applyData d r, table').
Proof.
  unfold findStream.
  induction table as [|x rest IH]; simpl; [discriminate|].
  destruct (matchesWhere wh x) eqn:Hx.
  - intros [= ->]. eauto.
  - intros Hf. destruct (IH Hf) as [t' ->]. eauto.
Qed.

Lemma find_split (wh : StreamWhere) before r after :
  matchesWhere wh r = true ->
  forallb (fun x => negb (matchesWhere wh x)) before = true ->
  findStream wh (before ++ r :: after) = Some r.
Proof.
  intros Hr. unfold findStream.
  induction before as [|x b IH]; simpl.
  - now rewrite Hr.
  - intros Hb. apply andb_true_iff in Hb as [Hx Hb].
    apply negb_true_iff in Hx. rewrite Hx. auto.
Qed.

Lemma applyData_live flag r : applyData (liveData flag) r = setLive flag r.
Proof. reflexivity. Qed.

Lemma applyData_credentials i r :
  applyData (credentialsData i) r = setCredentials i r.
Proof. reflexivity. Qed.

Lemma updateRow_at wh d before r after :
  matchesWhere wh r = true ->
  forallb (fun x => negb (matchesWhere wh x)) before = true ->
  updateRow wh d (before ++ r :: after)
  = Some (applyData d r, before ++ applyData d r :: after).
Proof.
  intros Hr. induction before as [|x b IH]; simpl.
  - now rewrite Hr.
  - intros Hb. apply andb_true_iff in Hb as [Hx Hb].
    apply negb_true_iff in Hx. rewrite Hx, (IH Hb). reflexivity.
Qed.

Lemma matchesWhere_setLive wh flag r :
  matchesWhere wh (setLive flag r) = matchesWhere wh r.
Proof. destruct wh as [u|[i|]]; reflexivity. Qed.

(** Assigning [isLive] twice through the same [where] is assigning the
    second value once. *)
Lemma updateRow_live_twice wh f table r' table' :
  updateRow wh (liveData f) table = Some (r', table') ->
  exists before r after,
    table = before ++ r :: after /\
    r' = setLive f r /\
    table' = before ++ setLive f r :: after /\
    matchesWhere wh r = true /\
    forallb (fun x => negb (matchesWhere wh x)) before = true /\
    findStream wh table = Some r /\
    findStream wh table' = Some (setLive f r) /\
    forall g,
      updateRow wh (liveData g) table'
      = Some (setLive g r, before ++ setLive g r :: after).
Proof.
  intros Hu.
  destruct (updateRow_split _ _ _ _ _ Hu) as (b & r & a & -> & -> & -> & Hm & Hb).
  exists b, r, a. rewrite applyData_live.
  assert (Hm' : matchesWhere wh (setLive f r) = true)
    by now rewrite matchesWhere_setLive.
  repeat split; try assumption.
  - now apply find_split.
  - now apply find_split.
  - intros g.
    now rewrite (updateRow_at wh (liveData g) b (setLive f r) a Hm' Hb).
Qed.

(** ** [resetIngresses] *)

Section ResetProperties.

Context {P : Type} `{Provider P}.

Lemma since_app (w w' : World P) (new : list Call) :
  log w' = log w ++ new -> since w w' = new.
Proof.
  unfold since. intros ->.
  rewrite skipn_app, skipn_all, Nat.sub_diag. reflexivity.
Qed.

Lemma deliver_app (a b : list Call) (p : P) :
  deliver (a ++ b) p = deliver b (deliver a p).
Proof. unfold deliver. apply fold_left_app. Qed.

Lemma deliver_cons (c : Call) (cs : list Call) (p : P) :
  deliver (c :: cs) p = deliver cs (snd (perform c p)).
Proof. reflexivity. Qed.

Lemma allReturn_app (a b : list Call) (p : P) :
  allReturn (a ++ b) p = allReturn a p && allReturn b (deliver a p).
Proof.
  revert p. induction a as [|c a IH]; intros p; [reflexivity|].
  rewrite deliver_cons. cbn [app allReturn].
  destruct (perform c p) as [[[]|e] p']; cbn [snd]; [apply IH | reflexivity].
Qed.

(** A loop whose turns issue at most one deletion each: it issues the
    selected deletions in order and leaves at the first one that throws. *)
Lemma forOf_sweep {A : Type} (sel : A -> option Call)
    (step : A -> M (World P) unit)
    (Hstep : forall x, step x = match sel x with
                                | Some c => remote c (perform c)
                                | None => ret tt
                                end)
    (xs : list A) :
  forall w : World P,
  exists done rest,
    selected sel xs = done ++ rest /\
    snd (forOf xs step w)
      = mkWorld (deliver done (provider w)) (db w) (session w) (log w ++ done) /\
    match fst (forOf xs step w) with
    | Ok _ => rest = [] /\ allReturn done (provider w) = true
    | Throw e =>
        exists d c, done = d ++ [c] /\
                    allReturn d (provider w) = true /\
                    fst (perform c (deliver d (provider w))) = Throw e
    end.
Proof.
  induction xs as [|x xs IH]; intros w; simpl.
  - exists [], []. destruct w; simpl. rewrite app_nil_r. auto.
  - unfold bind. rewrite Hstep. destruct (sel x) as [c|].
    + unfold remote. destruct (perform c (provider w)) as [[[]|e] p'] eqn:Hp.
      * destruct (IH (mkWorld p' (db w) (session w) (log w ++ [c])))
          as (done & rest & Hsel & Hw & Hr).
        simpl in Hw, Hr.
        exists (c :: done), rest. simpl. rewrite Hsel, Hp. simpl.
        split; [reflexivity|]. split.
        -- rewrite Hw, <- app_assoc. reflexivity.
        -- destruct (fst (forOf xs step _)); [assumption|].
           destruct Hr as (d & c' & -> & Hd & Hc').
           exists (c :: d), c'. simpl. rewrite Hp. auto.
      * exists [c], (selected sel xs). simpl. split; [reflexivity|].
        unfold deliver. simpl. rewrite Hp. simpl. split; [reflexivity|].
        exists [], c. simpl. rewrite Hp. auto.
    + unfold ret. simpl. apply IH.
Qed.

Lemma ingressStep_sel (hostIdentity : string) (i : IngressInfo) :
  ingressStep hostIdentity i
  = match ingressCall hostIdentity i with
    | Some c => remote c (perform c)
    | None => ret tt
    end.
Proof.
  unfold ingressStep, ingressCall.
  destruct (truthy (ingressId i)), (ownsIngress hostIdentity i); reflexivity.
Qed.

Lemma roomStep_sel (hostIdentity : string) (r : Room) :
  roomStep hostIdentity r
  = match roomCall hostIdentity r with
    | Some c => remote c (perform c)
    | None => ret tt
    end.
Proof.
  unfold roomStep, roomCall.
  destruct (String.eqb (name r) hostIdentity); reflexivity.
Qed.

(** The run of [resetIngresses] once both listings have answered. *)
Lemma resetIngresses_run (hostIdentity : string) (w : World P)
    (ingresses : list IngressInfo) (p1 : P) (rooms : list Room) (p2 : P) :
  ingressClient_listIngress hostIdentity (provider w) = (Ok ingresses, p1) ->
  roomService_listRooms [hostIdentity] p1 = (Ok rooms, p2) ->
  exists done rest,
    plan hostIdentity ingresses rooms = done ++ rest /\
    snd (resetIngresses hostIdentity w)
      = mkWorld (deliver done p2) (db w) (session w)
          (log w ++ [ListIngress hostIdentity; ListRooms [hostIdentity]] ++ done) /\
    match fst (resetIngresses hostIdentity w) with
    | Ok _ => rest = [] /\ allReturn done p2 = true
    | Throw e =>
        exists d c, done = d ++ [c] /\
                    allReturn d p2 = true /\
                    fst (perform c (deliver d p2)) = Throw e
    end.
Proof.
  intros Hi Hr.
  unfold resetIngresses, bind, listIngress, listRooms, remote.
  rewrite Hi. simpl. rewrite Hr.
  set (w2 := mkWorld p2 (db w) (session w)
               ((log w ++ [ListIngress hostIdentity]) ++ [ListRooms [hostIdentity]])).
  destruct (forOf_sweep (ingressCall hostIdentity) (ingressStep hostIdentity)
              (ingressStep_sel hostIdentity) ingresses w2)
    as (d1 & r1 & Hs1 & Hw1 & Ho1).
  destruct (forOf ingresses (ingressStep hostIdentity) w2) as [[[]|e] w3];
    simpl in Hw1, Ho1; subst w3.
  - destruct Ho1 as [-> Hall1]. rewrite app_nil_r in Hs1.
    set (w3 := mkWorld (deliver d1 p2) (db w) (session w) (log w2 ++ d1)).
    destruct (forOf_sweep (roomCall hostIdentity) (roomStep hostIdentity)
                (roomStep_sel hostIdentity) rooms w3)
      as (d2 & r2 & Hs2 & Hw2 & Ho2).
    exists (d1 ++ d2), r2. unfold plan. rewrite Hs1, Hs2, <- app_assoc.
    match goal with
    | |- context [forOf rooms (roomStep hostIdentity) ?x] => change x with w3
    end.
    split; [reflexivity|]. split.
    + rewrite Hw2. simpl. rewrite deliver_app.
      f_equal. repeat rewrite <- app_assoc. reflexivity.
    + destruct (fst (forOf rooms (roomStep hostIdentity) w3)).
      * destruct Ho2 as [-> Hall2]. simpl in Hall2.
        split; [reflexivity|]. now rewrite allReturn_app, Hall1, Hall2.
      * destruct Ho2 as (d & c & -> & Hd & Hc). simpl in Hd, Hc.
        exists (d1 ++ d), c. rewrite app_assoc, deliver_app, allReturn_app.
        rewrite Hall1, Hd. auto.
  - exists d1, (r1 ++ selected (roomCall hostIdentity) rooms).
    unfold plan. rewrite Hs1, <- app_assoc.
    split; [reflexivity|]. simpl. split.
    + f_equal. repeat rewrite <- app_assoc. reflexivity.
    + assumption.
Qed.

Lemma selected_resetCalls {A : Type} (sel : A -> option Call) (xs : list A) :
  (forall x c, sel x = Some c -> isDeletion c = true) ->
  forallb isDeletion (selected sel xs) = true.
Proof.
  intros Hsel. induction xs as [|x xs IH]; simpl; [reflexivity|].
  destruct (sel x) as [c|] eqn:Hx; simpl; [|assumption].
  rewrite (Hsel _ _ Hx). assumption.
Qed.

Lemma plan_deletions (hostIdentity : string) ingresses rooms :
  forallb isDeletion (plan hostIdentity ingresses rooms) = true.
Proof.
  unfold plan. rewrite forallb_app.
  rewrite !selected_resetCalls; [reflexivity| |].
  - intros r c. unfold roomCall.
    destruct (String.eqb (name r) hostIdentity); [|discriminate].
    now intros [= <-].
  - intros i c. unfold ingressCall.
    destruct (truthy (ingressId i) && ownsIngress hostIdentity i); [|discriminate].
    now intros [= <-].
Qed.

Lemma in_selected {A : Type} (sel : A -> option Call) (xs : list A) (c : Call) :
  In c (selected sel xs) <-> exists x, In x xs /\ sel x = Some c.
Proof.
  unfold selected. rewrite in_flat_map. split.
  - intros (x & Hx & Hc). exists x. split; [assumption|].
    destruct (sel x); simpl in Hc; [|contradiction].
    destruct Hc as [->|[]]. reflexivity.
  - intros (x & Hx & Hc). exists x. split; [assumption|].
    rewrite Hc. simpl. auto.
Qed.

(** Which ingress deletions are planned: those of listed ingresses that
    carry an id and pass the ownership check, by equality of strings. *)
Lemma plan_DeleteIngress (hostIdentity : string) ingresses rooms (i : string) :
  In (DeleteIngress i) (plan hostIdentity ingresses rooms) <->
  exists ing, In ing ingresses /\ ingressId ing = i /\ i <> EmptyString /\
              (roomName ing = hostIdentity \/ participantIdentity ing = hostIdentity).
Proof.
  unfold plan. rewrite in_app_iff, !in_selected. split.
  - intros [(ing & Hin & Hc) | (r & _ & Hc)].
    + unfold ingressCall in Hc.
      destruct (truthy (ingressId ing)) eqn:Ht; simpl in Hc; [|discriminate].
      destruct (ownsIngress hostIdentity ing) eqn:Ho; [|discriminate].
      injection Hc as <-. exists ing. repeat split; try assumption.
      * intros E. rewrite E in Ht. discriminate.
      * unfold ownsIngress in Ho. apply orb_true_iff in Ho.
        rewrite !String.eqb_eq in Ho. assumption.
    + unfold roomCall in Hc.
      destruct (String.eqb (name r) hostIdentity); discriminate.
  - intros (ing & Hin & <- & Hne & Ho). left. exists ing. split; [assumption|].
    unfold ingressCall, ownsIngress.
    destruct (ingressId ing); [contradiction|]. simpl.
    rewrite <- !String.eqb_eq, <- orb_true_iff in Ho. now rewrite Ho.
Qed.

Lemma plan_DeleteRoom (hostIdentity : string) ingresses rooms (n : string) :
  In (DeleteRoom n) (plan hostIdentity ingresses rooms) <->
  n = hostIdentity /\ exists r, In r rooms /\ name r = n.
Proof.
  unfold plan. rewrite in_app_iff, !in_selected. split.
  - intros [(ing & _ & Hc) | (r & Hin & Hc)].
    + unfold ingressCall in Hc.
      destruct (truthy (ingressId ing) && ownsIngress hostIdentity ing);
        discriminate.
    + unfold roomCall in Hc.
      destruct (String.eqb (name r) hostIdentity) eqn:Hn; [|discriminate].
      injection Hc as <-. apply String.eqb_eq in Hn. eauto.
  - intros (-> & r & Hin & Hn). right. exists r. split; [assumption|].
    unfold roomCall. rewrite Hn, String.eqb_refl. reflexivity.
Qed.

(** What any run of [resetIngresses] leaves: the table and the session
    as they were, and a log extended by the two listings (as far as they
    were reached) and by planned deletions only. *)
Lemma resetIngresses_frame (hostIdentity : string) (w : World P) :
  let w' := snd (resetIngresses hostIdentity w) in
  db w' = db w /\ session w' = session w /\
  exists new,
    log w' = log w ++ new /\
    forallb isResetCall new = true /\
    forall c, In c new -> isDeletion c = true ->
      In c (plan hostIdentity (listedIngresses hostIdentity w)
                              (listedRooms hostIdentity w)).
Proof.
  destruct (ingressClient_listIngress hostIdentity (provider w))
    as [[ingresses|e1] p1] eqn:Hi.
  - destruct (roomService_listRooms [hostIdentity] p1) as [[rooms|e2] p2] eqn:Hr.
    + destruct (resetIngresses_run _ _ _ _ _ _ Hi Hr) as (done & rest & Hp & Hw & _).
      simpl. rewrite Hw. simpl. repeat split.
      exists ([ListIngress hostIdentity; ListRooms [hostIdentity]] ++ done).
      split; [reflexivity|]. split.
      * simpl.
        pose proof (plan_deletions hostIdentity ingresses rooms) as Hd.
        rewrite Hp, forallb_app in Hd. apply andb_true_iff in Hd as [Hd _].
        rewrite forallb_forall in *. intros c Hc.
        specialize (Hd c Hc). destruct c; simpl in *; congruence.
      * intros c [<-|[<-|Hc]] Hdel; try discriminate.
        unfold listedIngresses, listedRooms. rewrite Hi, Hr, Hp.
        apply in_or_app. now left.
    + unfold resetIngresses, bind, listIngress, listRooms, remote.
      simpl. rewrite Hi. simpl. rewrite Hr. simpl. repeat split.
      exists [ListIngress hostIdentity; ListRooms [hostIdentity]].
      rewrite <- app_assoc. split; [reflexivity|]. split; [reflexivity|].
      intros c [<-|[<-|[]]]; discriminate.
  - unfold resetIngresses, bind, listIngress, remote.
    simpl. rewrite Hi. simpl. repeat split.
    exists [ListIngress hostIdentity].
    split; [reflexivity|]. split; [reflexivity|].
    intros c [<-|[]]; discriminate.
Qed.

End ResetProperties.


(** C1.  For every identity, every world and every provider, hence for
    every set of resources its listing calls return (decoys included), a
    run of [resetIngresses] issues a [deleteIngress] only for the id of a
    listed ingress whose room name or participant identity is equal, as a
    string, to the identity argument, and a [deleteRoom] only for the
    identity itself.  A listed ingress whose room name and participant
    identity both differ from the identity is therefore never deleted (its
    id being its own), nor is a listed room with another name; a name that
    extends or contains the identity is a different string and gives no
    ownership. *)
Theorem C1_reset_deletes_only_owned
    {P : Type} `{Provider P} (hostIdentity : string) (w : World P) :
  let w' := snd (resetIngresses hostIdentity w) in
  (forall i, In (DeleteIngress i) (since w w') ->
     exists ing, In ing (listedIngresses hostIdentity w) /\
                 ingressId ing = i /\
                 (roomName ing = hostIdentity \/
                  participantIdentity ing = hostIdentity)) /\
  (forall n, In (DeleteRoom n) (since w w') -> n = hostIdentity) /\
  (forall ing, In ing (listedIngresses hostIdentity w) ->
     roomName ing <> hostIdentity ->
     participantIdentity ing <> hostIdentity ->
     (forall other, In other (listedIngresses hostIdentity w) ->
        ingressId other = ingressId ing -> other = ing) ->
     ~ In (DeleteIngress (ingressId ing)) (since w w')) /\
  (forall r, In r (listedRooms hostIdentity w) ->
     name r <> hostIdentity ->
     ~ In (DeleteRoom (name r)) (since w w')).
Proof.
  intros w'.
  destruct (resetIngresses_frame hostIdentity w) as (_ & _ & new & Hlog & _ & Hdel).
  fold w' in Hlog. rewrite (since_app _ _ _ Hlog).
  assert (Hi : forall i, In (DeleteIngress i) new ->
     exists ing, In ing (listedIngresses hostIdentity w) /\
                 ingressId ing = i /\
                 (roomName ing = hostIdentity \/
                  participantIdentity ing = hostIdentity)).
  { intros i Hin. apply Hdel in Hin; [|reflexivity].
    apply plan_DeleteIngress in Hin as (ing & ? & ? & _ & ?). eauto. }
  assert (Hr : forall n, In (DeleteRoom n) new -> n = hostIdentity).
  { intros n Hin. apply Hdel in Hin; [|reflexivity].
    now apply plan_DeleteRoom in Hin as [? _]. }
  repeat split.
  - exact Hi.
  - exact Hr.
  - intros ing Hin Hroom Hpart Huniq Hcall.
    destruct (Hi _ Hcall) as (other & Ho & Hid & Hown).
    rewrite (Huniq _ Ho Hid) in Hown. tauto.
  - intros r _ Hn Hcall. apply Hn. now apply Hr.
Qed.

(** C2 (as amended).  Once both listings have answered, [resetIngresses]
    attempts the planned deletions one at a time, in listing order,
    ingresses before rooms, and leaves at the first deletion that throws:
    the calls attempted are a prefix [done] of the plan; when the run
    returns, the whole plan was attempted and every deletion returned;
    when it throws [e], the deletions before the last attempted one
    returned, the last attempted one is the one that threw [e], no deletion
    after it is attempted, and [e] reaches the caller. *)
Theorem C2_reset_stops_at_first_failure
    {P : Type} `{Provider P} (hostIdentity : string) (w : World P)
    (ingresses : list IngressInfo) (p1 : P) (rooms : list Room) (p2 : P) :
  ingressClient_listIngress hostIdentity (provider w) = (Ok ingresses, p1) ->
  roomService_listRooms [hostIdentity] p1 = (Ok rooms, p2) ->
  let run := resetIngresses hostIdentity w in
  exists done rest,
    plan hostIdentity ingresses rooms = done ++ rest /\
    since w (snd run)
      = [ListIngress hostIdentity; ListRooms [hostIdentity]] ++ done /\
    provider (snd run) = deliver done p2 /\
    match fst run with
    | Ok _ => rest = [] /\ allReturn done p2 = true
    | Throw e =>
        exists d c, done = d ++ [c] /\
                    allReturn d p2 = true /\
                    fst (perform c (deliver d p2)) = Throw e
    end.
Proof.
  intros Hi Hr run.
  destruct (resetIngresses_run _ _ _ _ _ _ Hi Hr) as (done & rest & Hp & Hw & Ho).
  exists done, rest. fold run in Hw, Ho.
  split; [assumption|]. split.
  - apply since_app. rewrite Hw. reflexivity.
  - rewrite Hw. split; [reflexivity | assumption].
Qed.

Lemma C1_witness :
  ~ In (DeleteIngress "I10")
       (since (Scenario.world [] false [])
              (snd (resetIngresses "U1" (Scenario.world [] false [])))).
Proof.
  apply (proj1 (proj2 (proj2
           (C1_reset_deletes_only_owned "U1" (Scenario.world [] false []))))
         Scenario.I10).
  - vm_compute. tauto.
  - simpl. discriminate.
  - simpl. discriminate.
  - intros other Hin Hid. vm_compute in Hin.
    destruct Hin as [<-|[<-|[<-|[<-|[<-|[]]]]]];
      solve [reflexivity | discriminate Hid].
Defined.

(** C2 as the specification states it fails.  In the scenario the first
    deletion, of ingress [I1], throws: ingress [I1b] and room [U1] are
    listed, owned by [U1] and planned, yet neither deletion is attempted;
    the run throws after [deleteIngress("I1")]. *)
Lemma C2_counterexample :
  let w := Scenario.world [false; false; true] false [] in
  let run := resetIngresses "U1" w in
  In Scenario.I1b (listedIngresses "U1" w) /\
  ownsIngress "U1" Scenario.I1b = true /\
  In (mkRoom "U1") (listedRooms "U1" w) /\
  fst run = Throw LiveKitSim.serviceError /\
  since w (snd run)
    = [ListIngress "U1"; ListRooms ["U1"]; DeleteIngress "I1"] /\
  ~ In (DeleteIngress "I1b") (since w (snd run)) /\
  ~ In (DeleteRoom "U1") (since w (snd run)).
Proof.
  vm_compute.
  repeat split; try tauto;
    intros [Hc|[Hc|[Hc|[]]]]; discriminate Hc.
Qed.

Lemma C2_witness :
  let w := Scenario.world [false; false; true] false [] in
  let p1 := snd (ingressClient_listIngress "U1" (provider w)) in
  let p2 := snd (roomService_listRooms ["U1"] p1) in
  let run := resetIngresses "U1" w in
  exists done rest,
    plan "U1" (listedIngresses "U1" w) (listedRooms "U1" w) = done ++ rest /\
    since w (snd run) = [ListIngress "U1"; ListRooms ["U1"]] ++ done /\
    provider (snd run) = deliver done p2 /\
    match fst run with
    | Ok _ => rest = [] /\ allReturn done p2 = true
    | Throw e =>
        exists d c, done = d ++ [c] /\
                    allReturn d p2 = true /\
                    fst (perform c (deliver d p2)) = Throw e
    end.
Proof.
  intros w p1 p2.
  apply (C2_reset_stops_at_first_failure "U1" w
           (listedIngresses "U1" w) p1 (listedRooms "U1" w) p2).
  - reflexivity.
  - reflexivity.
Defined.

(** ** The webhook handler *)

Section WebhookProperties.

Context {P : Type} `{Provider P}.
Variable receive : string -> string -> Outcome WebhookEvent.

Lemma findStream_valid (wh : StreamWhere) (table : list StreamRecord) r :
  findStream wh table = Some r -> whereIsValid wh = true.
Proof.
  destruct wh as [u|[i|]]; try reflexivity.
  unfold findStream. intros Hf. apply find_some in Hf as [_ Hm]. discriminate.
Qed.

Lemma db_stream_update_hit (wh : StreamWhere) (d : StreamData) (w : World P) r :
  findStream wh (db w) = Some r ->
  exists table',
    updateRow wh d (db w) = Some (applyData d r, table') /\
    db_stream_update wh d w
      = (Ok (applyData d r),
         mkWorld (provider w) table' (session w) (log w ++ [StreamUpdate wh d])).
Proof.
  intros Hf. destruct (updateRow_some wh d _ _ Hf) as [t' Hu].
  exists t'. split; [assumption|].
  unfold db_stream_update. rewrite (findStream_valid _ _ _ Hf), Hu. reflexivity.
Qed.

Lemma db_stream_update_miss (wh : StreamWhere) (d : StreamData) (w : World P) :
  findStream wh (db w) = None ->
  exists e, db_stream_update wh d w = (Throw e, record (StreamUpdate wh d) w).
Proof.
  intros Hf. unfold db_stream_update.
  rewrite (updateRow_none wh d _ Hf).
  destruct (whereIsValid wh); eauto.
Qed.

(** The handler on a request that carries a header and passes
    verification. *)
Lemma POST_verified (req : Request) (a : string) (e : WebhookEvent) (w : World P) :
  authorization req = Some a -> truthy a = true ->
  receive (body req) a = Ok e ->
  POST receive req w
  = tryCatch (onEvent "ingress_started" true e ;;
              onEvent "ingress_ended" false e ;;
              ret (mkResponse "OK" 200))
             (fun _ => ret (mkResponse "Internal Server Error" 500)) w.
Proof.
  intros Ha Ht Hr.
  unfold POST, POST_try, tryCatch, bind, receiveEvent.
  rewrite Ha, Ht, Hr. reflexivity.
Qed.

Lemma onEvent_hit (kind : string) (flag : bool) (e : WebhookEvent) :
  event e = kind ->
  onEvent (P := P) kind flag e
  = (db_stream_update (WhereIngressId (eventIngressId e)) (liveData flag) ;;
     ret tt).
Proof. intros <-. unfold onEvent. now rewrite String.eqb_refl. Qed.

Lemma onEvent_skip (kind : string) (flag : bool) (e : WebhookEvent) :
  event e <> kind -> onEvent (P := P) kind flag e = ret tt.
Proof.
  intros Hne. unfold onEvent.
  apply String.eqb_neq in Hne. now rewrite Hne.
Qed.

(** The handler on a verified [ingress_started] or [ingress_ended] event:
    one [update] by ingress id, answered 200 when a row is selected and
    500 when none is. *)
Lemma POST_lifecycle (req : Request) (a : string) (e : WebhookEvent)
    (flag : bool) (w : World P) :
  authorization req = Some a -> truthy a = true ->
  receive (body req) a = Ok e ->
  event e = (if flag then "ingress_started" else "ingress_ended") ->
  let wh := WhereIngressId (eventIngressId e) in
  match findStream wh (db w) with
  | Some r =>
      exists table',
        updateRow wh (liveData flag) (db w) = Some (setLive flag r, table') /\
        POST receive req w
          = (Ok (mkResponse "OK" 200),
             mkWorld (provider w) table' (session w)
                     (log w ++ [StreamUpdate wh (liveData flag)]))
  | None =>
      POST receive req w
        = (Ok (mkResponse "Internal Server Error" 500),
           record (StreamUpdate wh (liveData flag)) w)
  end.
Proof.
  intros Ha Ht Hr He wh.
  rewrite (POST_verified req a e w Ha Ht Hr).
  assert (Hrun : forall k : M (World P) Response,
            tryCatch (onEvent "ingress_started" true e ;;
                      onEvent "ingress_ended" false e ;; k)
                     (fun _ => ret (mkResponse "Internal Server Error" 500)) w
            = tryCatch (db_stream_update wh (liveData flag) ;; k)
                       (fun _ => ret (mkResponse "Internal Server Error" 500)) w).
  { intros k. destruct flag.
    - rewrite (onEvent_hit _ true e He), onEvent_skip
        by (rewrite He; discriminate).
      unfold tryCatch, bind, ret. fold wh.
      destruct (db_stream_update wh (liveData true) w) as [[?|?] ?]; reflexivity.
    - rewrite (onEvent_hit _ false e He), onEvent_skip
        by (rewrite He; discriminate).
      unfold tryCatch, bind, ret. fold wh.
      destruct (db_stream_update wh (liveData false) w) as [[?|?] ?]; reflexivity. }
  rewrite Hrun. unfold tryCatch, bind.
  destruct (findStream wh (db w)) as [r|] eqn:Hf.
  - destruct (db_stream_update_hit wh (liveData flag) w r Hf) as (t' & Hu & ->).
    exists t'. split; [exact Hu | reflexivity].
  - destruct (db_stream_update_miss wh (liveData flag) w Hf) as (err & ->).
    reflexivity.
Qed.

Lemma POST_no_header (req : Request) (w : World P) :
  truthyOpt (authorization req) = false ->
  POST receive req w = (Ok (mkResponse "No authorization header" 400), w).
Proof.
  unfold POST, POST_try, tryCatch, ret.
  destruct (authorization req) as [a|]; simpl; [|reflexivity].
  now intros ->.
Qed.

Lemma POST_rejected (req : Request) (a : string) (err : JsError) (w : World P) :
  authorization req = Some a -> truthy a = true ->
  receive (body req) a = Throw err ->
  POST receive req w = (Ok (mkResponse "Internal Server Error" 500), w).
Proof.
  intros Ha Ht Hr.
  unfold POST, POST_try, tryCatch, bind, receiveEvent, ret.
  now rewrite Ha, Ht, Hr.
Qed.

Lemma POST_other_kind (req : Request) (a : string) (e : WebhookEvent) (w : World P) :
  authorization req = Some a -> truthy a = true ->
  receive (body req) a = Ok e ->
  event e <> "ingress_started" -> event e <> "ingress_ended" ->
  POST receive req w = (Ok (mkResponse "OK" 200), w).
Proof.
  intros Ha Ht Hr Hs He.
  rewrite (POST_verified req a e w Ha Ht Hr).
  rewrite !onEvent_skip by assumption. reflexivity.
Qed.

Lemma POST_lifecycle_twice (req : Request) (a : string) (e : WebhookEvent)
    (flag : bool) (w : World P) :
  authorization req = Some a -> truthy a = true ->
  receive (body req) a = Ok e ->
  event e = (if flag then "ingress_started" else "ingress_ended") ->
  let once := POST receive req w in
  let twice := POST receive req (snd once) in
  fst twice = fst once /\ db (snd twice) = db (snd once).
Proof.
  intros Ha Ht Hr He once twice. subst once twice.
  pose proof (POST_lifecycle req a e flag w Ha Ht Hr He) as H1. simpl in H1.
  destruct (findStream (WhereIngressId (eventIngressId e)) (db w)) as [r|] eqn:Hf.
  - destruct H1 as (t1 & Hu1 & ->). simpl snd.
    destruct (updateRow_live_twice _ flag _ _ _ Hu1)
      as (b & r0 & a0 & _ & Hr0 & -> & _ & _ & _ & Hf1 & Hu2).
    specialize (Hu2 flag).
    match goal with
    | |- context [POST receive req ?x] =>
        pose proof (POST_lifecycle req a e flag x Ha Ht Hr He) as H2
    end.
    simpl in H2. rewrite Hf1 in H2. destruct H2 as (t2 & Hu2' & ->).
    rewrite Hu2 in Hu2'.
    assert (Ht2 : b ++ setLive flag r0 :: a0 = t2) by congruence.
    subst t2. simpl. auto.
  - rewrite H1. simpl snd.
    pose proof (POST_lifecycle req a e flag
                  (record (StreamUpdate (WhereIngressId (eventIngressId e))
                                        (liveData flag)) w)
                  Ha Ht Hr He) as H2.
    simpl in H2. rewrite Hf in H2. rewrite H2. simpl. auto.
Qed.

(** Delivering a request a second time answers as the first delivery did
    and leaves the table as the first delivery left it. *)
Lemma POST_idempotent (req : Request) (w : World P) :
  let once := POST receive req w in
  let twice := POST receive req (snd once) in
  fst twice = fst once /\ db (snd twice) = db (snd once).
Proof.
  destruct (truthyOpt (authorization req)) eqn:Hauth.
  - destruct (authorization req) as [a|] eqn:Ha; [|discriminate].
    simpl in Hauth.
    destruct (receive (body req) a) as [e|err] eqn:Hr.
    + destruct (String.eqb (event e) "ingress_started") eqn:Hs.
      * apply String.eqb_eq in Hs.
        exact (POST_lifecycle_twice req a e true w Ha Hauth Hr Hs).
      * destruct (String.eqb (event e) "ingress_ended") eqn:He.
        -- apply String.eqb_eq in He.
           exact (POST_lifecycle_twice req a e false w Ha Hauth Hr He).
        -- apply String.eqb_neq in Hs, He. cbv zeta.
           rewrite (POST_other_kind req a e w Ha Hauth Hr Hs He). cbn [snd].
           rewrite (POST_other_kind req a e w Ha Hauth Hr Hs He). auto.
    + cbv zeta. rewrite (POST_rejected req a err w Ha Hauth Hr). cbn [snd].
      rewrite (POST_rejected req a err w Ha Hauth Hr). auto.
  - cbv zeta. rewrite (POST_no_header req w Hauth). cbn [snd].
    rewrite (POST_no_header req w Hauth). auto.
Qed.

End WebhookProperties.

(** C7.  A request without an Authorization header is answered 400, and
    the handler leaves the world as it found it: the table is the same and
    the log has no new entry, so no StreamRecord was read or written. *)
Theorem C7_missing_authorization_is_400
    {P : Type} `{Provider P}
    (receive : string -> string -> Outcome WebhookEvent)
    (req : Request) (w : World P) :
  authorization req = None ->
  POST receive req w = (Ok (mkResponse "No authorization header" 400), w) /\
  statusOf (POST receive req w) = Some 400 /\
  db (snd (POST receive req w)) = db w /\
  since w (snd (POST receive req w)) = [].
Proof.
  intros Ha.
  assert (Hrun : POST receive req w
                 = (Ok (mkResponse "No authorization header" 400), w)).
  { apply POST_no_header. now rewrite Ha. }
  rewrite Hrun. repeat split.
  apply since_app. now rewrite app_nil_r.
Qed.

Lemma C7_witness :
  statusOf (POST Scenario.receive (mkRequest "ingress_started:I1" None)
                 (Scenario.world [] true []))
  = Some 400.
Proof.
  apply (C7_missing_authorization_is_400 Scenario.receive
           (mkRequest "ingress_started:I1" None) (Scenario.world [] true [])).
  reflexivity.
Defined.

(** C8.  A request that carries a header but whose body the verifier
    rejects, for a bad signature or a body it cannot parse, is answered
    500, not 400, and the handler leaves the world as it found it. *)
Theorem C8_rejected_body_is_500
    {P : Type} `{Provider P}
    (receive : string -> string -> Outcome WebhookEvent)
    (req : Request) (a : string) (err : JsError) (w : World P) :
  authorization req = Some a -> truthy a = true ->
  receive (body req) a = Throw err ->
  POST receive req w = (Ok (mkResponse "Internal Server Error" 500), w) /\
  statusOf (POST receive req w) = Some 500 /\
  statusOf (POST receive req w) <> Some 400 /\
  db (snd (POST receive req w)) = db w /\
  since w (snd (POST receive req w)) = [].
Proof.
  intros Ha Ht Hr.
  rewrite (POST_rejected receive req a err w Ha Ht Hr).
  repeat split.
  - discriminate.
  - apply since_app. now rewrite app_nil_r.
Qed.

Lemma C8_witness :
  statusOf (POST Scenario.receive (mkRequest "ingress_started:I1" (Some "forged"))
                 (Scenario.world [] true []))
  = Some 500
  /\
  statusOf (POST Scenario.receive (mkRequest "not an event" (Some "sig"))
                 (Scenario.world [] true []))
  = Some 500.
Proof.
  split.
  - apply (C8_rejected_body_is_500 Scenario.receive
             (mkRequest "ingress_started:I1" (Some "forged")) "forged"
             (newError "sha256 checksum of body does not match")
             (Scenario.world [] true []));
      reflexivity.
  - apply (C8_rejected_body_is_500 Scenario.receive
             (mkRequest "not an event" (Some "sig")) "sig"
             (newError "could not parse webhook body")
             (Scenario.world [] true []));
      reflexivity.
Defined.

(** C3 as the specification states it fails.  The event is authenticated
    and well formed, its ingress id [I7] selects no StreamRecord, and the
    handler answers 500: Prisma's [update] throws when no row is selected
    and the handler's [catch] turns every throw into a 500. *)
Lemma C3_counterexample :
  let req := mkRequest "ingress_started:I7" (Some "sig") in
  let w := Scenario.world [] true [] in
  Scenario.receive (body req) "sig"
    = Ok (mkEvent "ingress_started"
            (Some (mkIngress "I7" EmptyString EmptyString EmptyString
                             EmptyString EmptyString))) /\
  findStream (WhereIngressId (Some "I7")) (db w) = None /\
  statusOf (POST Scenario.receive req w) = Some 500 /\
  statusOf (POST Scenario.receive req w) <> Some 200.
Proof.
  vm_compute. repeat split. discriminate.
Qed.

(** C3 (as amended).  For every authenticated, well-formed
    [ingress_started] or [ingress_ended] event whose ingress id selects no
    StreamRecord, the handler attempts the one update, answers 500, and
    changes no StreamRecord. *)
Theorem C3_unknown_ingress_is_500
    {P : Type} `{Provider P}
    (receive : string -> string -> Outcome WebhookEvent)
    (req : Request) (a : string) (e : WebhookEvent) (flag : bool)
    (w : World P) :
  authorization req = Some a -> truthy a = true ->
  receive (body req) a = Ok e ->
  event e = (if flag then "ingress_started" else "ingress_ended") ->
  findStream (WhereIngressId (eventIngressId e)) (db w) = None ->
  statusOf (POST receive req w) = Some 500 /\
  db (snd (POST receive req w)) = db w /\
  since w (snd (POST receive req w))
    = [StreamUpdate (WhereIngressId (eventIngressId e)) (liveData flag)].
Proof.
  intros Ha Ht Hr He Hf.
  pose proof (POST_lifecycle receive req a e flag w Ha Ht Hr He) as Hrun.
  simpl in Hrun. rewrite Hf in Hrun. rewrite Hrun.
  repeat split. now apply since_app.
Qed.

Lemma C3_witness :
  statusOf (POST Scenario.receive (mkRequest "ingress_ended:I7" (Some "sig"))
                 (Scenario.world [] true []))
  = Some 500.
Proof.
  apply (C3_unknown_ingress_is_500 Scenario.receive
           (mkRequest "ingress_ended:I7" (Some "sig")) "sig"
           (mkEvent "ingress_ended"
              (Some (mkIngress "I7" EmptyString EmptyString EmptyString
                               EmptyString EmptyString)))
           false (Scenario.world [] true []));
    reflexivity.
Defined.

(** C5.  Let a StreamRecord [r] be the one selected by ingress id [i].
    An authenticated [ingress_started] event for [i] is answered 200 and
    replaces [r], in place, by [r] with is-live set to [true]; an
    [ingress_ended] event for [i] delivered next is answered 200 and leaves
    [r] with is-live set to [false] in that place; delivering the
    [ingress_started] event a second time is answered 200 and leaves the
    table as the first delivery left it, is-live still [true].  No other
    row and no other column changes.  More generally, for every request,
    handling it twice leaves the table that handling it once leaves. *)
Theorem C5_webhook_is_plain_assignment
    {P : Type} `{Provider P}
    (receive : string -> string -> Outcome WebhookEvent)
    (started ended : Request) (a1 a2 : string) (e1 e2 : WebhookEvent)
    (i : string) (r : StreamRecord) (w : World P) :
  authorization started = Some a1 -> truthy a1 = true ->
  receive (body started) a1 = Ok e1 ->
  event e1 = "ingress_started" -> eventIngressId e1 = Some i ->
  authorization ended = Some a2 -> truthy a2 = true ->
  receive (body ended) a2 = Ok e2 ->
  event e2 = "ingress_ended" -> eventIngressId e2 = Some i ->
  findStream (WhereIngressId (Some i)) (db w) = Some r ->
  let s1 := POST receive started w in
  let s2 := POST receive ended (snd s1) in
  let s3 := POST receive started (snd s1) in
  (exists before after,
     db w = before ++ r :: after /\
     db (snd s1) = before ++ setLive true r :: after /\
     db (snd s2) = before ++ setLive false r :: after /\
     db (snd s3) = before ++ setLive true r :: after) /\
  statusOf s1 = Some 200 /\
  statusOf s2 = Some 200 /\
  statusOf s3 = Some 200 /\
  option_map isLive (findStream (WhereIngressId (Some i)) (db (snd s1)))
    = Some true /\
  option_map isLive (findStream (WhereIngressId (Some i)) (db (snd s2)))
    = Some false /\
  option_map isLive (findStream (WhereIngressId (Some i)) (db (snd s3)))
    = Some true /\
  (forall (req : Request) (w0 : World P),
     db (snd (POST receive req (snd (POST receive req w0))))
     = db (snd (POST receive req w0))).
Proof.
  intros Ha1 Ht1 Hr1 He1 Hi1 Ha2 Ht2 Hr2 He2 Hi2 Hf s1 s2 s3.
  subst s1 s2 s3.
  (* first delivery of [ingress_started] *)
  pose proof (POST_lifecycle receive started a1 e1 true w Ha1 Ht1 Hr1 He1) as H1.
  simpl in H1. rewrite Hi1, Hf in H1. destruct H1 as (t1 & Hu1 & ->).
  cbn [snd].
  destruct (updateRow_live_twice _ true _ _ _ Hu1)
    as (b & r0 & a0 & Hw & _ & -> & Hm & Hb & Hf0 & Hf1 & Hu2).
  assert (r0 = r) by congruence. subst r0.
  (* [ingress_ended] after it *)
  match goal with
  | |- context [POST receive ended ?x] =>
      pose proof (POST_lifecycle receive ended a2 e2 false x Ha2 Ht2 Hr2 He2) as H2
  end.
  simpl in H2. rewrite Hi2, Hf1 in H2. destruct H2 as (t2 & Hu2' & ->).
  rewrite (Hu2 false) in Hu2'.
  assert (Ht2' : b ++ setLive false r :: a0 = t2) by congruence. subst t2.
  (* [ingress_started] again *)
  match goal with
  | |- context [POST receive started ?x] =>
      pose proof (POST_lifecycle receive started a1 e1 true x Ha1 Ht1 Hr1 He1) as H3
  end.
  simpl in H3. rewrite Hi1, Hf1 in H3. destruct H3 as (t3 & Hu3' & ->).
  rewrite (Hu2 true) in Hu3'.
  assert (Ht3 : b ++ setLive true r :: a0 = t3) by congruence. subst t3.
  cbn [snd db statusOf fst status].
  repeat split.
  - exists b, a0. auto.
  - now rewrite Hf1.
  - rewrite (find_split (WhereIngressId (Some i)) b (setLive false r) a0);
      [reflexivity| |assumption].
    now rewrite matchesWhere_setLive.
  - now rewrite Hf1.
  - intros req w0. apply (POST_idempotent receive req w0).
Qed.

Lemma C5_witness :
  option_map isLive
    (findStream (WhereIngressId (Some "I9"))
       (db (snd (POST Scenario.receive
                      (mkRequest "ingress_started:I9" (Some "sig"))
                      (Scenario.world [] true [])))))
  = Some true.
Proof.
  destruct (C5_webhook_is_plain_assignment Scenario.receive
              (mkRequest "ingress_started:I9" (Some "sig"))
              (mkRequest "ingress_ended:I9" (Some "sig"))
              "sig" "sig"
              (mkEvent "ingress_started"
                 (Some (mkIngress "I9" EmptyString EmptyString EmptyString
                                  EmptyString EmptyString)))
              (mkEvent "ingress_ended"
                 (Some (mkIngress "I9" EmptyString EmptyString EmptyString
                                  EmptyString EmptyString)))
              "I9" Scenario.streamU2 (Scenario.world [] true []))
    as (_ & _ & _ & _ & Hlive & _); [reflexivity .. | exact Hlive].
Defined.

(** ** [createIngress] *)

Section ProvisionProperties.

Context {P : Type} `{Provider P}.

(** The handler rethrows, possibly another error, and touches nothing. *)
Lemma createIngressCatch_throws (error : JsError) (w : World P) :
  exists error', createIngressCatch error w = (Throw error', w).
Proof.
  unfold createIngressCatch, throw.
  destruct (includes (message error) "LiveKit"); [eauto|].
  destruct (optEqb (code error) "P2025"); eauto.
Qed.

Lemma createIngressCatch_LiveKit (error : JsError) (w : World P) :
  includes (message error) "LiveKit" = true ->
  createIngressCatch error w = (Throw error, w).
Proof. intros Hi. unfold createIngressCatch. now rewrite Hi. Qed.

(** The [try] block, step by step. *)
Lemma createIngressTry_run (ty : IngressInput) (w : World P) :
  match session w with
  | None => createIngressTry ty w = (Throw (newError "Unauthorized"), w)
  | Some self =>
      let r1 := resetIngresses (self_id self) w in
      let o := buildOptions self ty in
      let w2 := afterCreate ty o (snd r1) in
      let wh := WhereUserId (self_id self) in
      match fst r1 with
      | Throw e => createIngressTry ty w = (Throw e, snd r1)
      | Ok _ =>
          match fst (ingressClient_createIngress ty o (provider (snd r1))) with
          | Throw e => createIngressTry ty w = (Throw e, w2)
          | Ok None => createIngressTry ty w = (Throw noResponseError, w2)
          | Ok (Some ing) =>
              if incomplete (Some ing) then
                createIngressTry ty w = (Throw missingCredentialsError, w2)
              else
                match updateRow wh (credentialsData ing) (db w) with
                | None =>
                    createIngressTry ty w
                    = (Throw prismaRecordNotFound,
                       record (StreamUpdate wh (credentialsData ing)) w2)
                | Some (_, table') =>
                    createIngressTry ty w
                    = (Ok ing,
                       mkWorld (provider w2) table' (session w)
                         (log w2 ++ [StreamUpdate wh (credentialsData ing);
                                     RevalidatePath (keysPath self)]))
                end
          end
      end
  end.
Proof.
  unfold createIngressTry, bind, getSelf.
  destruct (session w) as [self|] eqn:Hs; [|reflexivity].
  cbv zeta.
  destruct (resetIngresses_frame (self_id self) w) as (Hdb & Hses & _).
  cbv zeta in Hdb, Hses.
  destruct (resetIngresses (self_id self) w) as [[[]|e1] w1]; cbn [fst snd] in *;
    [|reflexivity].
  unfold providerCreateIngress, remote, afterCreate.
  destruct (ingressClient_createIngress ty (buildOptions self ty) (provider w1))
    as [[[ing|]|e2] p2]; cbn [fst snd]; try reflexivity.
  unfold incomplete.
  destruct (negb (truthy (url ing)) || negb (truthy (streamKey ing)));
    [reflexivity|].
  unfold db_stream_update, record, revalidatePath, ret. cbn.
  rewrite Hdb, Hses.
  destruct (updateRow (WhereUserId (self_id self)) (credentialsData ing) (db w))
    as [[r t']|]; [|reflexivity].
  unfold record. cbn [provider db session log].
  rewrite ?Hs, <- ?app_assoc. reflexivity.
Qed.

Lemma createIngress_world (ty : IngressInput) (w : World P) :
  snd (createIngress ty w) = snd (createIngressTry ty w).
Proof.
  unfold createIngress, tryCatch.
  destruct (createIngressTry ty w) as [[ing|e] w']; [reflexivity|].
  destruct (createIngressCatch_throws e w') as [e' ->]. reflexivity.
Qed.

Lemma createIngress_returns (ty : IngressInput) (w : World P) (ing : IngressInfo) :
  fst (createIngress ty w) = Ok ing <-> fst (createIngressTry ty w) = Ok ing.
Proof.
  unfold createIngress, tryCatch.
  destruct (createIngressTry ty w) as [[ing'|e] w']; [reflexivity|].
  destruct (createIngressCatch_throws e w') as [e' ->]. simpl.
  split; discriminate.
Qed.

(** The calls of a run of [createIngress]: those of [resetIngresses]; then,
    if that returned, the create-ingress call with the options built from
    the session and the input type; then storage and cache calls only. *)
Lemma createIngress_calls (ty : IngressInput) (w : World P) :
  let w' := snd (createIngress ty w) in
  match session w with
  | None => since w w' = []
  | Some self =>
      let r1 := resetIngresses (self_id self) w in
      match fst r1 with
      | Throw _ => since w w' = since w (snd r1)
      | Ok _ =>
          exists post,
            since w w'
              = since w (snd r1)
                ++ CreateIngress ty (buildOptions self ty) :: post /\
            forallb (fun c => negb (isRemoteCall c)) post = true
      end
  end.
Proof.
  cbv zeta. rewrite createIngress_world.
  pose proof (createIngressTry_run ty w) as Hrun.
  destruct (session w) as [self|].
  - cbv zeta in Hrun.
    destruct (resetIngresses_frame (self_id self) w) as (_ & _ & new & Hlog & _).
    cbv zeta in Hlog.
    set (r1 := resetIngresses (self_id self) w) in *.
    rewrite (since_app w (snd r1) new Hlog).
    destruct (fst r1) as [[]|e1].
    + destruct (fst (ingressClient_createIngress ty (buildOptions self ty)
                       (provider (snd r1)))) as [[ing|]|e2];
        [destruct (incomplete (Some ing));
         [|destruct (updateRow _ _ (db w)) as [[r t']|]] | | ];
        rewrite Hrun; eexists; (split; [apply since_app; simpl; rewrite Hlog, <- !app_assoc; reflexivity | reflexivity]).
    + rewrite Hrun. now apply since_app.
  - rewrite Hrun. apply since_app. simpl. now rewrite app_nil_r.
Qed.

(** The create-ingress call, when a run makes it, is made right after a
    [resetIngresses] for the caller's identity that returned, with the
    options built from the session and the requested input type, and no
    call to the provider follows it. *)
Lemma createIngress_create_call (ty : IngressInput) (w : World P)
    (ty' : IngressInput) (o : CreateIngressOptions) :
  In (CreateIngress ty' o) (since w (snd (createIngress ty w))) ->
  exists self post,
    session w = Some self /\
    fst (resetIngresses (self_id self) w) = Ok tt /\
    ty' = ty /\ o = buildOptions self ty /\
    since w (snd (createIngress ty w))
      = since w (snd (resetIngresses (self_id self) w))
        ++ CreateIngress ty (buildOptions self ty) :: post /\
    forallb (fun c => negb (isRemoteCall c)) post = true.
Proof.
  intros Hin.
  pose proof (createIngress_calls ty w) as Hc. cbv zeta in Hc.
  destruct (session w) as [self|]; [|rewrite Hc in Hin; contradiction].
  destruct (resetIngresses_frame (self_id self) w)
    as (_ & _ & new & Hlog & Hnew & _).
  cbv zeta in Hlog.
  rewrite (since_app w _ new Hlog) in *.
  assert (Hnot : ~ In (CreateIngress ty' o) new).
  { intros Hn. rewrite forallb_forall in Hnew.
    specialize (Hnew _ Hn). discriminate. }
  destruct (fst (resetIngresses (self_id self) w)) as [[]|e] eqn:Hr1.
  - destruct Hc as (post & Hs & Hpost).
    exists self, post. rewrite (since_app w _ new Hlog). rewrite Hs in Hin.
    apply in_app_or in Hin as [Hn|[Heq|Hp]].
    + contradiction.
    + injection Heq as <- <-. repeat split; assumption.
    + rewrite forallb_forall in Hpost. specialize (Hpost _ Hp). discriminate.
  - rewrite Hc in Hin. contradiction.
Qed.

Lemma resetCalls_no_update (new : list Call) :
  forallb isResetCall new = true -> filter isStreamUpdate new = [].
Proof.
  induction new as [|c new IH]; simpl; [reflexivity|].
  intros Hn. apply andb_true_iff in Hn as [Hc Hn].
  destruct c; try discriminate; simpl; auto.
Qed.

Lemma filter_nil_existsb {A : Type} (f : A -> bool) (l : list A) :
  filter f l = [] -> existsb f l = false.
Proof.
  induction l as [|x l IH]; simpl; [reflexivity|].
  destruct (f x); [discriminate | exact IH].
Qed.

End ProvisionProperties.


(** C4.  When the provider answers the create-ingress call with no ingress
    at all, or with an ingress that lacks a URL or a stream key,
    [createIngress] throws (the "no response" error in the first case, the
    "did not provide URL or stream key" error in the second), the [stream]
    table is what it was before the call, and the run made no
    [stream.update] call at all: the validation comes before the persist. *)
Theorem C4_incomplete_response_fails
    {P : Type} `{Provider P}
    (ty : IngressInput) (w : World P) (self : Self)
    (response : option IngressInfo) (p2 : P) :
  session w = Some self ->
  fst (resetIngresses (self_id self) w) = Ok tt ->
  ingressClient_createIngress ty (buildOptions self ty)
    (provider (snd (resetIngresses (self_id self) w))) = (Ok response, p2) ->
  incomplete response = true ->
  let run := createIngress ty w in
  fst run = Throw (match response with
                   | None => noResponseError
                   | Some _ => missingCredentialsError
                   end) /\
  db (snd run) = db w /\
  existsb isStreamUpdate (since w (snd run)) = false.
Proof.
  intros Hs Hreset Hcreate Hinc run. subst run.
  pose proof (createIngressTry_run ty w) as Hrun.
  rewrite Hs in Hrun. cbv zeta in Hrun.
  rewrite Hreset, Hcreate in Hrun. cbn [fst] in Hrun.
  destruct (resetIngresses_frame (self_id self) w)
    as (Hdb & _ & new & Hlog & Hnew & _).
  cbv zeta in Hdb, Hlog.
  assert (Htry : exists err,
            err = match response with
                  | None => noResponseError
                  | Some _ => missingCredentialsError
                  end /\
            createIngressTry ty w
            = (Throw err,
               afterCreate ty (buildOptions self ty)
                 (snd (resetIngresses (self_id self) w)))).
  { destruct response as [ing|]; [rewrite Hinc in Hrun|]; eauto. }
  destruct Htry as (err & Herr & Htry).
  assert (Hcatch : createIngress ty w
                   = (Throw err,
                      afterCreate ty (buildOptions self ty)
                        (snd (resetIngresses (self_id self) w)))).
  { unfold createIngress, tryCatch. rewrite Htry.
    apply createIngressCatch_LiveKit.
    rewrite Herr. destruct response; reflexivity. }
  rewrite Hcatch. cbn [fst snd]. rewrite <- Herr.
  split; [reflexivity|]. split; [exact Hdb|].
  apply filter_nil_existsb.
  rewrite (since_app w _ (new ++ [CreateIngress ty (buildOptions self ty)])).
  - rewrite filter_app, (resetCalls_no_update new Hnew). reflexivity.
  - simpl. rewrite Hlog, <- app_assoc. reflexivity.
Qed.

(** C10.  When [createIngress] returns an ingress, the row of the caller
    (the one selected by [userId] equal to the session's id) has been
    replaced, in place, by the same row with [ingressId], [serverUrl] and
    [streamKey] set to the id, URL and key of the returned ingress; its
    other columns, [isLive] among them, and every other row are what they
    were; this is the only [stream.update] of the run; and the returned
    ingress is the very answer of the provider's create-ingress call, with
    a URL and a stream key. *)
Theorem C10_provision_writes_credentials_only
    {P : Type} `{Provider P}
    (ty : IngressInput) (w : World P) (ing : IngressInfo) :
  fst (createIngress ty w) = Ok ing ->
  let w' := snd (createIngress ty w) in
  exists self before r after,
    session w = Some self /\
    db w = before ++ r :: after /\
    userId r = self_id self /\
    (forall x, In x before -> userId x <> self_id self) /\
    db w' = before ++ setCredentials ing r :: after /\
    isLive (setCredentials ing r) = isLive r /\
    filter isStreamUpdate (since w w')
      = [StreamUpdate (WhereUserId (self_id self)) (credentialsData ing)] /\
    fst (ingressClient_createIngress ty (buildOptions self ty)
           (provider (snd (resetIngresses (self_id self) w)))) = Ok (Some ing) /\
    truthy (url ing) = true /\ truthy (streamKey ing) = true.
Proof.
  intros Hok w'. subst w'.
  apply createIngress_returns in Hok.
  rewrite createIngress_world.
  pose proof (createIngressTry_run ty w) as Hrun.
  destruct (session w) as [self|]; [|rewrite Hrun in Hok; discriminate].
  cbv zeta in Hrun.
  destruct (resetIngresses_frame (self_id self) w)
    as (_ & _ & new & Hlog & Hnew & _).
  cbv zeta in Hlog.
  destruct (fst (resetIngresses (self_id self) w)) as [[]|e1];
    [|rewrite Hrun in Hok; discriminate].
  destruct (fst (ingressClient_createIngress ty (buildOptions self ty)
                   (provider (snd (resetIngresses (self_id self) w)))))
    as [[ing'|]|e2] eqn:Hc; try (rewrite Hrun in Hok; discriminate).
  destruct (incomplete (Some ing')) eqn:Hinc;
    [rewrite Hrun in Hok; discriminate|].
  destruct (updateRow (WhereUserId (self_id self)) (credentialsData ing') (db w))
    as [[r' t']|] eqn:Hu; [|rewrite Hrun in Hok; discriminate].
  rewrite Hrun in Hok. cbn [fst] in Hok. injection Hok as ->.
  rewrite Hrun. cbn [snd db].
  destruct (updateRow_split _ _ _ _ _ Hu) as (b & r & a & Hw & -> & _ & Hm & Hb).
  exists self, b, r, a.
  simpl in Hm. apply String.eqb_eq in Hm.
  simpl in Hinc. apply orb_false_iff in Hinc as [Hurl Hkey].
  apply negb_false_iff in Hurl, Hkey.
  repeat split; try assumption; try reflexivity.
  - intros x Hx Hid. rewrite forallb_forall in Hb. specialize (Hb x Hx).
    simpl in Hb. apply negb_true_iff, String.eqb_neq in Hb. contradiction.
  - rewrite (since_app w _
               (new ++ [CreateIngress ty (buildOptions self ty);
                        StreamUpdate (WhereUserId (self_id self)) (credentialsData ing);
                        RevalidatePath (keysPath self)])).
    + rewrite filter_app, (resetCalls_no_update new Hnew). reflexivity.
    + simpl. rewrite Hlog, <- !app_assoc. reflexivity.
Qed.

Lemma C4_witness :
  let w := Scenario.world [] true [("I2", EmptyString, "k2")] in
  fst (createIngress WHIP_INPUT w) = Throw missingCredentialsError /\
  db (snd (createIngress WHIP_INPUT w)) = db w /\
  existsb isStreamUpdate (since w (snd (createIngress WHIP_INPUT w))) = false.
Proof.
  intros w.
  apply (C4_incomplete_response_fails WHIP_INPUT w Scenario.alice
           (Some (mkIngress "I2" "U1" "U1" "alice" EmptyString "k2"))
           (snd (ingressClient_createIngress WHIP_INPUT
                   (buildOptions Scenario.alice WHIP_INPUT)
                   (provider (snd (resetIngresses "U1" w))))));
    reflexivity.
Defined.

Lemma C10_witness :
  let w := Scenario.world [] true [("I2", "rtmp://ingest/live", "key-2")] in
  let ing := mkIngress "I2" "U1" "U1" "alice" "rtmp://ingest/live" "key-2" in
  let w' := snd (createIngress RTMP_INPUT w) in
  exists self before r after,
    session w = Some self /\
    db w = before ++ r :: after /\
    userId r = self_id self /\
    (forall x, In x before -> userId x <> self_id self) /\
    db w' = before ++ setCredentials ing r :: after /\
    isLive (setCredentials ing r) = isLive r /\
    filter isStreamUpdate (since w w')
      = [StreamUpdate (WhereUserId (self_id self)) (credentialsData ing)] /\
    fst (ingressClient_createIngress RTMP_INPUT (buildOptions self RTMP_INPUT)
           (provider (snd (resetIngresses (self_id self) w)))) = Ok (Some ing) /\
    truthy (url ing) = true /\ truthy (streamKey ing) = true.
Proof.
  intros w ing.
  apply (C10_provision_writes_credentials_only RTMP_INPUT w ing).
  reflexivity.
Defined.

(** ** Provisioning against the reference provider *)

Section ProvisionReturns.

Context {P : Type} `{Provider P}.

(** A run of [resetIngresses] that returns. *)
Lemma resetIngresses_ok (hostIdentity : string) (w : World P) :
  fst (resetIngresses hostIdentity w) = Ok tt ->
  exists ingresses p1 rooms p2,
    ingressClient_listIngress hostIdentity (provider w) = (Ok ingresses, p1) /\
    roomService_listRooms [hostIdentity] p1 = (Ok rooms, p2) /\
    snd (resetIngresses hostIdentity w)
      = mkWorld (deliver (plan hostIdentity ingresses rooms) p2) (db w) (session w)
          (log w ++ [ListIngress hostIdentity; ListRooms [hostIdentity]]
                 ++ plan hostIdentity ingresses rooms) /\
    allReturn (plan hostIdentity ingresses rooms) p2 = true.
Proof.
  intros Hok.
  destruct (ingressClient_listIngress hostIdentity (provider w))
    as [[ingresses|e1] p1] eqn:Hi.
  - destruct (roomService_listRooms [hostIdentity] p1) as [[rooms|e2] p2] eqn:Hr.
    + destruct (resetIngresses_run _ _ _ _ _ _ Hi Hr) as (done & rest & Hp & Hw & Ho).
      rewrite Hok in Ho. destruct Ho as [-> Hall].
      rewrite app_nil_r in Hp. subst done.
      exists ingresses, p1, rooms, p2. auto.
    + exfalso. revert Hok.
      unfold resetIngresses, bind, listIngress, listRooms, remote.
      rewrite Hi. simpl. rewrite Hr. discriminate.
  - exfalso. revert Hok.
    unfold resetIngresses, bind, listIngress, remote.
    rewrite Hi. discriminate.
Qed.

(** A run of [createIngress] that returns. *)
Lemma createIngress_ok (ty : IngressInput) (w : World P) (ing : IngressInfo) :
  fst (createIngress ty w) = Ok ing ->
  exists self,
    session w = Some self /\
    fst (resetIngresses (self_id self) w) = Ok tt /\
    fst (ingressClient_createIngress ty (buildOptions self ty)
           (provider (snd (resetIngresses (self_id self) w)))) = Ok (Some ing) /\
    provider (snd (createIngress ty w))
      = snd (ingressClient_createIngress ty (buildOptions self ty)
               (provider (snd (resetIngresses (self_id self) w)))) /\
    In (CreateIngress ty (buildOptions self ty))
       (since w (snd (createIngress ty w))).
Proof.
  intros Hok.
  pose proof (createIngress_calls ty w) as Hcalls. cbv zeta in Hcalls.
  apply createIngress_returns in Hok.
  rewrite createIngress_world in *.
  pose proof (createIngressTry_run ty w) as Hrun.
  destruct (session w) as [self|]; [|rewrite Hrun in Hok; discriminate].
  cbv zeta in Hrun. exists self.
  destruct (fst (resetIngresses (self_id self) w)) as [[]|e1];
    [|rewrite Hrun in Hok; discriminate].
  destruct Hcalls as (post & -> & _).
  destruct (fst (ingressClient_createIngress ty (buildOptions self ty)
                   (provider (snd (resetIngresses (self_id self) w)))))
    as [[ing'|]|e2]; try (rewrite Hrun in Hok; discriminate).
  destruct (incomplete (Some ing'));
    [rewrite Hrun in Hok; discriminate|].
  destruct (updateRow (WhereUserId (self_id self)) (credentialsData ing') (db w))
    as [[r' t']|]; [|rewrite Hrun in Hok; discriminate].
  rewrite Hrun in Hok. cbn [fst] in Hok. injection Hok as ->.
  rewrite Hrun. repeat split.
  apply in_or_app. right. now left.
Qed.

(** The provider after a run that got past [resetIngresses] is the one
    the create-ingress call left: nothing after that call reaches the
    provider. *)
Lemma createIngress_provider (ty : IngressInput) (w : World P) (self : Self) :
  session w = Some self ->
  fst (resetIngresses (self_id self) w) = Ok tt ->
  provider (snd (createIngress ty w))
  = snd (ingressClient_createIngress ty (buildOptions self ty)
           (provider (snd (resetIngresses (self_id self) w)))).
Proof.
  intros Hs Hr1. rewrite createIngress_world.
  pose proof (createIngressTry_run ty w) as Hrun.
  rewrite Hs in Hrun. cbv zeta in Hrun. rewrite Hr1 in Hrun.
  destruct (fst (ingressClient_createIngress ty (buildOptions self ty)
                   (provider (snd (resetIngresses (self_id self) w)))))
    as [[ing|]|e2];
    [destruct (incomplete (Some ing));
     [|destruct (updateRow (WhereUserId (self_id self)) (credentialsData ing)
                   (db w)) as [[r t']|]] | | ];
    rewrite Hrun; reflexivity.
Qed.

End ProvisionReturns.

(** C9.  [createIngress] branches on the requested input type, and the
    branch decides what a run asks of the provider.  For WHIP input the
    options ask for bypass of transcoding and name no track preset; for
    any other input (the push-encoder RTMP input, in particular) they ask
    for a camera track with the H264 1080p 30fps 3-layer video preset and a
    microphone track with the Opus stereo 96 kbps audio preset, and do not
    ask for bypass; in both branches the room name and the participant
    identity are the caller's id.  Every run of a signed-in caller whose
    [resetIngresses] returned calls the provider's create-ingress operation
    right after it, with the requested input type and exactly these
    options, makes no other call to the provider afterwards, and leaves the
    provider as that call left it.  Every run that returns has made this
    call and returns what the provider answered to it.  No run makes a
    create-ingress call with another input type or other options. *)
Theorem C9_options_by_input_mode
    {P : Type} `{Provider P} (ty : IngressInput) (w : World P) :
  let run := createIngress ty w in
  let requested (caller : Self) : CreateIngressOptions :=
    match ty with
    | WHIP_INPUT =>
        mkOptions (self_username caller) (self_id caller)
                  (self_username caller) (self_id caller)
                  (Some true) None None
    | _ =>
        mkOptions (self_username caller) (self_id caller)
                  (self_username caller) (self_id caller)
                  None
                  (Some (mkVideo CAMERA H264_1080P_30FPS_3_LAYERS))
                  (Some (mkAudio MICROPHONE OPUS_STEREO_96KBPS))
    end in
  (forall caller,
     session w = Some caller ->
     fst (resetIngresses (self_id caller) w) = Ok tt ->
     (exists post,
        since w (snd run)
          = since w (snd (resetIngresses (self_id caller) w))
            ++ CreateIngress ty (requested caller) :: post /\
        forallb (fun c => negb (isRemoteCall c)) post = true) /\
     provider (snd run)
       = snd (ingressClient_createIngress ty (requested caller)
                (provider (snd (resetIngresses (self_id caller) w))))) /\
  (forall ing,
     fst run = Ok ing ->
     exists caller,
       session w = Some caller /\
       In (CreateIngress ty (requested caller)) (since w (snd run)) /\
       fst (ingressClient_createIngress ty (requested caller)
              (provider (snd (resetIngresses (self_id caller) w))))
         = Ok (Some ing)) /\
  (forall ty' o,
     In (CreateIngress ty' o) (since w (snd run)) ->
     exists caller,
       session w = Some caller /\ ty' = ty /\ o = requested caller).
Proof.
  intros run requested.
  assert (Hopt : forall caller, buildOptions caller ty = requested caller).
  { intros caller. subst requested. destruct ty; reflexivity. }
  split; [|split].
  - intros caller Hs Hr1. rewrite <- Hopt. split.
    + pose proof (createIngress_calls ty w) as Hc. cbv zeta in Hc.
      rewrite Hs, Hr1 in Hc. exact Hc.
    + exact (createIngress_provider ty w caller Hs Hr1).
  - intros ing Hok.
    destruct (createIngress_ok ty w ing Hok)
      as (caller & Hs & _ & Hanswer & _ & Hin).
    exists caller. rewrite <- Hopt. auto.
  - intros ty' o Hin.
    destruct (createIngress_create_call ty w ty' o Hin)
      as (caller & post & Hs & _ & Hty & Ho & _).
    exists caller. rewrite <- Hopt. auto.
Qed.

Lemma C9_witness :
  let w := Scenario.world [] true [("I2", "rtmp://ingest/live", "key-2")] in
  let asked :=
    mkOptions "alice" "U1" "alice" "U1" None
              (Some (mkVideo CAMERA H264_1080P_30FPS_3_LAYERS))
              (Some (mkAudio MICROPHONE OPUS_STEREO_96KBPS)) in
  (exists post,
     since w (snd (createIngress RTMP_INPUT w))
       = since w (snd (resetIngresses "U1" w))
         ++ CreateIngress RTMP_INPUT asked :: post /\
     forallb (fun c => negb (isRemoteCall c)) post = true) /\
  provider (snd (createIngress RTMP_INPUT w))
    = snd (ingressClient_createIngress RTMP_INPUT asked
             (provider (snd (resetIngresses "U1" w)))).
Proof.
  intros w asked.
  apply (proj1 (C9_options_by_input_mode RTMP_INPUT w) Scenario.alice).
  - reflexivity.
  - reflexivity.
Defined.

Module LiveKitSimFacts.

Import LiveKitSim.

(** A call that returns ran its operation on a project that differs from
    the given one in its failure schedule only. *)
Lemma call_returns {A : Type} (op : Project -> A * Project)
    (p p' : Project) (a : A) :
  call op p = (Ok a, p') ->
  exists p1,
    ingresses p1 = ingresses p /\ rooms p1 = rooms p /\
    scoped p1 = scoped p /\ supply p1 = supply p /\
    op p1 = (a, p').
Proof.
  unfold call, tick.
  destruct (faults p) as [|[] rest]; simpl.
  - destruct (op p) as [a' q] eqn:Hop. intros [= <- <-]. eauto 10.
  - discriminate.
  - destruct (op (mkProject _ _ _ _ _)) as [a' q] eqn:Hop.
    intros [= <- <-].
    exists (mkProject (ingresses p) (rooms p) rest (scoped p) (supply p)).
    repeat split. exact Hop.
Qed.

(** What a deletion that returns leaves of the ingresses. *)
Lemma perform_ingresses (c : Call) (p p' : Project) :
  perform c p = (Ok tt, p') ->
  forall x, In x (ingresses p') ->
            In x (ingresses p) /\ c <> DeleteIngress (ingressId x).
Proof.
  destruct c; simpl; try (intros [= <-]; intros x Hx; split; [assumption|discriminate]).
  - intros Hc. apply call_returns in Hc as (p1 & Hi & _ & _ & _ & [= <-]).
    simpl. intros x Hx. apply filter_In in Hx as [Hx Hne].
    rewrite Hi in Hx. split; [assumption|].
    intros [= ->]. rewrite String.eqb_refl in Hne. discriminate.
  - intros Hc. apply call_returns in Hc as (p1 & Hi & _ & _ & _ & [= <-]).
    simpl. rewrite Hi. intros x Hx. split; [assumption|discriminate].
Qed.

(** After a sequence of deletions that all returned, an ingress that is
    still there was there before and none of the deletions named it. *)
Lemma deliver_ingresses (cs : list Call) :
  forall p, allReturn cs p = true ->
  forall x, In x (ingresses (deliver cs p)) ->
            In x (ingresses p) /\ ~ In (DeleteIngress (ingressId x)) cs.
Proof.
  induction cs as [|c cs IH]; intros p Hall x Hx.
  - simpl in Hx. auto.
  - rewrite deliver_cons in Hx. simpl in Hall.
    destruct (perform c p) as [[[]|e] p'] eqn:Hp; [|discriminate].
    simpl in Hx. destruct (IH p' Hall x Hx) as [Hin Hnot].
    destruct (perform_ingresses c p p' Hp x Hin) as [Hin0 Hc].
    split; [assumption|]. intros [Heq|Hcs]; auto.
Qed.

Lemma filter_none {A : Type} (f : A -> bool) (l : list A) :
  (forall x, In x l -> f x = false) -> filter f l = [].
Proof.
  induction l as [|x l IH]; simpl; intros Hl; [reflexivity|].
  rewrite (Hl x (or_introl eq_refl)). apply IH. auto.
Qed.

(** On a project whose ingresses all carry an id, a [resetIngresses] that
    returns leaves no ingress in the identity's room, whether its listings
    honour their filter or return every resource. *)
Lemma reset_clears (hostIdentity : string) (w : World Project) :
  identified (provider w) = true ->
  fst (resetIngresses hostIdentity w) = Ok tt ->
  ingressesOf hostIdentity (provider (snd (resetIngresses hostIdentity w))) = [].
Proof.
  intros Hid Hok.
  destruct (resetIngresses_ok hostIdentity w Hok)
    as (ings & p1 & rms & p2 & Hi & Hr & -> & Hall).
  simpl in Hi, Hr. unfold sim_listIngress in Hi. unfold sim_listRooms in Hr.
  apply call_returns in Hi as (q1 & Hi1 & _ & _ & _ & [= <- <-]).
  apply call_returns in Hr as (q2 & Hi2 & _ & _ & _ & [= <- <-]).
  cbn [provider]. unfold ingressesOf.
  apply filter_none. intros x Hx.
  destruct (deliver_ingresses _ _ Hall x Hx) as [Hin Hnot].
  destruct (String.eqb (roomName x) hostIdentity) eqn:Hroom; [|reflexivity].
  exfalso. apply Hnot. apply plan_DeleteIngress.
  exists x. rewrite Hi2 in Hin.
  assert (Hx0 : In x (ingresses (provider w))) by now rewrite <- Hi1.
  unfold identified in Hid. rewrite forallb_forall in Hid.
  specialize (Hid x Hx0).
  repeat split.
  - destruct (scoped q1); [|assumption].
    apply filter_In. now split.
  - intros E. rewrite E in Hid. discriminate.
  - left. now apply String.eqb_eq.
Qed.

(** A creation that returns an ingress appended it, in the room the
    options name. *)
Lemma create_appends (ty : IngressInput) (o : CreateIngressOptions)
    (p p' : Project) (ing : IngressInfo) :
  sim_createIngress ty o p = (Ok (Some ing), p') ->
  ingresses p' = ingresses p ++ [ing] /\ roomName ing = opt_roomName o.
Proof.
  unfold sim_createIngress. intros Hc.
  apply call_returns in Hc as (p1 & Hi & _ & _ & _ & Hop).
  destruct (supply p1) as [|[[i u] k] rest]; [discriminate|].
  injection Hop as <- <-. simpl. now rewrite Hi.
Qed.

Lemma buildOptions_roomName (self : Self) (ty : IngressInput) :
  opt_roomName (buildOptions self ty) = self_id self.
Proof. destruct ty; reflexivity. Qed.

(** On such a project, a [createIngress] that returns leaves exactly the
    returned ingress in the caller's room. *)
Lemma provision_leaves_one (ty : IngressInput) (w : World Project)
    (ing : IngressInfo) :
  identified (provider w) = true ->
  fst (createIngress ty w) = Ok ing ->
  exists self,
    session w = Some self /\
    ingressesOf (self_id self) (provider (snd (createIngress ty w))) = [ing].
Proof.
  intros Hid Hok.
  destruct (createIngress_ok ty w ing Hok) as (self & Hs & Hreset & Hc & Hp & _).
  exists self. split; [assumption|]. rewrite Hp.
  pose proof (reset_clears (self_id self) w Hid Hreset) as Hclear.
  simpl in Hc |- *.
  destruct (sim_createIngress ty (buildOptions self ty)
              (provider (snd (resetIngresses (self_id self) w))))
    as [r p'] eqn:Hcreate.
  simpl in Hc. subst r. simpl.
  destruct (create_appends _ _ _ _ _ Hcreate) as [Hi Hroom].
  unfold ingressesOf in *. rewrite Hi, filter_app, Hclear. simpl.
  rewrite Hroom, buildOptions_roomName, String.eqb_refl. reflexivity.
Qed.

End LiveKitSimFacts.


(** C6.  [createIngress] calls [resetIngresses] on the caller's identity
    before the provider's create-ingress operation, whatever the input
    type and the world: whenever a run makes the create-ingress call, its
    calls so far are the two listings for the caller's identity followed
    by every planned deletion, all of which returned, and no call to the
    provider follows the creation; and every run that returns made the
    create-ingress call.  Consequently, on the reference provider, all of
    whose ingresses carry ids, after every provision that returns the
    ingresses scoped to the caller's identity are exactly the returned
    one: at most one exists. *)
Theorem C6_reset_precedes_create :
  (forall (P : Type) (prov : Provider P) (ty : IngressInput) (w : World P)
          (ty' : IngressInput) (o : CreateIngressOptions),
     In (CreateIngress ty' o) (since w (snd (createIngress ty w))) ->
     exists self post,
       session w = Some self /\
       fst (resetIngresses (self_id self) w) = Ok tt /\
       since w (snd (createIngress ty w))
         = [ListIngress (self_id self); ListRooms [self_id self]]
           ++ plan (self_id self) (listedIngresses (self_id self) w)
                                  (listedRooms (self_id self) w)
           ++ CreateIngress ty (buildOptions self ty) :: post /\
       forallb (fun c => negb (isRemoteCall c)) post = true) /\
  (forall (P : Type) (prov : Provider P) (ty : IngressInput) (w : World P)
          (ing : IngressInfo),
     fst (createIngress ty w) = Ok ing ->
     exists self,
       session w = Some self /\
       In (CreateIngress ty (buildOptions self ty))
          (since w (snd (createIngress ty w)))) /\
  (forall (ty : IngressInput) (w : World LiveKitSim.Project) (ing : IngressInfo),
     LiveKitSim.identified (provider w) = true ->
     fst (createIngress ty w) = Ok ing ->
     exists self,
       session w = Some self /\
       LiveKitSim.ingressesOf (self_id self) (provider (snd (createIngress ty w)))
       = [ing] /\
       length (LiveKitSim.ingressesOf (self_id self)
                 (provider (snd (createIngress ty w)))) <= 1).
Proof.
  split; [|split].
  - intros P prov ty w ty' o Hin.
    destruct (createIngress_create_call ty w ty' o Hin)
      as (self & post & Hs & Hreset & _ & _ & Hsince & Hpost).
    exists self, post. repeat split; try assumption.
    rewrite Hsince.
    destruct (resetIngresses_ok (self_id self) w Hreset)
      as (ings & p1 & rms & p2 & Hi & Hr & Hw & _).
    rewrite (since_app w _ _ (f_equal log Hw)).
    unfold listedIngresses, listedRooms. rewrite Hi, Hr.
    rewrite <- !app_assoc. reflexivity.
  - intros P prov ty w ing Hok.
    destruct (createIngress_ok ty w ing Hok) as (self & Hs & _ & _ & _ & Hin).
    eauto.
  - intros ty w ing Hid Hok.
    destruct (LiveKitSimFacts.provision_leaves_one ty w ing Hid Hok)
      as (self & Hs & Hone).
    exists self. rewrite Hone. simpl. auto.
Qed.

Lemma C6_witness :
  let w := Scenario.world [] true [("I2", "rtmp://ingest/live", "key-2")] in
  exists self,
    session w = Some self /\
    LiveKitSim.ingressesOf (self_id self)
      (provider (snd (createIngress RTMP_INPUT w)))
    = [mkIngress "I2" "U1" "U1" "alice" "rtmp://ingest/live" "key-2"] /\
    length (LiveKitSim.ingressesOf (self_id self)
              (provider (snd (createIngress RTMP_INPUT w)))) <= 1.
Proof.
  intros w.
  apply (proj2 (proj2 C6_reset_precedes_create) RTMP_INPUT w
           (mkIngress "I2" "U1" "U1" "alice" "rtmp://ingest/live" "key-2"));
    reflexivity.
Defined.

(* ===================================================================== *)
(** * Further properties of the code *)
(* ===================================================================== *)

(** ** [resetIngresses]: edges *)

Lemma resetIngresses_nothing_selected
    {P : Type} `{Provider P} (hostIdentity : string) (w : World P)
    (ingresses : list IngressInfo) (p1 : P) (rooms : list Room) (p2 : P) :
  ingressClient_listIngress hostIdentity (provider w) = (Ok ingresses, p1) ->
  roomService_listRooms [hostIdentity] p1 = (Ok rooms, p2) ->
  plan hostIdentity ingresses rooms = [] ->
  resetIngresses hostIdentity w
  = (Ok tt,
     mkWorld p2 (db w) (session w)
             (log w ++ [ListIngress hostIdentity; ListRooms [hostIdentity]])).
Proof.
  intros Hi Hr Hplan.
  destruct (resetIngresses_run _ _ _ _ _ _ Hi Hr) as (done & rest & Hp & Hw & Ho).
  rewrite Hplan in Hp. symmetry in Hp. apply app_eq_nil in Hp as [-> ->].
  destruct (resetIngresses hostIdentity w) as [[[]|e] w']; simpl in Hw, Ho.
  - subst w'. reflexivity.
  - destruct Ho as (d & c & Hd & _). destruct d; discriminate.
Qed.

Lemma resetIngresses_listIngress_throws
    {P : Type} `{Provider P} (hostIdentity : string) (w : World P) e p1 :
  ingressClient_listIngress hostIdentity (provider w) = (Throw e, p1) ->
  resetIngresses hostIdentity w
  = (Throw e,
     mkWorld p1 (db w) (session w) (log w ++ [ListIngress hostIdentity])).
Proof.
  intros Hi.
  unfold resetIngresses, bind, listIngress, remote. now rewrite Hi.
Qed.

Lemma resetIngresses_listRooms_throws
    {P : Type} `{Provider P} (hostIdentity : string) (w : World P)
    ingresses p1 e p2 :
  ingressClient_listIngress hostIdentity (provider w) = (Ok ingresses, p1) ->
  roomService_listRooms [hostIdentity] p1 = (Throw e, p2) ->
  resetIngresses hostIdentity w
  = (Throw e,
     mkWorld p2 (db w) (session w)
             (log w ++ [ListIngress hostIdentity; ListRooms [hostIdentity]])).
Proof.
  intros Hi Hr.
  unfold resetIngresses, bind, listIngress, listRooms, remote.
  rewrite Hi. simpl. rewrite Hr. now rewrite <- app_assoc.
Qed.

(** X1.  When both listings answer and none of the listed resources is
    selected for deletion (nothing is listed, or every listed ingress
    lacks an id or belongs to someone else and no listed room is named
    after the identity), [resetIngresses] returns without attempting any
    deletion: its only calls are the two listings. *)
Theorem X1_reset_without_owned_resources_is_noop
    {P : Type} `{Provider P} (hostIdentity : string) (w : World P)
    (ingresses : list IngressInfo) (p1 : P) (rooms : list Room) (p2 : P) :
  ingressClient_listIngress hostIdentity (provider w) = (Ok ingresses, p1) ->
  roomService_listRooms [hostIdentity] p1 = (Ok rooms, p2) ->
  plan hostIdentity ingresses rooms = [] ->
  resetIngresses hostIdentity w
  = (Ok tt,
     mkWorld p2 (db w) (session w)
             (log w ++ [ListIngress hostIdentity; ListRooms [hostIdentity]])).
Proof.
  intros Hi Hr Hplan.
  exact (resetIngresses_nothing_selected hostIdentity w ingresses p1 rooms p2
           Hi Hr Hplan).
Qed.

Lemma X1_witness :
  let w := Scenario.world [] true [] in
  resetIngresses "U3" w
  = (Ok tt,
     mkWorld (Scenario.project [] true []) (db w) (session w)
             [ListIngress "U3"; ListRooms ["U3"]]).
Proof.
  intros w.
  apply (X1_reset_without_owned_resources_is_noop "U3" w []
           (Scenario.project [] true []) [] (Scenario.project [] true []));
    reflexivity.
Defined.

(** X2.  [resetIngresses] never calls [deleteIngress] with an empty id: a
    listed ingress without id is skipped, even when its room is the
    identity's. *)
Theorem X2_reset_never_deletes_without_id
    {P : Type} `{Provider P} (hostIdentity : string) (w : World P) (i : string) :
  In (DeleteIngress i) (since w (snd (resetIngresses hostIdentity w))) ->
  i <> EmptyString.
Proof.
  destruct (resetIngresses_frame hostIdentity w) as (_ & _ & new & Hlog & _ & Hdel).
  cbv zeta in Hlog. rewrite (since_app _ _ _ Hlog).
  intros Hin. apply Hdel in Hin; [|reflexivity].
  now apply plan_DeleteIngress in Hin as (_ & _ & _ & Hne & _).
Qed.

Lemma X2_witness : "I1b" <> EmptyString.
Proof.
  apply (X2_reset_never_deletes_without_id "U1" (Scenario.world [] false []) "I1b").
  vm_compute. tauto.
Defined.

(** X3.  No deletion is attempted unless both listings have answered.
    When [listIngress] throws, [resetIngresses] throws the same error and
    has made that one call; when [listRooms] throws, it throws the same
    error after the two listing calls, and the ingresses already listed
    are left alone. *)
Theorem X3_reset_lists_before_it_deletes
    {P : Type} `{Provider P} (hostIdentity : string) (w : World P) :
  (forall e p1,
     ingressClient_listIngress hostIdentity (provider w) = (Throw e, p1) ->
     resetIngresses hostIdentity w
     = (Throw e,
        mkWorld p1 (db w) (session w) (log w ++ [ListIngress hostIdentity]))) /\
  (forall ingresses p1 e p2,
     ingressClient_listIngress hostIdentity (provider w) = (Ok ingresses, p1) ->
     roomService_listRooms [hostIdentity] p1 = (Throw e, p2) ->
     resetIngresses hostIdentity w
     = (Throw e,
        mkWorld p2 (db w) (session w)
                (log w ++ [ListIngress hostIdentity; ListRooms [hostIdentity]]))).
Proof.
  split.
  - intros e p1 Hi. now apply resetIngresses_listIngress_throws.
  - intros ingresses p1 e p2 Hi Hr.
    now apply (resetIngresses_listRooms_throws hostIdentity w ingresses p1).
Qed.

Lemma X3_witness :
  let w := Scenario.world [false; true] false [] in
  resetIngresses "U1" w
  = (Throw LiveKitSim.serviceError,
     mkWorld (Scenario.project [] false []) (db w) (session w)
             [ListIngress "U1"; ListRooms ["U1"]]).
Proof.
  intros w.
  apply (proj2 (X3_reset_lists_before_it_deletes "U1" w)
           (LiveKitSim.ingresses (Scenario.project [] false []))
           (Scenario.project [true] false []));
    reflexivity.
Defined.

(** X4.  When [resetIngresses] returns, it has called [deleteIngress] for
    every listed ingress that carries an id and whose room name or
    participant identity is the identity, and [deleteRoom] for every
    listed room named after the identity; and each of these calls
    returned. *)
Theorem X4_reset_that_returns_swept_everything
    {P : Type} `{Provider P} (hostIdentity : string) (w : World P) :
  fst (resetIngresses hostIdentity w) = Ok tt ->
  let calls := since w (snd (resetIngresses hostIdentity w)) in
  (forall ing, In ing (listedIngresses hostIdentity w) ->
     ingressId ing <> EmptyString ->
     roomName ing = hostIdentity \/ participantIdentity ing = hostIdentity ->
     In (DeleteIngress (ingressId ing)) calls) /\
  (forall r, In r (listedRooms hostIdentity w) ->
     name r = hostIdentity -> In (DeleteRoom hostIdentity) calls).
Proof.
  intros Hok calls. subst calls.
  destruct (resetIngresses_ok hostIdentity w Hok)
    as (ings & p1 & rms & p2 & Hi & Hr & Hw & _).
  rewrite (since_app w _ _ (f_equal log Hw)).
  unfold listedIngresses, listedRooms. rewrite Hi, Hr.
  split.
  - intros ing Hin Hid Hown. right. right.
    apply plan_DeleteIngress. exists ing. auto.
  - intros r Hin Hn. right. right.
    apply plan_DeleteRoom. split; [reflexivity|]. eauto.
Qed.

Lemma X4_witness :
  In (DeleteIngress "I1b")
     (since (Scenario.world [] false [])
            (snd (resetIngresses "U1" (Scenario.world [] false [])))).
Proof.
  assert (Hok : fst (resetIngresses "U1" (Scenario.world [] false [])) = Ok tt)
    by reflexivity.
  apply (proj1 (X4_reset_that_returns_swept_everything "U1"
                  (Scenario.world [] false []) Hok) Scenario.I1b).
  - vm_compute. tauto.
  - discriminate.
  - left. reflexivity.
Defined.

(** ** [resetIngresses] twice, on the reference provider *)

Module LiveKitSimReset.

Import LiveKitSim.

Lemma tick_frame (p : Project) :
  ingresses (snd (tick p)) = ingresses p /\
  rooms (snd (tick p)) = rooms p /\
  scoped (snd (tick p)) = scoped p.
Proof. unfold tick. destruct (faults p); simpl; auto. Qed.

(** A listing call, whatever it answers, leaves the resources alone. *)
Lemma listing_frame {A : Type} (f : Project -> A) (p p' : Project)
    (r : Outcome A) :
  call (fun q => (f q, q)) p = (r, p') ->
  ingresses p' = ingresses p /\ rooms p' = rooms p /\ scoped p' = scoped p.
Proof.
  unfold call. pose proof (tick_frame p) as Ht.
  destruct (tick p) as [[] p1]; simpl in Ht; intros [= <- <-]; exact Ht.
Qed.

Lemma perform_rooms (c : Call) (p p' : Project) :
  perform c p = (Ok tt, p') ->
  forall r, In r (rooms p') -> In r (rooms p) /\ c <> DeleteRoom (name r).
Proof.
  destruct c; simpl; try (intros [= <-]; intros r Hr; split; [assumption|discriminate]).
  - intros Hc. apply LiveKitSimFacts.call_returns in Hc
      as (p1 & _ & Hr1 & _ & _ & [= <-]).
    simpl. rewrite Hr1. intros r Hr. split; [assumption|discriminate].
  - intros Hc. apply LiveKitSimFacts.call_returns in Hc
      as (p1 & _ & Hr1 & _ & _ & [= <-]).
    simpl. intros r Hr. apply filter_In in Hr as [Hr Hne].
    rewrite Hr1 in Hr. split; [assumption|].
    intros [= ->]. rewrite String.eqb_refl in Hne. discriminate.
Qed.

Lemma perform_scoped (c : Call) (p p' : Project) :
  perform c p = (Ok tt, p') -> scoped p' = scoped p.
Proof.
  destruct c; simpl; try (now intros [= <-]).
  - intros Hc. now apply LiveKitSimFacts.call_returns in Hc
      as (p1 & _ & _ & Hs & _ & [= <-]).
  - intros Hc. now apply LiveKitSimFacts.call_returns in Hc
      as (p1 & _ & _ & Hs & _ & [= <-]).
Qed.

Lemma deliver_rooms (cs : list Call) :
  forall p, allReturn cs p = true ->
  scoped (deliver cs p) = scoped p /\
  forall r, In r (rooms (deliver cs p)) ->
            In r (rooms p) /\ ~ In (DeleteRoom (name r)) cs.
Proof.
  induction cs as [|c cs IH]; intros p Hall.
  - simpl. auto.
  - rewrite deliver_cons. simpl in Hall.
    destruct (perform c p) as [[[]|e] p'] eqn:Hp; [|discriminate].
    simpl. destruct (IH p' Hall) as [Hsc Hrooms].
    split; [now rewrite Hsc, (perform_scoped c p p' Hp)|].
    intros r Hr. destruct (Hrooms r Hr) as [Hin Hnot].
    destruct (perform_rooms c p p' Hp r Hin) as [Hin0 Hc].
    split; [assumption|]. intros [Heq|Hcs]; auto.
Qed.

Lemma selected_nil {A : Type} (sel : A -> option Call) (xs : list A) :
  (forall x, In x xs -> sel x = None) -> selected sel xs = [].
Proof.
  induction xs as [|x xs IH]; intros Hxs; simpl; [reflexivity|].
  rewrite (Hxs x (or_introl eq_refl)). simpl. apply IH.
  intros y Hy. apply Hxs. now right.
Qed.

(** After a [resetIngresses] that returned, nothing that a second one
    could list is selected for deletion. *)
Lemma reset_leaves_nothing_to_sweep (hostIdentity : string) (w : World Project) :
  fst (resetIngresses hostIdentity w) = Ok tt ->
  let p := provider (snd (resetIngresses hostIdentity w)) in
  forall ings rms,
    scoped p = scoped (provider w) /\
    (scoped p = true ->
     ings = filter (fun i => String.eqb (roomName i) hostIdentity) (ingresses p) ->
     rms = filter (fun r => inNames [hostIdentity] (name r)) (rooms p) ->
     plan hostIdentity ings rms = []) /\
    (scoped p = false -> ings = ingresses p -> rms = rooms p ->
     plan hostIdentity ings rms = []).
Proof.
  intros Hok.
  destruct (resetIngresses_ok hostIdentity w Hok)
    as (ings1 & p1 & rms1 & p2 & Hi & Hr & -> & Hall).
  cbn [snd provider]. intros ings rms.
  change (sim_listIngress hostIdentity (provider w) = (Ok ings1, p1)) in Hi.
  change (sim_listRooms [hostIdentity] p1 = (Ok rms1, p2)) in Hr.
  unfold sim_listIngress in Hi. unfold sim_listRooms in Hr.
  destruct (listing_frame _ _ _ _ Hi) as (Hi1 & Hr1 & Hs1).
  destruct (listing_frame _ _ _ _ Hr) as (Hi2 & Hr2 & Hs2).
  apply LiveKitSimFacts.call_returns in Hi
    as (q1 & Hqi & _ & Hqs & _ & [= Hings1 <-]).
  apply LiveKitSimFacts.call_returns in Hr
    as (q2 & Hqi2 & Hqr2 & Hqs2 & _ & [= Hrms1 <-]).
  set (pl := plan hostIdentity ings1 rms1) in *.
  destruct (deliver_rooms pl q2 Hall) as [Hsc Hrooms].
  pose proof (LiveKitSimFacts.deliver_ingresses pl q2 Hall) as Hings.
  assert (Hq1 : scoped q1 = scoped (provider w)) by congruence.
  assert (Hq2 : scoped q2 = scoped (provider w)) by congruence.
  assert (Hscoped : scoped (deliver pl q2) = scoped (provider w)) by congruence.
  split; [exact Hscoped|].
  assert (Hno_ing : forall x,
            In x (ingresses (deliver pl q2)) ->
            (scoped (provider w) = false \/
             String.eqb (roomName x) hostIdentity = true) ->
            ingressCall hostIdentity x = None).
  { intros x Hx Hcase. destruct (Hings x Hx) as [Hin Hnot].
    rewrite Hi2 in Hin.
    destruct (ingressCall hostIdentity x) as [c|] eqn:Hc; [|reflexivity].
    exfalso. apply Hnot. unfold pl, plan. apply in_or_app. left.
    apply in_selected. exists x. split.
    - rewrite <- Hings1, Hq1.
      destruct Hcase as [-> | Hroom]; [assumption|].
      destruct (scoped (provider w)); [|assumption].
      apply filter_In. auto.
    - rewrite Hc. unfold ingressCall in Hc.
      destruct (truthy (ingressId x) && ownsIngress hostIdentity x);
        [now injection Hc as <- | discriminate]. }
  assert (Hno_room : forall r,
            In r (rooms (deliver pl q2)) -> roomCall hostIdentity r = None).
  { intros r Hr. destruct (Hrooms r Hr) as [Hin Hnot].
    destruct (roomCall hostIdentity r) as [c|] eqn:Hc; [|reflexivity].
    exfalso. apply Hnot. unfold pl, plan. apply in_or_app. right.
    apply in_selected. exists r.
    unfold roomCall in Hc |- *.
    destruct (String.eqb (name r) hostIdentity) eqn:Hn; [|discriminate].
    split; [|reflexivity].
    rewrite <- Hrms1.
    destruct (scoped q2); [|assumption].
    apply filter_In. split; [assumption|].
    unfold inNames. simpl. now rewrite Hn. }
  split.
  - intros Hs -> ->. unfold plan.
    rewrite !selected_nil; [reflexivity| |].
    + intros r Hr. apply filter_In in Hr as [Hr _]. now apply Hno_room.
    + intros x Hx. apply filter_In in Hx as [Hx Hroom].
      apply (Hno_ing x Hx). now right.
  - intros Hs -> ->. unfold plan.
    rewrite !selected_nil; [reflexivity| |].
    + intros r Hr. now apply Hno_room.
    + intros x Hx. apply (Hno_ing x Hx). left. congruence.
Qed.

End LiveKitSimReset.

(** X5.  On the reference provider, reconciling again right after a
    [resetIngresses] that returned attempts no deletion and leaves the
    project's ingresses and rooms as the first run left them, whether or
    not the second run's listings answer. *)
Theorem X5_reset_again_deletes_nothing
    (hostIdentity : string) (w : World LiveKitSim.Project) :
  fst (resetIngresses hostIdentity w) = Ok tt ->
  let w1 := snd (resetIngresses hostIdentity w) in
  let w2 := snd (resetIngresses hostIdentity w1) in
  existsb isDeletion (since w1 w2) = false /\
  LiveKitSim.ingresses (provider w2) = LiveKitSim.ingresses (provider w1) /\
  LiveKitSim.rooms (provider w2) = LiveKitSim.rooms (provider w1).
Proof.
  intros Hok w1 w2.
  pose proof (LiveKitSimReset.reset_leaves_nothing_to_sweep hostIdentity w Hok)
    as Hsweep.
  cbv zeta in Hsweep. fold w1 in Hsweep.
  destruct (ingressClient_listIngress hostIdentity (provider w1))
    as [[ings|e] pa] eqn:Hi.
  - destruct (roomService_listRooms [hostIdentity] pa) as [[rms|e] pb] eqn:Hr.
    + assert (Hplan : plan hostIdentity ings rms = []).
      { pose proof Hi as Hi'. pose proof Hr as Hr'.
        change (LiveKitSim.sim_listIngress hostIdentity (provider w1)
                = (Ok ings, pa)) in Hi'.
        change (LiveKitSim.sim_listRooms [hostIdentity] pa = (Ok rms, pb)) in Hr'.
        unfold LiveKitSim.sim_listIngress in Hi'.
        unfold LiveKitSim.sim_listRooms in Hr'.
        apply LiveKitSimFacts.call_returns in Hi'
          as (qa & Hqi & Hqr & Hqs & _ & [= Hings <-]).
        apply LiveKitSimFacts.call_returns in Hr'
          as (qb & Hqi' & Hqr' & Hqs' & _ & [= Hrms <-]).
        rewrite Hqs', Hqs, Hqr', Hqr in Hrms. rewrite Hqs, Hqi in Hings.
        destruct (Hsweep ings rms) as (_ & Htrue & Hfalse).
        destruct (LiveKitSim.scoped (provider w1)).
        - apply Htrue; [reflexivity | now symmetry | now symmetry].
        - apply Hfalse; [reflexivity | now symmetry | now symmetry]. }
      subst w2.
      rewrite (resetIngresses_nothing_selected hostIdentity w1 ings pa rms pb
                 Hi Hr Hplan).
      cbn [snd provider].
      rewrite since_app
        with (new := [ListIngress hostIdentity; ListRooms [hostIdentity]])
        by reflexivity.
      change (LiveKitSim.sim_listIngress hostIdentity (provider w1)
              = (Ok ings, pa)) in Hi.
      change (LiveKitSim.sim_listRooms [hostIdentity] pa = (Ok rms, pb)) in Hr.
      destruct (LiveKitSimReset.listing_frame _ _ _ _ Hi) as (Ha & Hb & _).
      destruct (LiveKitSimReset.listing_frame _ _ _ _ Hr) as (Ha' & Hb' & _).
      repeat split; congruence.
    + subst w2.
      rewrite (resetIngresses_listRooms_throws hostIdentity w1 ings pa e pb Hi Hr).
      cbn [snd provider].
      rewrite since_app
        with (new := [ListIngress hostIdentity; ListRooms [hostIdentity]])
        by reflexivity.
      change (LiveKitSim.sim_listIngress hostIdentity (provider w1)
              = (Ok ings, pa)) in Hi.
      change (LiveKitSim.sim_listRooms [hostIdentity] pa = (Throw e, pb)) in Hr.
      destruct (LiveKitSimReset.listing_frame _ _ _ _ Hi) as (Ha & Hb & _).
      destruct (LiveKitSimReset.listing_frame _ _ _ _ Hr) as (Ha' & Hb' & _).
      repeat split; congruence.
  - subst w2.
    rewrite (resetIngresses_listIngress_throws hostIdentity w1 e pa Hi).
    cbn [snd provider].
    rewrite since_app with (new := [ListIngress hostIdentity]) by reflexivity.
    change (LiveKitSim.sim_listIngress hostIdentity (provider w1)
            = (Throw e, pa)) in Hi.
    destruct (LiveKitSimReset.listing_frame _ _ _ _ Hi) as (Ha & Hb & _).
    repeat split; congruence.
Qed.

Lemma X5_witness :
  let w1 := snd (resetIngresses "U1" (Scenario.world [] false [])) in
  let w2 := snd (resetIngresses "U1" w1) in
  existsb isDeletion (since w1 w2) = false /\
  LiveKitSim.ingresses (provider w2) = LiveKitSim.ingresses (provider w1) /\
  LiveKitSim.rooms (provider w2) = LiveKitSim.rooms (provider w1).
Proof.
  apply (X5_reset_again_deletes_nothing "U1" (Scenario.world [] false [])).
  reflexivity.
Defined.

(** ** [createIngress]: failures *)

Section ProvisionFailures.

Context {P : Type} `{Provider P}.

Lemma createIngress_of_try (ty : IngressInput) (w : World P) :
  match createIngressTry ty w with
  | (Ok ing, w') => createIngress ty w = (Ok ing, w')
  | (Throw e0, w') =>
      createIngress ty w = createIngressCatch e0 w' /\
      exists e', createIngressCatch e0 w' = (Throw e', w')
  end.
Proof.
  unfold createIngress, tryCatch.
  destruct (createIngressTry ty w) as [[ing|e0] w']; [reflexivity|].
  split; [reflexivity | apply createIngressCatch_throws].
Qed.

Lemma resetCalls_no_revalidate (new : list Call) :
  forallb isResetCall new = true -> filter isRevalidatePath new = [].
Proof.
  induction new as [|c new IH]; simpl; [reflexivity|].
  intros Hn. apply andb_true_iff in Hn as [Hc Hn].
  destruct c; try discriminate; simpl; auto.
Qed.

(** The calls and the table of a run of [createIngress], by outcome. *)
Lemma createIngress_shape (ty : IngressInput) (w : World P) :
  let run := createIngress ty w in
  exists new post,
    since w (snd run) = new ++ post /\
    forallb isResetCall new = true /\
    match fst run with
    | Ok ing =>
        exists self,
          session w = Some self /\
          post = [CreateIngress ty (buildOptions self ty);
                  StreamUpdate (WhereUserId (self_id self)) (credentialsData ing);
                  RevalidatePath (keysPath self)]
    | Throw _ =>
        db (snd run) = db w /\ filter isRevalidatePath post = []
    end.
Proof.
  cbv zeta.
  pose proof (createIngress_of_try ty w) as Hof.
  pose proof (createIngressTry_run ty w) as Hrun.
  destruct (session w) as [self|].
  - cbv zeta in Hrun.
    destruct (resetIngresses_frame (self_id self) w)
      as (Hdb & _ & new & Hlog & Hnew & _).
    cbv zeta in Hdb, Hlog.
    exists new.
    assert (Hthrow : forall e0 post,
              createIngressTry ty w
              = (Throw e0,
                 mkWorld (provider (afterCreate ty (buildOptions self ty)
                                      (snd (resetIngresses (self_id self) w))))
                         (db w) (session (snd (resetIngresses (self_id self) w)))
                         (log (snd (resetIngresses (self_id self) w))
                          ++ CreateIngress ty (buildOptions self ty) :: post)) ->
              filter isRevalidatePath post = [] ->
              exists post0,
                since w (snd (createIngress ty w)) = new ++ post0 /\
                forallb isResetCall new = true /\
                match fst (createIngress ty w) with
                | Ok ing =>
                    exists self0,
                      Some self = Some self0 /\
                      post0 = [CreateIngress ty (buildOptions self0 ty);
                               StreamUpdate (WhereUserId (self_id self0))
                                            (credentialsData ing);
                               RevalidatePath (keysPath self0)]
                | Throw _ =>
                    db (snd (createIngress ty w)) = db w /\
                    filter isRevalidatePath post0 = []
                end).
    { intros e0 post Htry Hpost. rewrite Htry in Hof.
      destruct Hof as [Hc (e' & He')]. rewrite Hc, He'. cbn [fst snd db].
      exists (CreateIngress ty (buildOptions self ty) :: post).
      split; [apply since_app; simpl; rewrite Hlog, <- !app_assoc; reflexivity|].
      split; [exact Hnew|]. split; [reflexivity | exact Hpost]. }
    destruct (fst (resetIngresses (self_id self) w)) as [[]|e1].
    + destruct (fst (ingressClient_createIngress ty (buildOptions self ty)
                       (provider (snd (resetIngresses (self_id self) w)))))
        as [[ing|]|e2].
      * destruct (incomplete (Some ing)).
        -- apply (Hthrow missingCredentialsError []); [|reflexivity].
           rewrite Hrun. unfold afterCreate. rewrite Hdb. reflexivity.
        -- destruct (updateRow _ _ (db w)) as [[r t']|].
           ++ rewrite Hrun in Hof. rewrite Hof. cbn [fst snd].
              eexists. split;
                [apply since_app; simpl; rewrite Hlog, <- !app_assoc; reflexivity|].
              split; [exact Hnew|]. exists self. split; reflexivity.
           ++ apply (Hthrow prismaRecordNotFound
                       [StreamUpdate (WhereUserId (self_id self)) (credentialsData ing)]);
                [|reflexivity].
              rewrite Hrun. unfold afterCreate, record. cbn [provider db session log].
              rewrite Hdb, <- app_assoc. reflexivity.
      * apply (Hthrow noResponseError []); [|reflexivity].
        rewrite Hrun. unfold afterCreate. rewrite Hdb. reflexivity.
      * apply (Hthrow e2 []); [|reflexivity].
        rewrite Hrun. unfold afterCreate. rewrite Hdb. reflexivity.
    + rewrite Hrun in Hof. destruct Hof as [Hc (e' & He')].
      rewrite Hc, He'. cbn [fst snd].
      exists []. rewrite app_nil_r.
      split; [now apply since_app|]. split; [exact Hnew|].
      split; [exact Hdb | reflexivity].
  - rewrite Hrun in Hof. destruct Hof as [Hc (e' & He')].
    rewrite Hc, He'. cbn [fst snd].
    exists [], []. split; [apply since_app; simpl; now rewrite app_nil_r|].
    repeat split.
Qed.

End ProvisionFailures.

(** X6.  A run of [createIngress] that throws leaves the [stream] table
    as it was and never calls [revalidatePath]; a run that returns has
    called [revalidatePath] exactly once, on the caller's keys page
    [/u/<username>/keys], as the last call of the run. *)
Theorem X6_provision_revalidates_only_on_success
    {P : Type} `{Provider P} (ty : IngressInput) (w : World P) :
  let run := createIngress ty w in
  match fst run with
  | Throw _ =>
      db (snd run) = db w /\
      filter isRevalidatePath (since w (snd run)) = []
  | Ok _ =>
      exists self calls,
        session w = Some self /\
        since w (snd run) = calls ++ [RevalidatePath (keysPath self)] /\
        filter isRevalidatePath calls = []
  end.
Proof.
  destruct (createIngress_shape ty w) as (new & post & Hsince & Hnew & Hout).
  cbv zeta in *.
  destruct (fst (createIngress ty w)) as [ing|e].
  - destruct Hout as (self & Hs & ->).
    exists self,
      (new ++ [CreateIngress ty (buildOptions self ty);
               StreamUpdate (WhereUserId (self_id self)) (credentialsData ing)]).
    split; [assumption|]. split.
    + rewrite Hsince, <- app_assoc. reflexivity.
    + rewrite filter_app, (resetCalls_no_revalidate new Hnew). reflexivity.
  - destruct Hout as [Hdb Hpost]. split; [assumption|].
    rewrite Hsince, filter_app, (resetCalls_no_revalidate new Hnew), Hpost.
    reflexivity.
Qed.

Lemma X6_witness :
  let run := createIngress RTMP_INPUT (Scenario.world [true] true []) in
  db (snd run) = db (Scenario.world [true] true []) /\
  filter isRevalidatePath (since (Scenario.world [true] true []) (snd run)) = [].
Proof.
  exact (X6_provision_revalidates_only_on_success RTMP_INPUT
           (Scenario.world [true] true [])).
Defined.

Section ProvisionOutcomes.

Context {P : Type} `{Provider P}.

Lemma includes_LiveKit_nonempty (m : string) :
  includes m "LiveKit" = true -> m <> EmptyString.
Proof. intros Hi ->. discriminate Hi. Qed.

Lemma truthy_nonempty (m : string) : truthy m = true <-> m <> EmptyString.
Proof.
  destruct m; simpl; split; try discriminate; try reflexivity.
  intros Hc. now contradiction Hc.
Qed.

(** What the [catch] block throws for what the [try] block threw. *)
Lemma createIngressCatch_message (e0 e : JsError) (w w' : World P) :
  createIngressCatch e0 w = (Throw e, w') ->
  message e <> EmptyString /\
  (message e0 <> EmptyString -> code e0 <> Some "P2025" ->
   message e = message e0) /\
  (includes (message e0) "LiveKit" = false -> code e0 = Some "P2025" ->
   e = streamNotFoundError).
Proof.
  unfold createIngressCatch, throw.
  destruct (includes (message e0) "LiveKit") eqn:Hi.
  - intros [= <- <-]. split; [now apply includes_LiveKit_nonempty|].
    split; [reflexivity | discriminate].
  - destruct (optEqb (code e0) "P2025") eqn:Hc.
    + intros [= <- <-]. split; [discriminate|]. split; [|reflexivity].
      intros _ Hcode. exfalso. apply Hcode.
      destruct (code e0) as [c|]; [|discriminate].
      simpl in Hc. apply String.eqb_eq in Hc. now subst.
    + intros [= <- <-]. simpl.
      destruct (truthy (message e0)) eqn:Ht.
      * apply truthy_nonempty in Ht. repeat split; try assumption.
        intros _ Hcode. rewrite Hcode in Hc. discriminate.
      * split; [discriminate|]. split.
        -- intros Hne. apply truthy_nonempty in Hne. congruence.
        -- intros _ Hcode. rewrite Hcode in Hc. discriminate.
Qed.

Lemma createIngress_session (ty : IngressInput) (w : World P) :
  session (snd (createIngress ty w)) = session w.
Proof.
  rewrite createIngress_world.
  pose proof (createIngressTry_run ty w) as Hrun.
  destruct (session w) as [self|] eqn:Hs; [|now rewrite Hrun].
  cbv zeta in Hrun.
  destruct (resetIngresses_frame (self_id self) w) as (_ & Hses & _).
  cbv zeta in Hses. rewrite Hs in Hses.
  destruct (fst (resetIngresses (self_id self) w)) as [[]|e1];
    [|now rewrite Hrun].
  destruct (fst (ingressClient_createIngress ty (buildOptions self ty)
                   (provider (snd (resetIngresses (self_id self) w)))))
    as [[ing|]|e2]; try (now rewrite Hrun).
  destruct (incomplete (Some ing)); [now rewrite Hrun|].
  destruct (updateRow _ _ (db w)) as [[r t']|]; now rewrite Hrun.
Qed.

(** The table after a run of [createIngress] that returned. *)
Lemma createIngress_table (ty : IngressInput) (w : World P) (ing : IngressInfo) :
  fst (createIngress ty w) = Ok ing ->
  exists self before r after,
    session w = Some self /\
    db w = before ++ r :: after /\
    userId r = self_id self /\
    forallb (fun x => negb (String.eqb (userId x) (self_id self))) before = true /\
    db (snd (createIngress ty w)) = before ++ setCredentials ing r :: after.
Proof.
  intros Hok.
  apply createIngress_returns in Hok.
  rewrite createIngress_world.
  pose proof (createIngressTry_run ty w) as Hrun.
  destruct (session w) as [self|]; [|rewrite Hrun in Hok; discriminate].
  cbv zeta in Hrun.
  destruct (fst (resetIngresses (self_id self) w)) as [[]|e1];
    [|rewrite Hrun in Hok; discriminate].
  destruct (fst (ingressClient_createIngress ty (buildOptions self ty)
                   (provider (snd (resetIngresses (self_id self) w)))))
    as [[ing'|]|e2]; try (rewrite Hrun in Hok; discriminate).
  destruct (incomplete (Some ing'));
    [rewrite Hrun in Hok; discriminate|].
  destruct (updateRow (WhereUserId (self_id self)) (credentialsData ing') (db w))
    as [[r' t']|] eqn:Hu; [|rewrite Hrun in Hok; discriminate].
  rewrite Hrun in Hok. cbn [fst] in Hok. injection Hok as ->.
  rewrite Hrun. cbn [snd db].
  destruct (updateRow_split _ _ _ _ _ Hu) as (b & r & a & Hw & -> & _ & Hm & Hb).
  exists self, b, r, a.
  simpl in Hm. apply String.eqb_eq in Hm.
  repeat split; assumption.
Qed.

End ProvisionOutcomes.

(** X7.  When the caller has no row in the [stream] table, a provision
    whose remote steps all succeed still throws, with the message
    "Stream not found in database. Please contact support."; the table is
    unchanged, but the ingress has been created on the provider. *)
Theorem X7_provision_without_stream_record
    {P : Type} `{Provider P}
    (ty : IngressInput) (w : World P) (self : Self) (ing : IngressInfo) (p2 : P) :
  session w = Some self ->
  fst (resetIngresses (self_id self) w) = Ok tt ->
  ingressClient_createIngress ty (buildOptions self ty)
    (provider (snd (resetIngresses (self_id self) w))) = (Ok (Some ing), p2) ->
  incomplete (Some ing) = false ->
  findStream (WhereUserId (self_id self)) (db w) = None ->
  let run := createIngress ty w in
  fst run = Throw streamNotFoundError /\
  db (snd run) = db w /\
  provider (snd run) = p2 /\
  In (CreateIngress ty (buildOptions self ty)) (since w (snd run)).
Proof.
  intros Hs Hreset Hcreate Hinc Hfind run. subst run.
  pose proof (createIngressTry_run ty w) as Hrun.
  rewrite Hs in Hrun. cbv zeta in Hrun.
  rewrite Hreset, Hcreate in Hrun. cbn [fst] in Hrun.
  rewrite Hinc, (updateRow_none _ _ _ Hfind) in Hrun.
  destruct (resetIngresses_frame (self_id self) w)
    as (Hdb & _ & new & Hlog & _).
  cbv zeta in Hdb, Hlog.
  unfold createIngress, tryCatch. rewrite Hrun.
  change (createIngressCatch prismaRecordNotFound ?x)
    with (@Throw IngressInfo streamNotFoundError, x).
  cbn [fst snd]. unfold afterCreate, record. cbn [db provider log].
  rewrite Hcreate. repeat split; try assumption.
  rewrite since_app
    with (new := new ++ [CreateIngress ty (buildOptions self ty);
                         StreamUpdate (WhereUserId (self_id self))
                                      (credentialsData ing)]).
  - apply in_or_app. right. now left.
  - rewrite Hlog, <- !app_assoc. reflexivity.
Qed.

Lemma X7_witness :
  let w := mkWorld (Scenario.project [] true [("I3", "rtmp://ingest/live", "key-3")])
                   Scenario.table (Some (mkSelf "U3" "erin")) [] in
  fst (createIngress WHIP_INPUT w) = Throw streamNotFoundError /\
  db (snd (createIngress WHIP_INPUT w)) = db w.
Proof.
  intros w.
  destruct (X7_provision_without_stream_record WHIP_INPUT w (mkSelf "U3" "erin")
              (mkIngress "I3" "U3" "U3" "erin" "rtmp://ingest/live" "key-3")
              (snd (ingressClient_createIngress WHIP_INPUT
                      (buildOptions (mkSelf "U3" "erin") WHIP_INPUT)
                      (provider (snd (resetIngresses "U3" w))))))
    as (Hthrow & Hdb & _); [reflexivity .. | ].
  split; assumption.
Defined.

(** X8.  Whatever the [try] block of [createIngress] throws, the caller
    gets an error with a non-empty message: the thrown error's own message
    when it has one (and is not Prisma's P2025), "Stream not found in
    database. Please contact support." for a P2025 whose message does not
    mention LiveKit, and a default otherwise. *)
Theorem X8_provision_error_carries_a_message
    {P : Type} `{Provider P} (ty : IngressInput) (w : World P) (e0 : JsError) :
  fst (createIngressTry ty w) = Throw e0 ->
  exists e,
    fst (createIngress ty w) = Throw e /\
    message e <> EmptyString /\
    (message e0 <> EmptyString -> code e0 <> Some "P2025" ->
     message e = message e0) /\
    (includes (message e0) "LiveKit" = false -> code e0 = Some "P2025" ->
     e = streamNotFoundError).
Proof.
  intros Htry.
  pose proof (createIngress_of_try ty w) as Hof.
  destruct (createIngressTry ty w) as [[ing|e0'] w']; [discriminate|].
  cbn [fst] in Htry. injection Htry as ->.
  destruct Hof as [Hc (e & He)].
  exists e. rewrite Hc, He. split; [reflexivity|].
  exact (createIngressCatch_message e0 e w' w' He).
Qed.

Lemma X8_witness :
  exists e,
    fst (createIngress RTMP_INPUT (Scenario.world [false; false; true] false []))
    = Throw e /\
    message e <> EmptyString /\
    (message LiveKitSim.serviceError <> EmptyString ->
     code LiveKitSim.serviceError <> Some "P2025" ->
     message e = message LiveKitSim.serviceError) /\
    (includes (message LiveKitSim.serviceError) "LiveKit" = false ->
     code LiveKitSim.serviceError = Some "P2025" ->
     e = streamNotFoundError).
Proof.
  apply (X8_provision_error_carries_a_message RTMP_INPUT
           (Scenario.world [false; false; true] false [])
           LiveKitSim.serviceError).
  reflexivity.
Defined.

(** ** Provisioning composed with itself, with the stream service and with
    the webhook *)

Module LiveKitSimProvision.

Import LiveKitSim.

(** The ingresses after a provision that returned: the returned one, and
    ingresses that were there before. *)
Lemma provision_ingresses (ty : IngressInput) (w : World Project)
    (ing : IngressInfo) :
  fst (createIngress ty w) = Ok ing ->
  forall x, In x (ingresses (provider (snd (createIngress ty w)))) ->
            x = ing \/ In x (ingresses (provider w)).
Proof.
  intros Hok x Hx.
  destruct (createIngress_ok ty w ing Hok) as (self & Hs & Hreset & Hc & Hp & _).
  rewrite Hp in Hx.
  destruct (resetIngresses_ok (self_id self) w Hreset)
    as (ings & p1 & rms & p2 & Hi & Hr & Hw & Hall).
  rewrite Hw in Hc, Hx. cbn [provider] in Hc, Hx.
  change (sim_listIngress (self_id self) (provider w) = (Ok ings, p1)) in Hi.
  change (sim_listRooms [self_id self] p1 = (Ok rms, p2)) in Hr.
  destruct (LiveKitSimReset.listing_frame _ _ _ _ Hi) as (Hi1 & _ & _).
  destruct (LiveKitSimReset.listing_frame _ _ _ _ Hr) as (Hi2 & _ & _).
  destruct (ingressClient_createIngress ty (buildOptions self ty)
              (deliver (plan (self_id self) ings rms) p2)) as [r p'] eqn:Hcreate.
  cbn [fst snd] in Hc, Hx. subst r.
  change (sim_createIngress ty (buildOptions self ty)
            (deliver (plan (self_id self) ings rms) p2) = (Ok (Some ing), p'))
    in Hcreate.
  destruct (LiveKitSimFacts.create_appends _ _ _ _ _ Hcreate) as [Happ _].
  rewrite Happ in Hx. apply in_app_or in Hx as [Hx|[<-|[]]]; [|now left].
  right.
  destruct (LiveKitSimFacts.deliver_ingresses _ _ Hall x Hx) as [Hin _].
  congruence.
Qed.

Lemma provision_identified (ty : IngressInput) (w : World Project)
    (ing : IngressInfo) :
  identified (provider w) = true ->
  fst (createIngress ty w) = Ok ing ->
  ingressId ing <> EmptyString ->
  identified (provider (snd (createIngress ty w))) = true.
Proof.
  intros Hid Hok Hne. unfold identified in *.
  rewrite forallb_forall in *. intros x Hx.
  destruct (provision_ingresses ty w ing Hok x Hx) as [-> | Hin]; [|auto].
  destruct (ingressId ing); [contradiction | reflexivity].
Qed.

End LiveKitSimProvision.

(** X9.  On the reference provider, when every ingress carries an id
    (those of the project before the first provision, and the one the
    first provision returns), two provisions in a row for the same caller,
    both returning, leave exactly the second one's ingress in the caller's
    room: the second provision's reconcile has deleted the first's. *)
Theorem X9_second_provision_replaces_first
    (ty1 ty2 : IngressInput) (w : World LiveKitSim.Project)
    (ing1 ing2 : IngressInfo) :
  LiveKitSim.identified (provider w) = true ->
  fst (createIngress ty1 w) = Ok ing1 ->
  ingressId ing1 <> EmptyString ->
  let w1 := snd (createIngress ty1 w) in
  fst (createIngress ty2 w1) = Ok ing2 ->
  exists self,
    session w = Some self /\
    LiveKitSim.ingressesOf (self_id self) (provider w1) = [ing1] /\
    LiveKitSim.ingressesOf (self_id self) (provider (snd (createIngress ty2 w1)))
    = [ing2].
Proof.
  intros Hid Hok1 Hne w1 Hok2.
  destruct (LiveKitSimFacts.provision_leaves_one ty1 w ing1 Hid Hok1)
    as (self & Hs & Hone).
  pose proof (LiveKitSimProvision.provision_identified ty1 w ing1 Hid Hok1 Hne)
    as Hid1.
  destruct (LiveKitSimFacts.provision_leaves_one ty2 w1 ing2 Hid1 Hok2)
    as (self' & Hs' & Htwo).
  unfold w1 in Hs'. rewrite createIngress_session, Hs in Hs'.
  injection Hs' as <-.
  exists self. auto.
Qed.

Lemma X9_witness :
  let w := Scenario.world [] true [("I2", "rtmp://ingest/a", "key-2");
                                   ("I3", "rtmp://ingest/b", "key-3")] in
  let w1 := snd (createIngress RTMP_INPUT w) in
  exists self,
    session w = Some self /\
    LiveKitSim.ingressesOf (self_id self) (provider w1)
    = [mkIngress "I2" "U1" "U1" "alice" "rtmp://ingest/a" "key-2"] /\
    LiveKitSim.ingressesOf (self_id self)
      (provider (snd (createIngress WHIP_INPUT w1)))
    = [mkIngress "I3" "U1" "U1" "alice" "rtmp://ingest/b" "key-3"].
Proof.
  intros w w1.
  apply (X9_second_provision_replaces_first RTMP_INPUT WHIP_INPUT w
           (mkIngress "I2" "U1" "U1" "alice" "rtmp://ingest/a" "key-2")
           (mkIngress "I3" "U1" "U1" "alice" "rtmp://ingest/b" "key-3"));
    [reflexivity | reflexivity | discriminate | reflexivity].
Defined.

(** X10.  After a provision that returned, [getStreamByUserId] for the
    caller's id finds a row, and that row carries the id, the URL and the
    stream key of the returned ingress; what it held in the other columns
    before is still there. *)
Theorem X10_provision_then_getStreamByUserId
    {P : Type} `{Provider P} (ty : IngressInput) (w : World P) (ing : IngressInfo) :
  fst (createIngress ty w) = Ok ing ->
  let w' := snd (createIngress ty w) in
  exists self r,
    session w = Some self /\
    getStreamByUserId (self_id self) w = (Ok (Some r), w) /\
    getStreamByUserId (self_id self) w' = (Ok (Some (setCredentials ing r)), w') /\
    userId (setCredentials ing r) = self_id self /\
    stream_ingressId (setCredentials ing r) = Some (ingressId ing) /\
    serverUrl (setCredentials ing r) = Some (url ing) /\
    stream_streamKey (setCredentials ing r) = Some (streamKey ing).
Proof.
  intros Hok w'. subst w'.
  destruct (createIngress_table ty w ing Hok)
    as (self & b & r & a & Hs & Hw & Hu & Hb & Hw').
  exists self, r. unfold getStreamByUserId. rewrite Hw, Hw'.
  assert (Hm : matchesWhere (WhereUserId (self_id self)) r = true)
    by (simpl; now rewrite Hu, String.eqb_refl).
  rewrite !find_split; try assumption.
  repeat split; assumption.
Qed.

Lemma X10_witness :
  let w := Scenario.world [] true [("I2", "rtmp://ingest/live", "key-2")] in
  let ing := mkIngress "I2" "U1" "U1" "alice" "rtmp://ingest/live" "key-2" in
  let w' := snd (createIngress RTMP_INPUT w) in
  exists self r,
    session w = Some self /\
    getStreamByUserId (self_id self) w = (Ok (Some r), w) /\
    getStreamByUserId (self_id self) w' = (Ok (Some (setCredentials ing r)), w') /\
    userId (setCredentials ing r) = self_id self /\
    stream_ingressId (setCredentials ing r) = Some (ingressId ing) /\
    serverUrl (setCredentials ing r) = Some (url ing) /\
    stream_streamKey (setCredentials ing r) = Some (streamKey ing).
Proof.
  intros w ing.
  apply (X10_provision_then_getStreamByUserId RTMP_INPUT w ing).
  reflexivity.
Defined.

(** ** The webhook handler: every request *)

Section WebhookCases.

Context {P : Type} `{Provider P}.
Variable receive : string -> string -> Outcome WebhookEvent.

(** Every run of the handler, by what the request asks for. *)
Lemma POST_cases (req : Request) (w : World P) :
  match lifecycleOf receive req with
  | None =>
      exists resp,
        POST receive req w = (Ok resp, w) /\
        (status resp = 200 \/ status resp = 400 \/ status resp = 500)
  | Some (k, flag) =>
      match findStream (WhereIngressId k) (db w) with
      | Some r =>
          exists table',
            updateRow (WhereIngressId k) (liveData flag) (db w)
              = Some (setLive flag r, table') /\
            POST receive req w
              = (Ok (mkResponse "OK" 200),
                 mkWorld (provider w) table' (session w)
                         (log w ++ [StreamUpdate (WhereIngressId k) (liveData flag)]))
      | None =>
          POST receive req w
            = (Ok (mkResponse "Internal Server Error" 500),
               record (StreamUpdate (WhereIngressId k) (liveData flag)) w)
      end
  end.
Proof.
  unfold lifecycleOf.
  destruct (authorization req) as [a|] eqn:Ha.
  - destruct (truthy a) eqn:Ht.
    + destruct (receive (body req) a) as [e|err] eqn:Hr.
      * destruct (String.eqb (event e) "ingress_started") eqn:Hs.
        -- apply String.eqb_eq in Hs.
           exact (POST_lifecycle receive req a e true w Ha Ht Hr Hs).
        -- destruct (String.eqb (event e) "ingress_ended") eqn:He.
           ++ apply String.eqb_eq in He.
              exact (POST_lifecycle receive req a e false w Ha Ht Hr He).
           ++ apply String.eqb_neq in Hs, He.
              rewrite (POST_other_kind receive req a e w Ha Ht Hr Hs He).
              eexists. split; [reflexivity|]. simpl. auto.
      * rewrite (POST_rejected receive req a err w Ha Ht Hr).
        eexists. split; [reflexivity|]. simpl. auto.
    + rewrite (POST_no_header receive req w) by (rewrite Ha; exact Ht).
      eexists. split; [reflexivity|]. simpl. auto.
  - rewrite (POST_no_header receive req w) by now rewrite Ha.
    eexists. split; [reflexivity|]. simpl. auto.
Qed.

(** Replacing a row that a [where] does not select by one it does not
    select either leaves what the [where] finds. *)
Lemma find_other_row (wh : StreamWhere) (before : list StreamRecord)
    (r r' : StreamRecord) (after : list StreamRecord) :
  matchesWhere wh r = false -> matchesWhere wh r' = false ->
  findStream wh (before ++ r' :: after) = findStream wh (before ++ r :: after).
Proof.
  intros Hr Hr'. unfold findStream.
  induction before as [|x b IH]; simpl.
  - now rewrite Hr, Hr'.
  - now rewrite IH.
Qed.

Lemma findStream_undefined (table : list StreamRecord) :
  findStream (WhereIngressId None) table = None.
Proof.
  unfold findStream. induction table as [|x t IH]; simpl; [reflexivity | exact IH].
Qed.

(** One delivery, seen from the row an ingress id selects. *)
Lemma POST_row (i : string) (req : Request) (w : World P) (r : StreamRecord) :
  findStream (WhereIngressId (Some i)) (db w) = Some r ->
  findStream (WhereIngressId (Some i)) (db (snd (POST receive req w)))
  = Some (setLive (lastFlag receive i [req] (isLive r)) r).
Proof.
  intros Hf.
  assert (Hsame : setLive (isLive r) r = r) by (destruct r; reflexivity).
  pose proof (POST_cases req w) as Hc.
  unfold lastFlag. simpl.
  destruct (lifecycleOf receive req) as [[k flag]|].
  - destruct k as [j|].
    + destruct (String.eqb j i) eqn:Hji.
      * apply String.eqb_eq in Hji. subst j. rewrite Hf in Hc.
        destruct Hc as (t' & Hu & ->). cbn [snd db].
        destruct (updateRow_live_twice _ _ _ _ _ Hu)
          as (b & r0 & a0 & _ & _ & -> & _ & _ & Hf0 & Hf1 & _).
        rewrite Hf1. congruence.
      * rewrite Hsame.
        destruct (findStream (WhereIngressId (Some j)) (db w)) as [r0|] eqn:Hfj.
        -- destruct Hc as (t' & Hu & ->). cbn [snd db].
           destruct (updateRow_split _ _ _ _ _ Hu)
             as (b & r1 & a1 & Hw & -> & _ & Hm & _).
           rewrite Hw in Hf. rewrite <- Hf.
           assert (Hr1 : matchesWhere (WhereIngressId (Some i)) r1 = false).
           { simpl in Hm |- *. destruct (stream_ingressId r1) as [x|]; [|reflexivity].
             simpl in Hm |- *. apply String.eqb_eq in Hm. subst x.
             exact Hji. }
           apply find_other_row; [assumption|].
           rewrite applyData_live, matchesWhere_setLive. assumption.
        -- rewrite Hc. cbn [snd db record]. assumption.
    + rewrite Hsame. rewrite findStream_undefined in Hc. rewrite Hc. assumption.
  - rewrite Hsame. destruct Hc as (resp & -> & _). assumption.
Qed.

Lemma lastFlag_cons (i : string) (req : Request) (reqs : list Request)
    (init : bool) :
  lastFlag receive i (req :: reqs) init
  = lastFlag receive i reqs (lastFlag receive i [req] init).
Proof. reflexivity. Qed.

End WebhookCases.

(** X11.  Provisioning and the webhook compose: after a provision that
    returned an ingress whose id no row of the table held before, an
    authenticated [ingress_started] (or [ingress_ended]) event carrying
    that id is answered 200 and sets is-live to [true] (or [false]) on the
    caller's row, which keeps the credentials just stored. *)
Theorem X11_provision_then_webhook
    {P : Type} `{Provider P}
    (receive : string -> string -> Outcome WebhookEvent)
    (ty : IngressInput) (w : World P) (ing : IngressInfo)
    (req : Request) (a : string) (e : WebhookEvent) (flag : bool) :
  fst (createIngress ty w) = Ok ing ->
  (forall x, In x (db w) -> stream_ingressId x <> Some (ingressId ing)) ->
  authorization req = Some a -> truthy a = true ->
  receive (body req) a = Ok e ->
  event e = (if flag then "ingress_started" else "ingress_ended") ->
  eventIngressId e = Some (ingressId ing) ->
  let w1 := snd (createIngress ty w) in
  let w2 := snd (POST receive req w1) in
  exists self r,
    session w = Some self /\
    findStream (WhereUserId (self_id self)) (db w) = Some r /\
    statusOf (POST receive req w1) = Some 200 /\
    findStream (WhereUserId (self_id self)) (db w2)
    = Some (setLive flag (setCredentials ing r)).
Proof.
  intros Hok Hfresh Ha Ht Hr He Hid w1 w2. subst w1 w2.
  destruct (createIngress_table ty w ing Hok)
    as (self & b & r & a0 & Hs & Hw & Hu & Hb & Hw').
  exists self, r. split; [assumption|].
  assert (Hmu : matchesWhere (WhereUserId (self_id self)) r = true)
    by (simpl; now rewrite Hu, String.eqb_refl).
  split; [rewrite Hw; now apply find_split|].
  assert (Hbi : forallb (fun x => negb (matchesWhere (WhereIngressId (Some (ingressId ing))) x)) b
                = true).
  { apply forallb_forall. intros x Hx. apply negb_true_iff. simpl.
    assert (Hin : In x (db w)) by (rewrite Hw; apply in_or_app; now left).
    specialize (Hfresh x Hin).
    destruct (stream_ingressId x) as [j|]; [|reflexivity]. simpl.
    apply String.eqb_neq. congruence. }
  assert (Hmi : matchesWhere (WhereIngressId (Some (ingressId ing)))
                  (setCredentials ing r) = true)
    by (simpl; apply String.eqb_refl).
  pose proof (POST_lifecycle receive req a e flag
                (snd (createIngress ty w)) Ha Ht Hr He) as Hpost.
  cbv zeta in Hpost. rewrite Hid, Hw' in Hpost.
  rewrite (find_split _ b _ a0 Hmi Hbi) in Hpost.
  destruct Hpost as (t' & Hupd & Hrun).
  rewrite (updateRow_at _ (liveData flag) b _ a0 Hmi Hbi) in Hupd.
  injection Hupd as <-.
  unfold statusOf. rewrite Hrun. cbn [fst snd db status].
  split; [reflexivity|].
  rewrite applyData_live. apply find_split; assumption.
Qed.

Lemma X11_witness :
  let w := Scenario.world [] true [("I2", "rtmp://ingest/live", "key-2")] in
  let ing := mkIngress "I2" "U1" "U1" "alice" "rtmp://ingest/live" "key-2" in
  let req := mkRequest "ingress_ended:I2" (Some "sig") in
  let w1 := snd (createIngress RTMP_INPUT w) in
  let w2 := snd (POST Scenario.receive req w1) in
  exists self r,
    session w = Some self /\
    findStream (WhereUserId (self_id self)) (db w) = Some r /\
    statusOf (POST Scenario.receive req w1) = Some 200 /\
    findStream (WhereUserId (self_id self)) (db w2)
    = Some (setLive false (setCredentials ing r)).
Proof.
  intros w ing req.
  apply (X11_provision_then_webhook Scenario.receive RTMP_INPUT w ing req "sig"
           (mkEvent "ingress_ended"
              (Some (mkIngress "I2" EmptyString EmptyString EmptyString
                               EmptyString EmptyString)))
           false); try reflexivity.
  intros x Hx. vm_compute in Hx.
  destruct Hx as [<-|[<-|[]]]; discriminate.
Defined.

(** X12.  An authenticated event of any kind other than [ingress_started]
    and [ingress_ended] is answered 200 with body "OK", and the handler
    leaves the world as it found it: no [stream.update] is attempted. *)
Theorem X12_other_event_kinds_are_acknowledged
    {P : Type} `{Provider P}
    (receive : string -> string -> Outcome WebhookEvent)
    (req : Request) (a : string) (e : WebhookEvent) (w : World P) :
  authorization req = Some a -> truthy a = true ->
  receive (body req) a = Ok e ->
  event e <> "ingress_started" -> event e <> "ingress_ended" ->
  POST receive req w = (Ok (mkResponse "OK" 200), w).
Proof.
  intros Ha Ht Hr Hs He.
  exact (POST_other_kind receive req a e w Ha Ht Hr Hs He).
Qed.

Lemma X12_witness :
  POST Scenario.receive (mkRequest "room_finished:I1" (Some "sig"))
       (Scenario.world [] true [])
  = (Ok (mkResponse "OK" 200), Scenario.world [] true []).
Proof.
  apply (X12_other_event_kinds_are_acknowledged Scenario.receive
           (mkRequest "room_finished:I1" (Some "sig")) "sig"
           (mkEvent "room_finished"
              (Some (mkIngress "I1" EmptyString EmptyString EmptyString
                               EmptyString EmptyString)))
           (Scenario.world [] true []));
    try reflexivity; discriminate.
Defined.

(** X13.  The handler never throws: every request, whatever its header,
    body and event, and whatever the table holds, gets a response, and
    its status is 200, 400 or 500. *)
Theorem X13_webhook_always_answers
    {P : Type} `{Provider P}
    (receive : string -> string -> Outcome WebhookEvent)
    (req : Request) (w : World P) :
  exists resp,
    fst (POST receive req w) = Ok resp /\
    (status resp = 200 \/ status resp = 400 \/ status resp = 500).
Proof.
  pose proof (POST_cases receive req w) as Hc.
  destruct (lifecycleOf receive req) as [[k flag]|].
  - destruct (findStream (WhereIngressId k) (db w)) as [r|].
    + destruct Hc as (t' & _ & ->). eexists. split; [reflexivity|]. simpl. auto.
    + rewrite Hc. eexists. split; [reflexivity|]. simpl. auto.
  - destruct Hc as (resp & -> & Hst). exists resp. split; [reflexivity | assumption].
Qed.

(** X14.  A delivery touches nothing but one is-live flag: the provider
    and the session are as they were, at most one [stream.update] is
    attempted and no other call is made, and the table is either
    unchanged or differs in one row, which has only its is-live column
    assigned. *)
Theorem X14_webhook_touches_one_flag
    {P : Type} `{Provider P}
    (receive : string -> string -> Outcome WebhookEvent)
    (req : Request) (w : World P) :
  let w' := snd (POST receive req w) in
  provider w' = provider w /\
  session w' = session w /\
  length (since w w') <= 1 /\
  forallb isStreamUpdate (since w w') = true /\
  (db w' = db w \/
   exists before r after flag,
     db w = before ++ r :: after /\
     db w' = before ++ setLive flag r :: after).
Proof.
  cbv zeta.
  pose proof (POST_cases receive req w) as Hc.
  destruct (lifecycleOf receive req) as [[k flag]|].
  - destruct (findStream (WhereIngressId k) (db w)) as [r|].
    + destruct Hc as (t' & Hu & ->). cbn [snd provider session db].
      rewrite since_app
        with (new := [StreamUpdate (WhereIngressId k) (liveData flag)])
        by reflexivity.
      repeat split; auto.
      right.
      destruct (updateRow_split _ _ _ _ _ Hu) as (b & r0 & a0 & -> & -> & _).
      exists b, r0, a0, flag. rewrite applyData_live. auto.
    + rewrite Hc. cbn [snd record provider session db].
      rewrite since_app
        with (new := [StreamUpdate (WhereIngressId k) (liveData flag)])
        by reflexivity.
      repeat split; auto.
  - destruct Hc as (resp & -> & _). cbn [snd].
    rewrite since_app with (new := []) by (now rewrite app_nil_r).
    repeat split; auto.
Qed.

(** X15.  After any sequence of deliveries, the row an ingress id selects
    is the row it selected before with is-live set by the last delivery
    that was an authenticated [ingress_started] or [ingress_ended] event
    for that id; deliveries without header, with a rejected body, of
    other kinds or for other ingress ids do not touch it, and when there
    is no such delivery the row is as it was. *)
Theorem X15_last_lifecycle_event_wins
    {P : Type} `{Provider P}
    (receive : string -> string -> Outcome WebhookEvent)
    (i : string) (reqs : list Request) (w : World P) (r : StreamRecord) :
  findStream (WhereIngressId (Some i)) (db w) = Some r ->
  findStream (WhereIngressId (Some i)) (db (deliveries receive reqs w))
  = Some (setLive (lastFlag receive i reqs (isLive r)) r).
Proof.
  revert w r. induction reqs as [|req reqs IH]; intros w r Hf.
  - simpl. unfold lastFlag. simpl. rewrite Hf. now destruct r.
  - cbn [deliveries]. rewrite lastFlag_cons.
    pose proof (POST_row receive i req w r Hf) as Hrow.
    rewrite (IH _ _ Hrow). reflexivity.
Qed.

Lemma X15_witness :
  findStream (WhereIngressId (Some "I9"))
    (db (deliveries Scenario.receive
           [mkRequest "ingress_ended:I9" (Some "sig");
            mkRequest "ingress_started:I9" (Some "sig");
            mkRequest "ingress_ended:I1" (Some "sig");
            mkRequest "ingress_ended:I9" (Some "forged");
            mkRequest "room_finished:I9" (Some "sig")]
           (Scenario.world [] true [])))
  = Some (setLive true Scenario.streamU2).
Proof.
  apply (X15_last_lifecycle_event_wins Scenario.receive "I9"
           [mkRequest "ingress_ended:I9" (Some "sig");
            mkRequest "ingress_started:I9" (Some "sig");
            mkRequest "ingress_ended:I1" (Some "sig");
            mkRequest "ingress_ended:I9" (Some "forged");
            mkRequest "room_finished:I9" (Some "sig")]
           (Scenario.world [] true []) Scenario.streamU2).
  reflexivity.
Defined.

(** ** The chat atoms *)

Module ChatAtomsFacts.

Import ChatAtoms.

Lemma setStream_same (store : TipStore) (sid : string) v :
  setStream store sid v sid = v.
Proof. unfold setStream. now rewrite String.eqb_refl. Qed.

Lemma setStream_other (store : TipStore) (sid other : string) v :
  other <> sid -> setStream store sid v other = store other.
Proof.
  intros Hne. unfold setStream.
  apply String.eqb_neq in Hne. now rewrite Hne.
Qed.

Lemma insertNewest_perm (n : TipNotification) (l : list TipNotification) :
  Permutation (n :: l) (insertNewest n l).
Proof.
  induction l as [|m l IH]; simpl; [reflexivity|].
  destruct (timestamp m <=? timestamp n)%Z; [reflexivity|].
  rewrite perm_swap. now apply perm_skip.
Qed.

Lemma sortNewestFirst_perm (l : list TipNotification) :
  Permutation l (sortNewestFirst l).
Proof.
  induction l as [|n l IH]; simpl; [reflexivity|].
  rewrite <- insertNewest_perm. now apply perm_skip.
Qed.

Lemma insertNewest_sorted (n : TipNotification) (l : list TipNotification) :
  newestFirst l -> newestFirst (insertNewest n l).
Proof.
  unfold newestFirst. induction 1 as [|m l Hl IH Hm]; simpl.
  - repeat constructor.
  - destruct (timestamp m <=? timestamp n)%Z eqn:Hc.
    + apply Z.leb_le in Hc. constructor.
      * now constructor.
      * constructor; [assumption|].
        rewrite Forall_forall in *. intros x Hx. specialize (Hm x Hx). lia.
    + apply Z.leb_gt in Hc. constructor; [assumption|].
      rewrite Forall_forall in *. intros x Hx.
      apply (Permutation_in _ (Permutation_sym (insertNewest_perm n l))) in Hx.
      destruct Hx as [<-|Hx]; [lia | auto].
Qed.

Lemma sortNewestFirst_sorted (l : list TipNotification) :
  newestFirst (sortNewestFirst l).
Proof.
  induction l as [|n l IH]; simpl.
  - constructor.
  - now apply insertNewest_sorted.
Qed.

(** The sort leaves a sorted list as it is. *)
Lemma sortNewestFirst_fixes (l : list TipNotification) :
  newestFirst l -> sortNewestFirst l = l.
Proof.
  unfold newestFirst. induction 1 as [|n l Hl IH Hn]; simpl; [reflexivity|].
  rewrite IH. destruct l as [|m l']; simpl; [reflexivity|].
  apply Forall_inv in Hn. apply Z.leb_le in Hn. now rewrite Hn.
Qed.

(** An entry at least as new as all the others is sorted to the front. *)
Lemma insertNewest_front (n : TipNotification) (l : list TipNotification) :
  (forall m, In m l -> (timestamp m <= timestamp n)%Z) ->
  insertNewest n l = n :: l.
Proof.
  destruct l as [|m l]; simpl; [reflexivity|].
  intros Hl. specialize (Hl m (or_introl eq_refl)).
  apply Z.leb_le in Hl. now rewrite Hl.
Qed.

Lemma sorted_firstn (k : nat) (l : list TipNotification) :
  newestFirst l -> newestFirst (firstn k l).
Proof.
  unfold newestFirst. intros Hl. revert k.
  induction Hl as [|n l Hl IH Hn]; intros [|k]; simpl; try constructor.
  - apply IH.
  - rewrite Forall_forall in *. intros x Hx. apply Hn.
    rewrite <- (firstn_skipn k l). apply in_or_app. now left.
Qed.

Lemma sorted_filter (f : TipNotification -> bool) (l : list TipNotification) :
  newestFirst l -> newestFirst (filter f l).
Proof.
  unfold newestFirst. induction 1 as [|n l Hl IH Hn]; simpl; [constructor|].
  destruct (f n); [|assumption].
  constructor; [assumption|].
  rewrite Forall_forall in *. intros x Hx. apply filter_In in Hx as [Hx _]. auto.
Qed.

(** In a sorted list, what comes later is not newer. *)
Lemma sorted_split (a b : list TipNotification) :
  newestFirst (a ++ b) ->
  forall x y, In x a -> In y b -> (timestamp y <= timestamp x)%Z.
Proof.
  unfold newestFirst. induction a as [|n a IH]; simpl; intros Hs x y Hx Hy.
  - contradiction.
  - inversion Hs as [|? ? Hs' Hn]; subst.
    destruct Hx as [<-|Hx].
    + rewrite Forall_forall in Hn. apply Hn. apply in_or_app. now right.
    + now apply (IH Hs').
Qed.

Lemma filter_length_all {A : Type} (f : A -> bool) (l : list A) :
  length (filter f l) = length l <-> forall x, In x l -> f x = true.
Proof.
  induction l as [|x l IH]; simpl.
  - split; [intros _ y [] | reflexivity].
  - pose proof (filter_length_le f l) as Hle.
    destruct (f x) eqn:Hx; simpl.
    + split.
      * intros Hlen y [<-|Hy]; [assumption|].
        apply IH; [lia | assumption].
      * intros Hall. f_equal. apply IH. auto.
    + split.
      * intros Hlen. lia.
      * intros Hall. specialize (Hall x (or_introl eq_refl)). congruence.
Qed.

Lemma filter_all {A : Type} (f : A -> bool) (l : list A) :
  (forall x, In x l -> f x = true) -> filter f l = l.
Proof.
  induction l as [|x l IH]; simpl; intros Hall; [reflexivity|].
  rewrite (Hall x (or_introl eq_refl)). f_equal. apply IH. auto.
Qed.

End ChatAtomsFacts.

(** X16.  [addStreamTipNotification] leaves, for its stream, the three
    newest of the new notification and the current ones, newest first:
    the list has [min 3 (1 + n)] entries, is sorted by decreasing
    timestamp, consists of entries of the input, and nothing that was
    dropped is newer than anything that was kept.  The lists of the other
    streams are untouched. *)
Theorem X16_add_keeps_three_newest
    (streamId : string) (notification : ChatAtoms.TipNotification)
    (store : ChatAtoms.TipStore) :
  let updated := ChatAtoms.addStreamTipNotification streamId notification store streamId in
  length updated = Nat.min 3 (S (length (store streamId))) /\
  ChatAtoms.newestFirst updated /\
  (exists dropped,
     Permutation (notification :: store streamId) (updated ++ dropped) /\
     forall x y, In x updated -> In y dropped ->
                 (ChatAtoms.timestamp y <= ChatAtoms.timestamp x)%Z) /\
  (forall other, other <> streamId ->
     ChatAtoms.addStreamTipNotification streamId notification store other
     = store other).
Proof.
  intros updated. subst updated.
  unfold ChatAtoms.addStreamTipNotification. cbv zeta.
  rewrite ChatAtomsFacts.setStream_same.
  set (sorted := ChatAtoms.sortNewestFirst (notification :: store streamId)).
  assert (Hperm : Permutation (notification :: store streamId) sorted)
    by apply ChatAtomsFacts.sortNewestFirst_perm.
  assert (Hsorted : ChatAtoms.newestFirst sorted)
    by apply ChatAtomsFacts.sortNewestFirst_sorted.
  unfold ChatAtoms.keepThree.
  split; [|split; [|split]].
  - rewrite length_firstn, <- (Permutation_length Hperm). reflexivity.
  - now apply ChatAtomsFacts.sorted_firstn.
  - exists (skipn 3 sorted). rewrite firstn_skipn. split; [assumption|].
    apply ChatAtomsFacts.sorted_split. now rewrite firstn_skipn.
  - intros other Hne. now apply ChatAtomsFacts.setStream_other.
Qed.

(** X17.  A notification at least as new as every current one of its
    stream becomes the head of the stream's list. *)
Theorem X17_add_puts_newest_first
    (streamId : string) (notification : ChatAtoms.TipNotification)
    (store : ChatAtoms.TipStore) :
  (forall m, In m (store streamId) ->
     (ChatAtoms.timestamp m <= ChatAtoms.timestamp notification)%Z) ->
  hd_error (ChatAtoms.addStreamTipNotification streamId notification store streamId)
  = Some notification.
Proof.
  intros Hnew.
  unfold ChatAtoms.addStreamTipNotification. cbv zeta.
  rewrite ChatAtomsFacts.setStream_same.
  cbn [ChatAtoms.sortNewestFirst fold_right].
  rewrite ChatAtomsFacts.insertNewest_front; [reflexivity|].
  intros m Hm. apply Hnew.
  now apply (Permutation_in _
               (Permutation_sym (ChatAtomsFacts.sortNewestFirst_perm _))).
Qed.

Lemma X17_witness :
  hd_error (ChatAtoms.addStreamTipNotification "s1"
              (ChatScenario.plain "t4" 3000%Z) ChatScenario.store "s1")
  = Some (ChatScenario.plain "t4" 3000%Z).
Proof.
  apply (X17_add_puts_newest_first "s1" (ChatScenario.plain "t4" 3000%Z)
           ChatScenario.store).
  intros m Hm. vm_compute in Hm.
  destruct Hm as [<-|[<-|[<-|[]]]]; vm_compute; discriminate.
Defined.

(** X18.  [removeStreamTipNotification] leaves no notification with the
    given id in its stream and keeps every other one, in order, so a
    sorted list stays sorted; removing again, or removing an id that is
    not there, changes nothing; the other streams are untouched. *)
Theorem X18_remove_by_id
    (streamId notificationId : string) (store : ChatAtoms.TipStore) :
  let removed := ChatAtoms.removeStreamTipNotification streamId notificationId store in
  (forall x, In x (removed streamId) ->
     ChatAtoms.tip_id x <> notificationId /\ In x (store streamId)) /\
  (forall x, In x (store streamId) -> ChatAtoms.tip_id x <> notificationId ->
     In x (removed streamId)) /\
  (ChatAtoms.newestFirst (store streamId) ->
   ChatAtoms.newestFirst (removed streamId)) /\
  ChatAtoms.removeStreamTipNotification streamId notificationId removed streamId
  = removed streamId /\
  ((forall x, In x (store streamId) -> ChatAtoms.tip_id x <> notificationId) ->
   removed streamId = store streamId) /\
  (forall other, other <> streamId -> removed other = store other).
Proof.
  intros removed. subst removed.
  unfold ChatAtoms.removeStreamTipNotification. cbv zeta.
  rewrite !ChatAtomsFacts.setStream_same.
  split; [|split; [|split; [|split; [|split]]]].
  - intros x Hx. apply filter_In in Hx as [Hx Hne].
    apply negb_true_iff, String.eqb_neq in Hne. auto.
  - intros x Hx Hne. apply filter_In. split; [assumption|].
    now apply negb_true_iff, String.eqb_neq.
  - apply ChatAtomsFacts.sorted_filter.
  - apply ChatAtomsFacts.filter_all. intros x Hx.
    now apply filter_In in Hx as [_ Hne].
  - intros Hall. apply ChatAtomsFacts.filter_all. intros x Hx.
    apply negb_true_iff, String.eqb_neq. auto.
  - intros other Hne. now apply ChatAtomsFacts.setStream_other.
Qed.

Lemma X18_witness :
  ChatAtoms.removeStreamTipNotification "s1" "t9" ChatScenario.store "s1"
  = ChatScenario.store "s1".
Proof.
  apply (proj1 (proj2 (proj2 (proj2 (proj2
           (X18_remove_by_id "s1" "t9" ChatScenario.store)))))).
  intros x Hx. vm_compute in Hx.
  destruct Hx as [<-|[<-|[<-|[]]]]; discriminate.
Defined.

(** X19.  Adding a notification and then removing it by its id gives the
    stream's list back, when that list was sorted newest first, had fewer
    than three entries, and held no notification with the same id. *)
Theorem X19_add_then_remove_restores
    (streamId : string) (notification : ChatAtoms.TipNotification)
    (store : ChatAtoms.TipStore) :
  ChatAtoms.newestFirst (store streamId) ->
  length (store streamId) < 3 ->
  (forall m, In m (store streamId) ->
     ChatAtoms.tip_id m <> ChatAtoms.tip_id notification) ->
  ChatAtoms.removeStreamTipNotification streamId (ChatAtoms.tip_id notification)
    (ChatAtoms.addStreamTipNotification streamId notification store) streamId
  = store streamId.
Proof.
  intros Hsorted Hlen Hids.
  unfold ChatAtoms.removeStreamTipNotification, ChatAtoms.addStreamTipNotification.
  cbv zeta. rewrite !ChatAtomsFacts.setStream_same.
  cbn [ChatAtoms.sortNewestFirst fold_right].
  change (fold_right ChatAtoms.insertNewest [] (store streamId))
    with (ChatAtoms.sortNewestFirst (store streamId)).
  rewrite (ChatAtomsFacts.sortNewestFirst_fixes _ Hsorted).
  unfold ChatAtoms.keepThree. rewrite firstn_all2.
  - clear Hsorted Hlen.
    induction (store streamId) as [|m l IH]; simpl.
    + now rewrite String.eqb_refl.
    + assert (Hm : negb (String.eqb (ChatAtoms.tip_id m)
                                    (ChatAtoms.tip_id notification)) = true).
      { apply negb_true_iff, String.eqb_neq. apply Hids. now left. }
      destruct (ChatAtoms.timestamp m <=? ChatAtoms.timestamp notification)%Z;
        simpl.
      * rewrite String.eqb_refl, Hm. simpl. f_equal.
        apply ChatAtomsFacts.filter_all. intros x Hx.
        apply negb_true_iff, String.eqb_neq. apply Hids. now right.
      * rewrite Hm. f_equal. apply IH. intros x Hx. apply Hids. now right.
  - rewrite <- (Permutation_length
                  (ChatAtomsFacts.insertNewest_perm notification (store streamId))).
    simpl. lia.
Qed.

Lemma X19_witness :
  ChatAtoms.removeStreamTipNotification "s2" "u3"
    (ChatAtoms.addStreamTipNotification "s2" (ChatScenario.plain "u3" 7000%Z)
       ChatScenario.store2) "s2"
  = ChatScenario.store2 "s2".
Proof.
  apply (X19_add_then_remove_restores "s2" (ChatScenario.plain "u3" 7000%Z)
           ChatScenario.store2).
  - vm_compute. repeat constructor; discriminate.
  - vm_compute. lia.
  - intros m Hm. vm_compute in Hm.
    destruct Hm as [<-|[<-|[]]]; discriminate.
Defined.

(** X20.  [clearOldStreamTipNotifications] at time [now]: when every
    notification of the stream is fresher than 30 seconds, the store is
    left as it is (the list is not even re-sorted or cut to three); when
    one has expired, the stream's list becomes the up to three newest
    fresh ones, newest first: it has [min 3 k] entries, [k] the number of
    fresh notifications, it is sorted by decreasing timestamp, together
    with the fresh ones that were dropped it is the fresh ones, each as
    often as before, and nothing fresh that was dropped is newer than
    anything that was kept.  It never adds a notification, and the other
    streams are untouched. *)
Theorem X20_clear_old_notifications
    (streamId : string) (now : Z) (store : ChatAtoms.TipStore) :
  let cleared := ChatAtoms.clearOldStreamTipNotifications streamId now store in
  let fresh := filter (ChatAtoms.isFresh now) (store streamId) in
  ((forall x, In x (store streamId) -> ChatAtoms.isFresh now x = true) ->
   cleared streamId = store streamId) /\
  ((exists x, In x (store streamId) /\ ChatAtoms.isFresh now x = false) ->
   length (cleared streamId) = Nat.min 3 (length fresh) /\
   ChatAtoms.newestFirst (cleared streamId) /\
   (exists dropped,
      Permutation fresh (cleared streamId ++ dropped) /\
      forall x y, In x (cleared streamId) -> In y dropped ->
                  (ChatAtoms.timestamp y <= ChatAtoms.timestamp x)%Z) /\
   (forall x, In x (cleared streamId) ->
      ChatAtoms.isFresh now x = true /\ In x (store streamId)) /\
   length (cleared streamId) <= 3) /\
  (forall x, In x (cleared streamId) -> In x (store streamId)) /\
  (forall other, other <> streamId -> cleared other = store other).
Proof.
  intros cleared fresh. subst cleared.
  unfold ChatAtoms.clearOldStreamTipNotifications. cbv zeta. fold fresh.
  destruct (Nat.eqb (length fresh) (length (store streamId))) eqn:Hlen;
    cbn [negb].
  - apply Nat.eqb_eq in Hlen.
    pose proof (proj1 (ChatAtomsFacts.filter_length_all _ _) Hlen) as Hall.
    split; [reflexivity|]. split; [|split; [auto | reflexivity]].
    intros (x & Hx & Hold). rewrite (Hall x Hx) in Hold. discriminate.
  - apply Nat.eqb_neq in Hlen.
    rewrite ChatAtomsFacts.setStream_same.
    set (sorted := ChatAtoms.sortNewestFirst fresh).
    assert (Hperm : Permutation fresh sorted)
      by apply ChatAtomsFacts.sortNewestFirst_perm.
    assert (Hsorted : ChatAtoms.newestFirst sorted)
      by apply ChatAtomsFacts.sortNewestFirst_sorted.
    assert (Hfrom : forall x, In x (ChatAtoms.keepThree sorted) ->
              ChatAtoms.isFresh now x = true /\ In x (store streamId)).
    { intros x Hx. unfold ChatAtoms.keepThree in Hx.
      assert (Hin : In x sorted).
      { rewrite <- (firstn_skipn 3). apply in_or_app. now left. }
      apply (Permutation_in _ (Permutation_sym Hperm)) in Hin.
      apply filter_In in Hin. tauto. }
    split; [|split; [|split]].
    + intros Hall. exfalso. apply Hlen.
      now apply ChatAtomsFacts.filter_length_all.
    + intros _. unfold ChatAtoms.keepThree in *.
      split; [|split; [|split; [|split]]].
      * rewrite length_firstn, <- (Permutation_length Hperm). reflexivity.
      * now apply ChatAtomsFacts.sorted_firstn.
      * exists (skipn 3 sorted). rewrite firstn_skipn.
        split; [assumption|].
        apply ChatAtomsFacts.sorted_split. now rewrite firstn_skipn.
      * exact Hfrom.
      * apply firstn_le_length.
    + intros x Hx. now apply Hfrom.
    + intros other Hne. now apply ChatAtomsFacts.setStream_other.
Qed.

Lemma X20_witness :
  let cleared := ChatAtoms.clearOldStreamTipNotifications "s3" 60000%Z
                   ChatScenario.store3 in
  let fresh := filter (ChatAtoms.isFresh 60000%Z) (ChatScenario.store3 "s3") in
  length (cleared "s3") = Nat.min 3 (length fresh) /\
  ChatAtoms.newestFirst (cleared "s3") /\
  (exists dropped,
     Permutation fresh (cleared "s3" ++ dropped) /\
     forall x y, In x (cleared "s3") -> In y dropped ->
                 (ChatAtoms.timestamp y <= ChatAtoms.timestamp x)%Z) /\
  (forall x, In x (cleared "s3") ->
     ChatAtoms.isFresh 60000%Z x = true /\ In x (ChatScenario.store3 "s3")) /\
  length (cleared "s3") <= 3.
Proof.
  apply (proj1 (proj2 (X20_clear_old_notifications "s3" 60000%Z
                         ChatScenario.store3))).
  exists (ChatScenario.plain "v3" 1000%Z). split.
  - vm_compute. tauto.
  - reflexivity.
Defined.

(** X21.  The two overlays never show the same notification: a
    notification listed among the large tips of a stream is not listed
    among its gift tips, and both lists are drawn from the stream's
    notifications. *)
Theorem X21_large_and_gift_overlays_are_disjoint
    (store : ChatAtoms.TipStore) (streamId : string)
    (x : ChatAtoms.TipNotification) :
  (In x (ChatAtoms.streamLargeTips store streamId) ->
   In x (store streamId) /\ ~ In x (ChatAtoms.streamGiftTips store streamId)) /\
  (In x (ChatAtoms.streamGiftTips store streamId) ->
   In x (store streamId) /\ ~ In x (ChatAtoms.streamLargeTips store streamId)).
Proof.
  unfold ChatAtoms.streamLargeTips, ChatAtoms.streamGiftTips.
  assert (Hex : ChatAtoms.isLarge x = true -> ChatAtoms.isGift x = true -> False).
  { unfold ChatAtoms.isLarge, ChatAtoms.isGift.
    destruct (ChatAtoms.isLargeTip x), (ChatAtoms.isMegaTip x),
      (truthyOpt (ChatAtoms.giftType x)), (truthyOpt (ChatAtoms.giftName x));
      simpl; intros Hl Hg; discriminate. }
  split; intros Hin; apply filter_In in Hin as [Hin Hp];
    (split; [assumption|]); intros Hq; apply filter_In in Hq as [_ Hq]; auto.
Qed.

Lemma X21_witness :
  In (ChatScenario.largeGift "t3" 3000%Z) (ChatScenario.store "s1") /\
  ~ In (ChatScenario.largeGift "t3" 3000%Z)
       (ChatAtoms.streamGiftTips ChatScenario.store "s1").
Proof.
  apply (proj1 (X21_large_and_gift_overlays_are_disjoint ChatScenario.store "s1"
                  (ChatScenario.largeGift "t3" 3000%Z))).
  vm_compute. tauto.
Defined.

(** ** [checkOrCreateUser] *)

(** X22.  [checkOrCreateUser] answers "no user, username needed" when the
    user service throws "User not found" or "No authentication cookie
    found", and rethrows any other error as it is.  In every answer a
    missing user comes with [needsUsername], and [needsUsername] is
    [false] exactly when the user exists and has a non-empty username. *)
Theorem X22_checkOrCreateUser
    (getUserById : string -> Outcome CheckUser.DbUser) (id : string) :
  (forall err, getUserById id = Throw err ->
     message err = "User not found" \/
     message err = "No authentication cookie found" ->
     CheckUser.checkOrCreateUser getUserById id
     = Ok (CheckUser.mkResult None true)) /\
  (forall err, getUserById id = Throw err ->
     message err <> "User not found" ->
     message err <> "No authentication cookie found" ->
     CheckUser.checkOrCreateUser getUserById id = Throw err) /\
  (forall res, CheckUser.checkOrCreateUser getUserById id = Ok res ->
     (CheckUser.user res = None -> CheckUser.needsUsername res = true) /\
     (CheckUser.needsUsername res = false <->
      exists uid name, CheckUser.user res = Some (uid, Some name) /\
                       name <> EmptyString)).
Proof.
  unfold CheckUser.checkOrCreateUser.
  split; [|split].
  - intros err -> [Hm|Hm]; rewrite Hm; reflexivity.
  - intros err -> Hn1 Hn2.
    apply String.eqb_neq in Hn1, Hn2. now rewrite Hn1, Hn2.
  - intros res Hres.
    destruct (getUserById id) as [me|err].
    + injection Hres as <-. simpl. split; [discriminate|].
      destruct (CheckUser.dbuser_username me) as [[|c s]|]; simpl.
      * split; [discriminate|].
        intros (uid & name & Hu & Hne). injection Hu as _ <-. contradiction.
      * split; [|reflexivity].
        intros _. exists (CheckUser.dbuser_id me), (String c s).
        split; [reflexivity | discriminate].
      * split; [discriminate|].
        intros (uid & name & Hu & _). discriminate.
    + destruct (String.eqb (message err) "User not found"
                || String.eqb (message err) "No authentication cookie found");
        [|discriminate].
      injection Hres as <-. simpl. split; [reflexivity|].
      split; [discriminate|]. intros (uid & name & Hu & _). discriminate.
Qed.

Lemma X22_witness :
  CheckUser.checkOrCreateUser
    (fun _ => Throw (newError "No authentication cookie found")) "u-1"
  = Ok (CheckUser.mkResult None true).
Proof.
  apply (proj1 (X22_checkOrCreateUser
                  (fun _ => Throw (newError "No authentication cookie found"))
                  "u-1")
           (newError "No authentication cookie found")).
  - reflexivity.
  - right. reflexivity.
Defined.

(** ** The handlers of [/api/user/me] *)

Module UserApiFacts.

Import UserApi.

Lemma updateWallet_split (ext wallet : string) (table : list UserRecord)
    (u' : UserRecord) (table' : list UserRecord) :
  updateWallet ext wallet table = Some (u', table') ->
  exists before u after,
    table = before ++ u :: after /\
    table' = before ++ withWallet wallet u :: after /\
    u' = withWallet wallet u /\
    externalUserId u = ext /\
    forallb (fun x => negb (String.eqb (externalUserId x) ext)) before = true.
Proof.
  revert u' table'.
  induction table as [|x rest IH]; intros u' table' Hu; simpl in Hu.
  - discriminate.
  - destruct (String.eqb (externalUserId x) ext) eqn:Hx.
    + injection Hu as <- <-. apply String.eqb_eq in Hx.
      exists [], x, rest. simpl. auto.
    + destruct (updateWallet ext wallet rest) as [[u1 rest1]|]; [|discriminate].
      injection Hu as <- <-.
      destruct (IH _ _ eq_refl) as (b & u & a & -> & -> & -> & He & Hb).
      exists (x :: b), u, a. simpl. rewrite Hx. simpl. auto.
Qed.

Lemma find_after_update (ext : string) (before : list UserRecord)
    (u : UserRecord) (after : list UserRecord) :
  externalUserId u = ext ->
  forallb (fun x => negb (String.eqb (externalUserId x) ext)) before = true ->
  find (fun x => String.eqb (externalUserId x) ext) (before ++ u :: after)
  = Some u.
Proof.
  intros Hu. induction before as [|x b IH]; simpl.
  - now rewrite Hu, String.eqb_refl.
  - intros Hb. apply andb_true_iff in Hb as [Hx Hb].
    apply negb_true_iff in Hx. rewrite Hx. auto.
Qed.

Lemma civicId_truthy (self : option CivicUser) (id : string) :
  civicId self = Some id -> id <> EmptyString.
Proof.
  unfold civicId. destruct self as [u|]; [|discriminate].
  destruct (civic_id u) as [[|c s]|]; simpl; try discriminate.
  intros [= <-]. discriminate.
Qed.

(** Every run of [GET]. *)
Lemma GET_cases (w : Accounts) :
  match civic w with
  | Throw _ =>
      GET w = (Ok (mkApiResponse (ErrorBody "Authentication failed") 401), w)
  | Ok self =>
      match civicId self with
      | None => GET w = (Ok (mkApiResponse (ErrorBody "Unauthorized") 401), w)
      | Some id =>
          let w1 := logQuery (FindUnique id) w in
          match dbDown w with
          | Some _ =>
              GET w = (Ok (mkApiResponse (ErrorBody "Failed to fetch user") 500), w1)
          | None =>
              match find (fun u => String.eqb (externalUserId u) id) (users w) with
              | None =>
                  GET w
                  = (Ok (mkApiResponse
                           (NewUserBody id
                              (orDefault (match self with
                                          | Some u => picture u
                                          | None => None
                                          end) defaultImage)) 202), w1)
              | Some u =>
                  GET w
                  = (Ok (json (UserBody u (negb (isSolanaPlatformWallet u)))), w1)
              end
          end
      end
  end.
Proof.
  unfold GET, tryCatch, GET_try.
  destruct (civic w) as [self|err]; [|reflexivity].
  destruct (civicId self) as [id|]; [|reflexivity].
  unfold bind, db_user_findUnique. cbv zeta.
  destruct (dbDown w); [reflexivity|].
  destruct (find _ (users w)) as [u|]; [|reflexivity].
  destruct (isSolanaPlatformWallet u); reflexivity.
Qed.

(** Every run of [PATCH]. *)
Lemma PATCH_cases (body_ : Outcome Json) (w : Accounts) :
  match civic w with
  | Throw _ =>
      PATCH body_ w
      = (Ok (mkApiResponse (ErrorBody "Authentication failed") 401), w)
  | Ok self =>
      match civicId self with
      | None =>
          PATCH body_ w = (Ok (mkApiResponse (ErrorBody "Unauthorized") 401), w)
      | Some id =>
          match body_ with
          | Throw _ =>
              PATCH body_ w
              = (Ok (mkApiResponse (ErrorBody "Failed to update user") 500), w)
          | Ok j =>
              match parseWallet j with
              | inl msg =>
                  PATCH body_ w
                  = (Ok (mkApiResponse
                           (ErrorBody (if truthy msg then msg
                                       else "Invalid input data")) 400), w)
              | inr wallet =>
                  let w1 := logQuery (UpdateWallet id wallet) w in
                  match dbDown w with
                  | Some _ =>
                      PATCH body_ w
                      = (Ok (mkApiResponse (ErrorBody "Failed to update user") 500),
                         w1)
                  | None =>
                      match updateWallet id wallet (users w) with
                      | None =>
                          PATCH body_ w
                          = (Ok (mkApiResponse
                                   (ErrorBody "Failed to update user") 500), w1)
                      | Some (u, table') =>
                          PATCH body_ w
                          = (Ok (json (WalletUpdatedBody (user_id u) (username u)
                                         (solanaWallet u))),
                             mkAccounts table' (dbDown w) (civic w) (queries w1))
                      end
                  end
              end
          end
      end
  end.
Proof.
  destruct w as [us down cv qs].
  unfold PATCH, tryCatch, PATCH_try. cbn [civic dbDown users].
  destruct cv as [self|err]; [|reflexivity].
  destruct (civicId self) as [id|]; [|reflexivity].
  destruct body_ as [j|err]; [|reflexivity].
  destruct (parseWallet j) as [msg|wallet]; [reflexivity|].
  unfold bind, db_user_update. cbv zeta. cbn [civic dbDown users].
  destruct down; [reflexivity|].
  destruct (updateWallet id wallet us) as [[u t']|]; reflexivity.
Qed.

(** The bodies the schema accepts. *)
Lemma parseWallet_accepts (j : Json) (wallet : string) :
  parseWallet j = inr wallet <->
  exists fields,
    j = JObj fields /\
    field "solanaWallet" fields = Some (VAtom (AStr wallet)) /\
    wallet <> EmptyString.
Proof.
  unfold parseWallet. split.
  - destruct j as [fields|a]; [|discriminate].
    destruct (field "solanaWallet" fields) as [[[| | |s|]|]|] eqn:Hf;
      try discriminate.
    destruct s as [|c s]; simpl; [discriminate|].
    intros [= <-]. exists fields. repeat split; [assumption | discriminate].
  - intros (fields & -> & -> & Hne).
    destruct wallet; [contradiction | reflexivity].
Qed.

End UserApiFacts.

(** X23.  Without a Civic identity both handlers answer 401 and make no
    database call: "Authentication failed" when [getUser()] throws,
    "Unauthorized" when it resolves to no user or to a user without id.
    [PATCH] does so whatever the request body is. *)
Theorem X23_user_api_requires_identity
    (w : UserApi.Accounts) (body_ : Outcome UserApi.Json) :
  (forall err, UserApi.civic w = Throw err ->
     UserApi.GET w
     = (Ok (UserApi.mkApiResponse (UserApi.ErrorBody "Authentication failed") 401), w) /\
     UserApi.PATCH body_ w
     = (Ok (UserApi.mkApiResponse (UserApi.ErrorBody "Authentication failed") 401), w)) /\
  (forall self, UserApi.civic w = Ok self -> UserApi.civicId self = None ->
     UserApi.GET w
     = (Ok (UserApi.mkApiResponse (UserApi.ErrorBody "Unauthorized") 401), w) /\
     UserApi.PATCH body_ w
     = (Ok (UserApi.mkApiResponse (UserApi.ErrorBody "Unauthorized") 401), w)).
Proof.
  pose proof (UserApiFacts.GET_cases w) as Hg.
  pose proof (UserApiFacts.PATCH_cases body_ w) as Hp.
  split.
  - intros err Hc. rewrite Hc in Hg, Hp. auto.
  - intros self Hc Hid. rewrite Hc, Hid in Hg, Hp. auto.
Qed.

Lemma X23_witness :
  UserApi.GET (UserApi.accounts (Ok (Some (UserApi.mkCivic (Some EmptyString) None))) None)
  = (Ok (UserApi.mkApiResponse (UserApi.ErrorBody "Unauthorized") 401),
     UserApi.accounts (Ok (Some (UserApi.mkCivic (Some EmptyString) None))) None).
Proof.
  apply (proj2 (X23_user_api_requires_identity
                  (UserApi.accounts
                     (Ok (Some (UserApi.mkCivic (Some EmptyString) None))) None)
                  (Throw (newError "Unexpected end of JSON input")))
           (Some (UserApi.mkCivic (Some EmptyString) None)));
    reflexivity.
Defined.

(** X24.  [GET] never throws and never changes the [user] table; its
    status is 200, 202, 401 or 500.  It answers 202, asking for profile
    completion, exactly when the caller has a Civic identity, the
    database answers and no row carries that identity as
    [externalUserId]; the body then names the identity and the Civic
    picture, or the default image when there is none.  When it answers
    200 the body is the caller's own row, flagged as needing a platform
    wallet exactly when [isSolanaPlatformWallet] is false. *)
Theorem X24_get_classifies_the_caller (w : UserApi.Accounts) :
  exists resp,
    fst (UserApi.GET w) = Ok resp /\
    UserApi.users (snd (UserApi.GET w)) = UserApi.users w /\
    (UserApi.api_status resp = 200 \/ UserApi.api_status resp = 202 \/
     UserApi.api_status resp = 401 \/ UserApi.api_status resp = 500) /\
    (UserApi.api_status resp = 202 <->
     exists self id,
       UserApi.civic w = Ok self /\ UserApi.civicId self = Some id /\
       UserApi.dbDown w = None /\
       (forall u, In u (UserApi.users w) -> UserApi.externalUserId u <> id) /\
       UserApi.api_body resp
       = UserApi.NewUserBody id
           (UserApi.orDefault (match self with
                               | Some u => UserApi.picture u
                               | None => None
                               end) UserApi.defaultImage)) /\
    (UserApi.api_status resp = 200 ->
     exists self id u,
       UserApi.civic w = Ok self /\ UserApi.civicId self = Some id /\
       In u (UserApi.users w) /\ UserApi.externalUserId u = id /\
       UserApi.api_body resp
       = UserApi.UserBody u (negb (UserApi.isSolanaPlatformWallet u))).
Proof.
  pose proof (UserApiFacts.GET_cases w) as Hg.
  destruct (UserApi.civic w) as [self|err] eqn:Hc.
  - destruct (UserApi.civicId self) as [id|] eqn:Hid.
    + cbv zeta in Hg. destruct (UserApi.dbDown w) as [down|] eqn:Hd.
      * rewrite Hg. eexists. split; [reflexivity|]. simpl.
        repeat split; auto; try discriminate.
        intros (? & ? & _ & _ & Hnone & _). discriminate.
      * destruct (find _ (UserApi.users w)) as [u|] eqn:Hf;
          rewrite Hg; eexists; (split; [reflexivity|]); simpl.
        -- repeat split; auto; try discriminate.
           ++ intros (s' & id' & [= <-] & Hid' & _ & Hnone & _).
              rewrite Hid in Hid'. injection Hid' as <-.
              apply find_some in Hf as [Hin He].
              apply String.eqb_eq in He. exfalso. exact (Hnone u Hin He).
           ++ intros _. exists self, id, u.
              apply find_some in Hf as [Hin He]. apply String.eqb_eq in He.
              auto.
        -- repeat split; auto; try discriminate.
           intros _. exists self, id. repeat split; auto.
           intros u Hin He.
           pose proof (find_none _ _ Hf u Hin) as Hn. simpl in Hn.
           apply String.eqb_neq in Hn. contradiction.
    + rewrite Hg. eexists. split; [reflexivity|]. simpl.
      repeat split; auto; try discriminate.
      intros (s' & id' & [= <-] & Hid' & _). congruence.
  - rewrite Hg. eexists. split; [reflexivity|]. simpl.
    repeat split; auto; try discriminate.
    intros (s' & id' & Hc' & _). discriminate.
Qed.

(** X25.  [PATCH] never throws; its status is 200, 400, 401 or 500.  It
    changes the [user] table only when it answers 200, and then it has
    assigned, in the caller's row and in no other, the non-empty string
    that the body gives as [solanaWallet], and it answers with that row's
    id, username and new wallet. *)
Theorem X25_patch_writes_only_on_success
    (body_ : Outcome UserApi.Json) (w : UserApi.Accounts) :
  exists resp,
    fst (UserApi.PATCH body_ w) = Ok resp /\
    (UserApi.api_status resp = 200 \/ UserApi.api_status resp = 400 \/
     UserApi.api_status resp = 401 \/ UserApi.api_status resp = 500) /\
    (UserApi.api_status resp <> 200 ->
     UserApi.users (snd (UserApi.PATCH body_ w)) = UserApi.users w) /\
    (UserApi.api_status resp = 200 ->
     exists self id j wallet before u after,
       UserApi.civic w = Ok self /\ UserApi.civicId self = Some id /\
       body_ = Ok j /\ UserApi.parseWallet j = inr wallet /\
       wallet <> EmptyString /\
       UserApi.users w = before ++ u :: after /\
       UserApi.externalUserId u = id /\
       UserApi.users (snd (UserApi.PATCH body_ w))
       = before ++ UserApi.withWallet wallet u :: after /\
       UserApi.api_body resp
       = UserApi.WalletUpdatedBody (UserApi.user_id u) (UserApi.username u)
           (Some wallet)).
Proof.
  pose proof (UserApiFacts.PATCH_cases body_ w) as Hp.
  destruct (UserApi.civic w) as [self|err] eqn:Hc.
  - destruct (UserApi.civicId self) as [id|] eqn:Hid.
    + destruct body_ as [j|berr].
      * destruct (UserApi.parseWallet j) as [msg|wallet] eqn:Hparse.
        -- rewrite Hp. eexists. split; [reflexivity|]. simpl.
           repeat split; auto; discriminate.
        -- cbv zeta in Hp. destruct (UserApi.dbDown w) as [down|].
           ++ rewrite Hp. eexists. split; [reflexivity|]. simpl.
              repeat split; auto; discriminate.
           ++ destruct (UserApi.updateWallet id wallet (UserApi.users w))
                as [[u' t']|] eqn:Hu.
              ** rewrite Hp. eexists. split; [reflexivity|]. simpl.
                 split; [auto|]. split; [intros Hne; now contradiction Hne|].
                 intros _.
                 destruct (UserApiFacts.updateWallet_split _ _ _ _ _ Hu)
                   as (b & u & a & Hw & -> & -> & He & _).
                 exists self, id, j, wallet, b, u, a.
                 repeat split; auto.
                 apply UserApiFacts.parseWallet_accepts in Hparse
                   as (_ & _ & _ & Hne). exact Hne.
              ** rewrite Hp. eexists. split; [reflexivity|]. simpl.
                 repeat split; auto; discriminate.
      * rewrite Hp. eexists. split; [reflexivity|]. simpl.
        repeat split; auto; discriminate.
    + rewrite Hp. eexists. split; [reflexivity|]. simpl.
      repeat split; auto; discriminate.
  - rewrite Hp. eexists. split; [reflexivity|]. simpl.
    repeat split; auto; discriminate.
Qed.

(** X26.  For a caller with a Civic identity, [PATCH] answers 400 with the
    schema's message, and makes no database call, whenever the body
    parses as JSON but is not an object whose [solanaWallet] is a
    non-empty string; an empty string is answered "Solana wallet address
    is required". *)
Theorem X26_patch_rejects_invalid_bodies
    (j : UserApi.Json) (w : UserApi.Accounts)
    (self : option UserApi.CivicUser) (id : string) :
  UserApi.civic w = Ok self -> UserApi.civicId self = Some id ->
  (forall fields wallet,
     j = UserApi.JObj fields ->
     UserApi.field "solanaWallet" fields
     = Some (UserApi.VAtom (UserApi.AStr wallet)) ->
     wallet = EmptyString) ->
  exists msg,
    UserApi.PATCH (Ok j) w
    = (Ok (UserApi.mkApiResponse (UserApi.ErrorBody msg) 400), w) /\
    msg <> EmptyString /\
    (forall fields,
       j = UserApi.JObj fields ->
       UserApi.field "solanaWallet" fields
       = Some (UserApi.VAtom (UserApi.AStr EmptyString)) ->
       msg = "Solana wallet address is required").
Proof.
  intros Hc Hid Hbad.
  pose proof (UserApiFacts.PATCH_cases (Ok j) w) as Hp.
  rewrite Hc, Hid in Hp.
  destruct (UserApi.parseWallet j) as [msg|wallet] eqn:Hparse.
  - exists (if truthy msg then msg else "Invalid input data").
    split; [exact Hp|]. split.
    + destruct msg; simpl; discriminate.
    + intros fields -> Hf. unfold UserApi.parseWallet in Hparse.
      rewrite Hf in Hparse. simpl in Hparse. injection Hparse as <-. reflexivity.
  - exfalso.
    apply UserApiFacts.parseWallet_accepts in Hparse as (fields & -> & Hf & Hne).
    exact (Hne (Hbad fields wallet eq_refl Hf)).
Qed.

Lemma X26_witness :
  exists msg,
    UserApi.PATCH
      (Ok (UserApi.JObj [("solanaWallet", UserApi.VAtom (UserApi.AStr EmptyString))]))
      (UserApi.accounts (Ok (Some (UserApi.mkCivic (Some "civic-1") None))) None)
    = (Ok (UserApi.mkApiResponse (UserApi.ErrorBody msg) 400),
       UserApi.accounts (Ok (Some (UserApi.mkCivic (Some "civic-1") None))) None) /\
    msg <> EmptyString /\
    (forall fields,
       UserApi.JObj [("solanaWallet", UserApi.VAtom (UserApi.AStr EmptyString))]
       = UserApi.JObj fields ->
       UserApi.field "solanaWallet" fields
       = Some (UserApi.VAtom (UserApi.AStr EmptyString)) ->
       msg = "Solana wallet address is required").
Proof.
  apply (X26_patch_rejects_invalid_bodies
           (UserApi.JObj [("solanaWallet", UserApi.VAtom (UserApi.AStr EmptyString))])
           (UserApi.accounts (Ok (Some (UserApi.mkCivic (Some "civic-1") None))) None)
           (Some (UserApi.mkCivic (Some "civic-1") None)) "civic-1");
    try reflexivity.
  intros fields wallet [= <-] Hf. simpl in Hf. now injection Hf as <-.
Defined.

(** X27.  A wallet written through [PATCH] is read back through [GET]:
    after a [PATCH] answered 200, a [GET] by the same caller answers 200
    with the caller's row, whose [solanaWallet] is the string the body
    gave. *)
Theorem X27_patch_then_get
    (j : UserApi.Json) (w : UserApi.Accounts) (resp : UserApi.ApiResponse) :
  fst (UserApi.PATCH (Ok j) w) = Ok resp ->
  UserApi.api_status resp = 200 ->
  exists wallet u,
    UserApi.parseWallet j = inr wallet /\
    fst (UserApi.GET (snd (UserApi.PATCH (Ok j) w)))
    = Ok (UserApi.json (UserApi.UserBody u (negb (UserApi.isSolanaPlatformWallet u)))) /\
    UserApi.solanaWallet u = Some wallet.
Proof.
  intros Hresp Hstatus.
  pose proof (UserApiFacts.PATCH_cases (Ok j) w) as Hp.
  destruct (UserApi.civic w) as [self|err] eqn:Hc;
    [|rewrite Hp in Hresp; injection Hresp as <-; discriminate].
  destruct (UserApi.civicId self) as [id|] eqn:Hid;
    [|rewrite Hp in Hresp; injection Hresp as <-; discriminate].
  destruct (UserApi.parseWallet j) as [msg|wallet];
    [rewrite Hp in Hresp; injection Hresp as <-; discriminate|].
  cbv zeta in Hp.
  destruct (UserApi.dbDown w) as [down|] eqn:Hd;
    [rewrite Hp in Hresp; injection Hresp as <-; discriminate|].
  destruct (UserApi.updateWallet id wallet (UserApi.users w)) as [[u' t']|] eqn:Hu;
    [|rewrite Hp in Hresp; injection Hresp as <-; discriminate].
  destruct (UserApiFacts.updateWallet_split _ _ _ _ _ Hu)
    as (b & u & a & Hw & -> & -> & He & Hb).
  exists wallet, (UserApi.withWallet wallet u).
  split; [reflexivity|]. split; [|reflexivity].
  rewrite Hp. cbn [snd].
  pose proof (UserApiFacts.GET_cases
                (UserApi.mkAccounts (b ++ UserApi.withWallet wallet u :: a)
                   None (Ok self)
                   (UserApi.queries (UserApi.logQuery (UserApi.UpdateWallet id wallet) w))))
    as Hg.
  cbn [UserApi.civic UserApi.dbDown UserApi.users] in Hg.
  rewrite Hid in Hg. cbv zeta in Hg.
  rewrite (UserApiFacts.find_after_update id b (UserApi.withWallet wallet u) a He Hb)
    in Hg.
  rewrite Hg. reflexivity.
Qed.

Lemma X27_witness :
  exists wallet u,
    UserApi.parseWallet
      (UserApi.JObj [("solanaWallet", UserApi.VAtom (UserApi.AStr "So1anaAlice"))])
    = inr wallet /\
    fst (UserApi.GET
           (snd (UserApi.PATCH
                   (Ok (UserApi.JObj
                          [("solanaWallet", UserApi.VAtom (UserApi.AStr "So1anaAlice"))]))
                   (UserApi.accounts
                      (Ok (Some (UserApi.mkCivic (Some "civic-1") None))) None))))
    = Ok (UserApi.json (UserApi.UserBody u (negb (UserApi.isSolanaPlatformWallet u)))) /\
    UserApi.solanaWallet u = Some wallet.
Proof.
  apply (X27_patch_then_get
           (UserApi.JObj [("solanaWallet", UserApi.VAtom (UserApi.AStr "So1anaAlice"))])
           (UserApi.accounts (Ok (Some (UserApi.mkCivic (Some "civic-1") None))) None)
           (UserApi.json (UserApi.WalletUpdatedBody "u-1" "alice" (Some "So1anaAlice"))));
    reflexivity.
Defined.

(** X28.  [useSelf] on top of [GET]: the query resolves to the response
    body exactly when [GET] answers 200 or 202, and rejects with "Failed
    to fetch user" when it answers 401 or 500; those are the only
    cases. *)
Theorem X28_useSelf_over_get (w : UserApi.Accounts) (resp : UserApi.ApiResponse) :
  fst (UserApi.GET w) = Ok resp ->
  (UserApi.api_status resp = 200 \/ UserApi.api_status resp = 202 ->
   UserApi.useSelfQuery resp = Ok (UserApi.api_body resp)) /\
  (UserApi.api_status resp = 401 \/ UserApi.api_status resp = 500 ->
   UserApi.useSelfQuery resp = Throw (newError "Failed to fetch user")) /\
  (UserApi.api_status resp = 200 \/ UserApi.api_status resp = 202 \/
   UserApi.api_status resp = 401 \/ UserApi.api_status resp = 500).
Proof.
  intros Hresp.
  assert (Hst : UserApi.api_status resp = 200 \/ UserApi.api_status resp = 202 \/
                UserApi.api_status resp = 401 \/ UserApi.api_status resp = 500).
  { pose proof (UserApiFacts.GET_cases w) as Hg.
    destruct (UserApi.civic w) as [self|err].
    - destruct (UserApi.civicId self) as [id|].
      + cbv zeta in Hg. destruct (UserApi.dbDown w).
        * rewrite Hg in Hresp. injection Hresp as <-. simpl. auto.
        * destruct (find _ (UserApi.users w));
            rewrite Hg in Hresp; injection Hresp as <-; simpl; auto.
      + rewrite Hg in Hresp. injection Hresp as <-. simpl. auto.
    - rewrite Hg in Hresp. injection Hresp as <-. simpl. auto. }
  unfold UserApi.useSelfQuery, UserApi.ok.
  repeat split; [| |exact Hst].
  - intros [-> | ->]; reflexivity.
  - intros [-> | ->]; reflexivity.
Qed.

Lemma X28_witness :
  UserApi.useSelfQuery
    (UserApi.mkApiResponse
       (UserApi.NewUserBody "civic-9" UserApi.defaultImage) 202)
  = Ok (UserApi.NewUserBody "civic-9" UserApi.defaultImage).
Proof.
  apply (proj1 (X28_useSelf_over_get
                  (UserApi.accounts
                     (Ok (Some (UserApi.mkCivic (Some "civic-9") (Some EmptyString))))
                     None)
                  (UserApi.mkApiResponse
                     (UserApi.NewUserBody "civic-9" UserApi.defaultImage) 202)
                  eq_refl)).
  right. reflexivity.
Defined.

(** ** The username rule *)

Module UserSchemasFacts.

Import UserSchemas.

Lemma lowerChar_word (c : ascii) :
  isWordChar c = true -> isWordChar (lowerChar c) = true.
Proof. destruct c as [[] [] [] [] [] [] [] []]; vm_compute; trivial. Qed.

Lemma lowerChar_twice (c : ascii) : lowerChar (lowerChar c) = lowerChar c.
Proof. destruct c as [[] [] [] [] [] [] [] []]; reflexivity. Qed.

Lemma lowerChar_not_upper (c : ascii) : inRange 65 90 (lowerChar c) = false.
Proof. destruct c as [[] [] [] [] [] [] [] []]; reflexivity. Qed.

Lemma toLowerCase_length (s : string) :
  String.length (toLowerCase s) = String.length s.
Proof. induction s as [|c s IH]; simpl; congruence. Qed.

Lemma toLowerCase_twice (s : string) :
  toLowerCase (toLowerCase s) = toLowerCase s.
Proof.
  induction s as [|c s IH]; simpl; [reflexivity|].
  now rewrite lowerChar_twice, IH.
Qed.

Lemma toLowerCase_pattern (s : string) :
  matchesPattern s = true -> matchesPattern (toLowerCase s) = true.
Proof.
  unfold matchesPattern. intros Hm. apply andb_true_iff in Hm as [Ht Hall].
  apply andb_true_iff. split.
  - destruct s; [discriminate | reflexivity].
  - clear Ht. induction s as [|c s IH]; simpl in *; [reflexivity|].
    apply andb_true_iff in Hall as [Hc Hall].
    now rewrite (lowerChar_word c Hc), (IH Hall).
Qed.

Lemma toLowerCase_no_upper (s : string) :
  forallb (fun c => negb (inRange 65 90 c))
          (list_ascii_of_string (toLowerCase s)) = true.
Proof.
  induction s as [|c s IH]; simpl; [reflexivity|].
  now rewrite lowerChar_not_upper, IH.
Qed.

End UserSchemasFacts.

(** X29.  The username [createUser] stores for an accepted username is
    its lower-case form, and that form passes the username rule again,
    has the same length, contains no upper-case letter and is left alone
    by a further [toLowerCase]. *)
Theorem X29_stored_username_is_valid_and_lower_case (username_ : string) :
  UserSchemas.usernameRule username_ = true ->
  let stored := UserSchemas.storedUsername username_ in
  UserSchemas.usernameRule stored = true /\
  String.length stored = String.length username_ /\
  forallb (fun c => negb (UserSchemas.inRange 65 90 c))
          (list_ascii_of_string stored) = true /\
  UserSchemas.storedUsername stored = stored.
Proof.
  intros Hrule stored. subst stored. unfold UserSchemas.storedUsername.
  unfold UserSchemas.usernameRule in *.
  apply andb_true_iff in Hrule as [Hlen Hpat].
  split; [|split; [|split]].
  - rewrite UserSchemasFacts.toLowerCase_length, Hlen.
    now rewrite (UserSchemasFacts.toLowerCase_pattern _ Hpat).
  - apply UserSchemasFacts.toLowerCase_length.
  - apply UserSchemasFacts.toLowerCase_no_upper.
  - apply UserSchemasFacts.toLowerCase_twice.
Qed.

Lemma X29_witness :
  let stored := UserSchemas.storedUsername "Alice_01" in
  UserSchemas.usernameRule stored = true /\
  String.length stored = String.length "Alice_01" /\
  forallb (fun c => negb (UserSchemas.inRange 65 90 c))
          (list_ascii_of_string stored) = true /\
  UserSchemas.storedUsername stored = stored.
Proof.
  apply (X29_stored_username_is_valid_and_lower_case "Alice_01").
  reflexivity.
Defined.
